(** * dev_brag: the data-retrieval and aggregation pipeline

    A shallow embedding of the TypeScript sources

    - [types.ts]                       (records of the domain),
    - [services/githubService.ts]      (pager, event fetchers, detail enricher),
    - [App.tsx], [handleFetchStats]    (repository reconciler),
    - [components/ActivityChart.tsx]   (timeline aggregator),

    together with the properties the specification states about them.

    Conventions.  A JavaScript [number] that holds an integer is a [Z]; a
    JavaScript [string] is a [string]; a value that may be [undefined] or
    [null] is an [option]; a [Set<T>] is a [gset T]; a [Map] whose iteration
    order is observable is an association list in insertion order. *)

From stdpp Require Import base gmap sets list strings pretty sorting.
From Stdlib Require Import ZArith Lia Ascii.

Local Open Scope Z_scope.

(** ** Domain records ([types.ts]) *)

Module GitHubRepo.
Record t : Type := mk {
  id : Z;
  name : string;
  full_name : string;
  private : bool;
  html_url : string;
  url : string;                    (* API url *)
  description : option string;
  language : option string;
  updated_at : string
}.
End GitHubRepo.

Module GitHubPR.
(** [api_url] is not part of the interface in [types.ts] but every object
    built by [fetchUserPullRequests] carries it. *)
Record t : Type := mk {
  id : Z;
  number : Z;
  title : string;
  html_url : string;
  api_url : string;
  state : string;
  created_at : string;
  merged_at : option string;
  body : option string;
  repository_url : string;
  additions : option Z;
  deletions : option Z
}.
End GitHubPR.

Module GitHubCommit.
Record t : Type := mk {
  sha : string;
  message : string;
  html_url : string;
  date : string;
  repository_url : string
}.
End GitHubCommit.

(** [s.startsWith(p)] *)
Definition startsWith (s p : string) : bool := String.prefix p s.

(** ** Repository reconciler ([App.tsx], [handleFetchStats], step 2) *)

Section Reconciler.
Variable repositories : list GitHubRepo.t.
Variable selectedRepoIds : gset Z.

(** [new Set(repositories.filter(r => selectedRepoIds.has(r.id)).map(r => r.url))] *)
Definition selectedRepoUrls : gset string :=
  list_to_set
    (GitHubRepo.url <$>
       filter (λ r, GitHubRepo.id r ∈ selectedRepoIds) repositories).

(** [allPrs.filter(pr => selectedRepoUrls.has(pr.repository_url))] *)
Definition filterPrs (allPrs : list GitHubPR.t) : list GitHubPR.t :=
  filter (λ pr, GitHubPR.repository_url pr ∈ selectedRepoUrls) allPrs.

(** [repositories.some(r => selectedRepoIds.has(r.id) &&
                            c.html_url.startsWith(r.html_url))] *)
Definition commitMatches (c : GitHubCommit.t) : Prop :=
  Exists (λ r, GitHubRepo.id r ∈ selectedRepoIds ∧
               startsWith (GitHubCommit.html_url c) (GitHubRepo.html_url r) = true)
         repositories.

#[global] Instance commitMatches_dec c : Decision (commitMatches c).
Proof. unfold commitMatches. apply _. Defined.

(** [allCommits.filter(c => repositories.some(...))] *)
Definition filterCommits (allCommits : list GitHubCommit.t) : list GitHubCommit.t :=
  filter commitMatches allCommits.

(** The pair [(filteredPrs, filteredCommits)] stored in the state. *)
Definition reconcile (allPrs : list GitHubPR.t) (allCommits : list GitHubCommit.t)
  : list GitHubPR.t * list GitHubCommit.t :=
  (filterPrs allPrs, filterCommits allCommits).
End Reconciler.

(** ** The network, as the service sees it ([services/githubService.ts])

    Every [fetch(url, { headers })] is recorded in a log, in the order in which
    the requests are issued.  The provider is a function from the history of
    requests and the present request to an answer, so that an answer may depend
    on everything that was asked before. *)

Record Error : Type := mkError { message : string }.

Record Request : Type := mkRequest {
  req_url : string;
  req_headers : list (string * string)
}.

(** A [Response] object: [json] is [inl msg] when [response.json()] rejects. *)
Record HttpResponse (A : Type) : Type := mkHttp {
  status : Z;
  statusText : string;
  json : string + A
}.
Arguments mkHttp {A} _ _ _.
Arguments status {A} _.
Arguments statusText {A} _.
Arguments json {A} _.

(** [response.ok]: the status is in the range 200-299. *)
Definition ok {A} (response : HttpResponse A) : bool :=
  (200 <=? status response) && (status response <=? 299).

(** What [await fetch(...)] yields: a rejection or a response. *)
Inductive FetchResult (A : Type) : Type :=
| Rejected (msg : string)
| Responded (response : HttpResponse A).
Arguments Rejected {A} _.
Arguments Responded {A} _.

Definition Provider (A : Type) : Type := list Request → Request → FetchResult A.

(** Computations that issue requests and may throw. *)
Definition M (A : Type) : Type := list Request → (Error + A) * list Request.

Definition ret {A} (a : A) : M A := λ log, (inr a, log).
Definition throw {A} (e : Error) : M A := λ log, (inl e, log).
Definition bind {A B} (c : M A) (k : A → M B) : M B :=
  λ log, match c log with
         | (inr a, log') => k a log'
         | (inl e, log') => (inl e, log')
         end.
(** [try { c } catch (e) { handler(e) }] *)
Definition try_catch {A} (c : M A) (handler : Error → M A) : M A :=
  λ log, match c log with
         | (inr a, log') => (inr a, log')
         | (inl e, log') => handler e log'
         end.

Notation "'do' x <- c ; k" := (bind c (λ x, k))
  (at level 10, x name, c at level 100, k at level 200).

(** [await fetch(url, { headers })] *)
Definition fetch {A} (provider : Provider A) (r : Request) : M (HttpResponse A) :=
  λ log, match provider log r with
         | Rejected msg => (inl (mkError msg), log ++ [r])
         | Responded response => (inr response, log ++ [r])
         end.

(** [await response.json()] *)
Definition response_json {A} (response : HttpResponse A) : M A :=
  match json response with
  | inl msg => throw (mkError msg)
  | inr data => ret data
  end.

(** [handleErrors] *)
Definition handleErrors {A} (response : HttpResponse A) : M unit :=
  if negb (ok response) then
    if status response =? 403 then
      throw (mkError "GitHub API rate limit exceeded. Please try again later.")
    else if status response =? 401 then
      throw (mkError "Invalid GitHub Token.")
    else if status response =? 422 then
      throw (mkError "Validation Failed. Try a shorter date range.")
    else throw (mkError ("GitHub API Error: " +:+ statusText response))
  else ret tt.

(** ** Pager ([fetchSearchPages]) *)

(** The body of a search answer; [items] may be missing ([data.items || []]). *)
Record SearchData (A : Type) : Type := mkSearchData { items : option (list A) }.
Arguments mkSearchData {A} _.
Arguments items {A} _.

Section Pager.
Context {A : Type}.
Variable provider : Provider (SearchData A).
Variable url : string.
Variable headers : list (string * string).

(** [`${url}&page=${currentPage}`] with the headers of the caller *)
Definition pageRequest (currentPage : nat) : Request :=
  mkRequest (url +:+ "&page=" +:+ pretty currentPage) headers.

(** The loop [while (currentPage <= maxPages) { ... currentPage++ }].
    [remaining] is [maxPages - currentPage + 1], the number of values of
    [currentPage] for which the loop condition still holds; it is zero
    exactly when the condition fails. *)
Fixpoint searchLoop (remaining currentPage : nat) (allItems : list A)
  : M (list A) :=
  match remaining with
  | O => ret allItems
  | S remaining' =>
      do response <- fetch provider (pageRequest currentPage);
      do _ <- handleErrors response;
      do data <- response_json response;
      let items := default [] (items data) in
      if length items =? 0 then ret allItems
      else
        let allItems := allItems ++ items in
        if length items <? 100 then ret allItems
        else searchLoop remaining' (S currentPage) allItems
  end%nat.

Definition fetchSearchPages (maxPages : nat) : M (list A) :=
  searchLoop maxPages 1 [].
End Pager.

(** ** Raw provider items, as far as the fetchers read them *)

Module RawIssue.
(** [item.pull_request?.merged_at] *)
Record pull_request_t : Type := mkPullRequest { merged_at : option string }.
Record t : Type := mk {
  id : Z;
  number : Z;
  title : string;
  html_url : string;
  url : string;
  state : string;
  created_at : string;
  pull_request : option pull_request_t;
  body : option string;
  repository_url : string
}.
End RawIssue.

Module RawCommit.
(** [item.commit.author.date] *)
Record author_t : Type := mkAuthor { date : string }.
Record commit_t : Type := mkCommit { message : string; author : author_t }.
(** [item.repository?.html_url] *)
Module Repository.
Record t : Type := mk { html_url : option string }.
End Repository.
Record t : Type := mk {
  sha : string;
  commit : commit_t;
  html_url : string;
  repository : option Repository.t
}.
End RawCommit.

(** The body of a pull-request detail answer. *)
Record PRDetails : Type := mkPRDetails {
  details_additions : option Z;
  details_deletions : option Z
}.

(** [x || fallback] on a possibly missing string: the empty string is falsy. *)
Definition string_or (x : option string) (fallback : string) : string :=
  match x with
  | Some s => if decide (s = "") then fallback else s
  | None => fallback
  end.

(** [x || null] on a possibly missing string. *)
Definition string_or_null (x : option string) : option string :=
  match x with
  | Some s => if decide (s = "") then None else Some s
  | None => None
  end.

(** The object literal of [items.map((item: any) => ({ id: item.id, ... }))]
    in [fetchUserPullRequests]. *)
Definition basicPR (item : RawIssue.t) : GitHubPR.t :=
  {| GitHubPR.id := RawIssue.id item;
     GitHubPR.number := RawIssue.number item;
     GitHubPR.title := RawIssue.title item;
     GitHubPR.html_url := RawIssue.html_url item;
     GitHubPR.api_url := RawIssue.url item;
     GitHubPR.state := RawIssue.state item;
     GitHubPR.created_at := RawIssue.created_at item;
     GitHubPR.merged_at :=
       string_or_null (RawIssue.pull_request item ≫= RawIssue.merged_at);
     GitHubPR.body := RawIssue.body item;
     GitHubPR.repository_url := RawIssue.repository_url item;
     GitHubPR.additions := None;
     GitHubPR.deletions := None |}.

(** The object literal of [items.map(...)] in [fetchUserCommits]. *)
Definition commitEvent (item : RawCommit.t) : GitHubCommit.t :=
  {| GitHubCommit.sha := RawCommit.sha item;
     GitHubCommit.message := RawCommit.message (RawCommit.commit item);
     GitHubCommit.html_url := RawCommit.html_url item;
     GitHubCommit.date := RawCommit.date (RawCommit.author (RawCommit.commit item));
     GitHubCommit.repository_url :=
       string_or (RawCommit.repository item ≫= RawCommit.Repository.html_url) "Unknown Repo" |}.

(** [{ ...pr, additions: details.additions, deletions: details.deletions }] *)
Definition withDetails (pr : GitHubPR.t) (details : PRDetails) : GitHubPR.t :=
  {| GitHubPR.id := GitHubPR.id pr;
     GitHubPR.number := GitHubPR.number pr;
     GitHubPR.title := GitHubPR.title pr;
     GitHubPR.html_url := GitHubPR.html_url pr;
     GitHubPR.api_url := GitHubPR.api_url pr;
     GitHubPR.state := GitHubPR.state pr;
     GitHubPR.created_at := GitHubPR.created_at pr;
     GitHubPR.merged_at := GitHubPR.merged_at pr;
     GitHubPR.body := GitHubPR.body pr;
     GitHubPR.repository_url := GitHubPR.repository_url pr;
     GitHubPR.additions := details_additions details;
     GitHubPR.deletions := details_deletions details |}.

(** [array.map(async x => f(x))] awaited by [Promise.all]: the callbacks start
    in index order, each issuing its requests when it starts. *)
Fixpoint mapM {A B} (f : A → M B) (l : list A) : M (list B) :=
  match l with
  | [] => ret []
  | x :: l' =>
      do y <- f x;
      do ys <- mapM f l';
      ret (y :: ys)
  end.

(** ** Event fetchers and detail enricher *)

Definition GITHUB_API_BASE : string := "https://api.github.com".

Section Fetchers.
(** The three endpoints of the provider. *)
Variable issueSearch : Provider (SearchData RawIssue.t).
Variable commitSearch : Provider (SearchData RawCommit.t).
Variable pullDetail : Provider PRDetails.
(** The built-in [encodeURIComponent]. *)
Variable encodeURIComponent : string → string.

(** [headers] as built by both fetchers: the [Accept] entry, then the
    [Authorization] entry when the token is not empty. *)
Definition buildHeaders (accept token : string) : list (string * string) :=
  [("Accept", accept)] ++
  (if decide (token = "") then [] else [("Authorization", "token " +:+ token)]).

(** The callback of [prsToEnrich.map(async (pr) => { try ... catch ... })] *)
Definition enrich (headers : list (string * string)) (pr : GitHubPR.t)
  : M GitHubPR.t :=
  try_catch
    (do detailsRes <- fetch pullDetail (mkRequest (GitHubPR.api_url pr) headers);
     if ok detailsRes then
       do details <- response_json detailsRes;
       ret (withDetails pr details)
     else ret pr)
    (λ e, ret pr).

(** The detail enricher: lines 130-152 of [fetchUserPullRequests]. *)
Definition enrichPRs (headers : list (string * string)) (basicPRs : list GitHubPR.t)
  : M (list GitHubPR.t) :=
  let prsToEnrich := take 20 basicPRs in
  let restPRs := drop 20 basicPRs in
  do enrichedPRs <- mapM (enrich headers) prsToEnrich;
  ret (enrichedPRs ++ restPRs).

(** [new Error(error.message || fallback)] *)
Definition rethrow {A} (fallback : string) (error : Error) : M A :=
  throw (mkError (if decide (message error = "") then fallback else message error)).

Definition fetchUserPullRequests (username token startDate endDate : string)
  : M (list GitHubPR.t) :=
  if decide (username = "") then throw (mkError "Username is required")
  else
    let headers := buildHeaders "application/vnd.github.v3+json" token in
    let query :=
      "author:" +:+ username +:+ " type:pr created:" +:+ startDate +:+ ".." +:+ endDate in
    let encodedQuery := encodeURIComponent query in
    let url :=
      GITHUB_API_BASE +:+ "/search/issues?q=" +:+ encodedQuery +:+
      "&per_page=100&sort=created&order=desc" in
    try_catch
      (do items <- fetchSearchPages issueSearch url headers 10;
       let basicPRs := basicPR <$> items in
       enrichPRs headers basicPRs)
      (rethrow "Failed to fetch pull requests").

Definition fetchUserCommits (username token startDate endDate : string)
  : M (list GitHubCommit.t) :=
  if decide (username = "") then throw (mkError "Username is required")
  else
    let headers := buildHeaders "application/vnd.github.cloak-preview+json" token in
    let query :=
      "author:" +:+ username +:+ " committer-date:" +:+ startDate +:+ ".." +:+ endDate in
    let encodedQuery := encodeURIComponent query in
    let url :=
      GITHUB_API_BASE +:+ "/search/commits?q=" +:+ encodedQuery +:+
      "&per_page=100&sort=committer-date&order=desc" in
    try_catch
      (do items <- fetchSearchPages commitSearch url headers 10;
       ret (commitEvent <$> items))
      (rethrow "Failed to fetch commits").
End Fetchers.

(** ** The built-in [Date] (ECMA-262, "Date Objects")

    A time value is a number of milliseconds since the epoch, in UTC.  The
    abstract operations below carry the names the standard gives them; the
    ones that take a time value in the standard and only look at its day
    number take the day number here. *)

Definition msPerDay : Z := 86400000.

Definition Day (t : Z) : Z := t / msPerDay.
Definition TimeWithinDay (t : Z) : Z := t mod msPerDay.

Definition DaysInYear (y : Z) : Z :=
  if negb (y mod 4 =? 0) then 365
  else if negb (y mod 100 =? 0) then 366
  else if negb (y mod 400 =? 0) then 365
  else 366.

(** The day number of the first day of year [y]. *)
Definition DayFromYear (y : Z) : Z :=
  365 * (y - 1970) + (y - 1969) / 4 - (y - 1901) / 100 + (y - 1601) / 400.

(** [YearFromTime]: the largest [y] with [DayFromYear y <= n].  It is computed
    from the mean length of a year in the 400-year cycle of 146097 days, which
    is off by at most one. *)
Definition YearFromDay (n : Z) : Z :=
  let y := 1970 + (400 * n) / 146097 in
  if n <? DayFromYear y then y - 1
  else if DayFromYear (y + 1) <=? n then y + 1
  else y.

Definition InLeapYear (y : Z) : Z := if DaysInYear y =? 366 then 1 else 0.

Definition DayWithinYear (n : Z) : Z := n - DayFromYear (YearFromDay n).

(** The day within the year on which month [m] (0 to 11) starts. *)
Definition monthStart (leap m : Z) : Z :=
  match m with
  | 0 => 0
  | 1 => 31
  | 2 => 59 + leap
  | 3 => 90 + leap
  | 4 => 120 + leap
  | 5 => 151 + leap
  | 6 => 181 + leap
  | 7 => 212 + leap
  | 8 => 243 + leap
  | 9 => 273 + leap
  | 10 => 304 + leap
  | _ => 334 + leap
  end.

(** [MonthFromTime] *)
Definition MonthFromDay (n : Z) : Z :=
  let d := DayWithinYear n in
  let leap := InLeapYear (YearFromDay n) in
  if d <? 31 then 0
  else if d <? 59 + leap then 1
  else if d <? 90 + leap then 2
  else if d <? 120 + leap then 3
  else if d <? 151 + leap then 4
  else if d <? 181 + leap then 5
  else if d <? 212 + leap then 6
  else if d <? 243 + leap then 7
  else if d <? 273 + leap then 8
  else if d <? 304 + leap then 9
  else if d <? 334 + leap then 10
  else 11.

(** [DateFromTime]: the day of the month, from 1. *)
Definition DateFromDay (n : Z) : Z :=
  DayWithinYear n
  - monthStart (InLeapYear (YearFromDay n)) (MonthFromDay n) + 1.

(** [MakeDay (year, month, date)]: the day number of the first day of month
    [month mod 12] of year [year + floor (month / 12)], plus [date - 1]. *)
Definition MakeDay (year month date : Z) : Z :=
  let ym := year + month / 12 in
  let mn := month mod 12 in
  DayFromYear ym + monthStart (InLeapYear ym) mn + date - 1.

Definition MakeDate (day time : Z) : Z := day * msPerDay + time.

(** [TimeClip]: time values beyond 8.64e15 ms are not representable. *)
Definition TimeClip (t : Z) : option Z :=
  if Z.abs t <=? 8640000000000000 then Some t else None.

(** A [Date] object holds a time value or NaN ("Invalid Date"). *)
Definition Date : Type := option Z.

(** [n] decimal digits of [x], most significant first. *)
Definition digitChar (x : Z) : ascii :=
  match x with
  | 0 => "0" | 1 => "1" | 2 => "2" | 3 => "3" | 4 => "4"
  | 5 => "5" | 6 => "6" | 7 => "7" | 8 => "8" | _ => "9"
  end%char.

Fixpoint digits (n : nat) (x : Z) : string :=
  match n with
  | O => ""
  | S n' => String (digitChar ((x / 10 ^ Z.of_nat n') mod 10)) (digits n' x)
  end.

(** [s.padStart(n, c)] for a one-character filler [c]. *)
Fixpoint fill (k : nat) (c : ascii) (s : string) : string :=
  match k with
  | O => s
  | S k' => String c (fill k' c s)
  end.

Definition padStart (s : string) (n : nat) (c : ascii) : string :=
  fill (n - String.length s) c s.

(** [s.split(sep)[0]] for a one-character separator. *)
Fixpoint split_head (sep : ascii) (s : string) : string :=
  match s with
  | EmptyString => ""
  | String c s' => if decide (c = sep) then "" else String c (split_head sep s')
  end.

(** The year of the ISO format: four digits, or a sign and six digits. *)
Definition isoYear (y : Z) : string :=
  if (0 <=? y) && (y <=? 9999) then digits 4 y
  else (if y <? 0 then "-" else "+") +:+ digits 6 (Z.abs y).

(** [YYYY-MM-DD] of a day number. *)
Definition isoDate (n : Z) : string :=
  isoYear (YearFromDay n) +:+ "-" +:+ digits 2 (MonthFromDay n + 1) +:+ "-" +:+
  digits 2 (DateFromDay n).

(** [HH:mm:ss.sss] of a time within the day. *)
Definition isoTime (ms : Z) : string :=
  digits 2 (ms / 3600000) +:+ ":" +:+ digits 2 (ms / 60000 mod 60) +:+ ":" +:+
  digits 2 (ms / 1000 mod 60) +:+ "." +:+ digits 3 (ms mod 1000).

(** [Date.prototype.toISOString]: a [RangeError] on an invalid date. *)
Definition toISOString (d : Date) : Error + string :=
  match d with
  | None => inl (mkError "Invalid time value")
  | Some t => inr (isoDate (Day t) +:+ "T" +:+ isoTime (TimeWithinDay t) +:+ "Z")
  end.

(** ** Timeline aggregator ([components/ActivityChart.tsx], [chartData]) *)

Record ChartData : Type := mkChartData {
  key : string;        (* YYYY-MM-DD or YYYY-MM *)
  label : string;      (* display label *)
  PRs : Z;
  Commits : Z;
  timestamp : Z        (* for sorting *)
}.

(** The two option objects given to [toLocaleDateString]. *)
Inductive LabelOptions : Type :=
| MonthShortYear2Digit     (* { month: 'short', year: '2-digit' } *)
| MonthShortDayNumeric.    (* { month: 'short', day: 'numeric' } *)

(** ['PRs' | 'Commits'] *)
Inductive EventType : Type := TypePRs | TypeCommits.

(** What running a piece of the component gives: a value, an exception, or
    no answer within the number of steps allowed to the model. *)
Inductive Outcome (A : Type) : Type :=
| Returns (a : A)
| Throws (e : Error)
| OutOfFuel.
Arguments Returns {A} _.
Arguments Throws {A} _.
Arguments OutOfFuel {A}.

(** [Map<string, ChartData>], in insertion order. *)
Definition DataMap : Type := list (string * ChartData).

(** [dataMap.get(k)] *)
Fixpoint Map_get (m : DataMap) (k : string) : option ChartData :=
  match m with
  | [] => None
  | (k', v) :: m' => if decide (k' = k) then Some v else Map_get m' k
  end.

(** [dataMap.set(k, v)]: a key that is present keeps its position. *)
Fixpoint Map_set (m : DataMap) (k : string) (v : ChartData) : DataMap :=
  match m with
  | [] => [(k, v)]
  | (k', v') :: m' =>
      if decide (k' = k) then (k, v) :: m' else (k', v') :: Map_set m' k v
  end.

(** A mutation of the object that [dataMap.get(k)] returned. *)
Fixpoint Map_mutate (m : DataMap) (k : string) (f : ChartData → ChartData) : DataMap :=
  match m with
  | [] => []
  | (k', v') :: m' =>
      if decide (k' = k) then (k', f v') :: m' else (k', v') :: Map_mutate m' k f
  end.

(** [Array.from(dataMap.values())] *)
Definition Map_values (m : DataMap) : list ChartData := snd <$> m.

(** [bucket[type] += 1] *)
Definition increment (type : EventType) (bucket : ChartData) : ChartData :=
  match type with
  | TypePRs =>
      mkChartData (key bucket) (label bucket) (PRs bucket + 1) (Commits bucket)
                  (timestamp bucket)
  | TypeCommits =>
      mkChartData (key bucket) (label bucket) (PRs bucket) (Commits bucket + 1)
                  (timestamp bucket)
  end.

(** The order of the comparator [(a, b) => a.timestamp - b.timestamp]. *)
Definition timestamp_le (a b : ChartData) : Prop := timestamp a ≤ timestamp b.

#[global] Instance timestamp_le_dec a b : Decision (timestamp_le a b).
Proof. unfold timestamp_le. apply _. Defined.

(** [array.sort((a, b) => a.timestamp - b.timestamp)].  The sort of the
    language is stable; so is this insertion sort, which puts an element
    before the first later element that is not smaller. *)
Fixpoint insertByTimestamp (x : ChartData) (l : list ChartData) : list ChartData :=
  match l with
  | [] => [x]
  | y :: l' =>
      if decide (timestamp_le x y) then x :: y :: l' else y :: insertByTimestamp x l'
  end.

Definition sortByTimestamp (l : list ChartData) : list ChartData :=
  foldr insertByTimestamp [] l.

Section ActivityChart.
(** [new Date(s)] for a string [s]: the parser of the host. *)
Variable Date_parse : string → Date.
(** The offset of local time from UTC, in milliseconds; it is taken to be
    the same at all times (no daylight-saving transitions). *)
Variable LocalTZA : Z.
(** [d.toLocaleDateString(undefined, options)] of the host's locale. *)
Variable toLocaleDateString : Z → LabelOptions → string.

Definition LocalTime (t : Z) : Z := t + LocalTZA.
Definition UTC (t : Z) : Z := t - LocalTZA.

(** Getters give NaN ([None]) on an invalid date. *)
Definition getTime (d : Date) : option Z := d.
Definition getFullYear (d : Date) : option Z :=
  (λ t, YearFromDay (Day (LocalTime t))) <$> d.
Definition getMonth (d : Date) : option Z :=
  (λ t, MonthFromDay (Day (LocalTime t))) <$> d.
Definition getDate (d : Date) : option Z :=
  (λ t, DateFromDay (Day (LocalTime t))) <$> d.

(** [d.setDate(dt)] and [d.setMonth(m)]: the new time value of [d]. *)
Definition setDate (d : Date) (dt : option Z) : Date :=
  t ← d; dt ← dt;
  let t := LocalTime t in
  TimeClip (UTC (MakeDate (MakeDay (YearFromDay (Day t)) (MonthFromDay (Day t)) dt)
                          (TimeWithinDay t))).
Definition setMonth (d : Date) (m : option Z) : Date :=
  t ← d; m ← m;
  let t := LocalTime t in
  TimeClip (UTC (MakeDate (MakeDay (YearFromDay (Day t)) m (DateFromDay (Day t)))
                          (TimeWithinDay t))).

(** [a <= b] on dates and [a === b] on numbers: false when NaN is involved. *)
Definition Date_le (a b : Date) : bool :=
  match a, b with
  | Some x, Some y => x <=? y
  | _, _ => false
  end.
Definition Number_eq (a b : option Z) : bool :=
  match a, b with
  | Some x, Some y => x =? y
  | _, _ => false
  end.

(** [Math.ceil(Math.abs(end.getTime() - start.getTime()) / (1000*60*60*24))] *)
Definition diffDays (start end_ : Date) : option Z :=
  s ← getTime start; e ← getTime end_;
  let diffTime := Z.abs (e - s) in
  Some (- ((- diffTime) / (1000 * 60 * 60 * 24))).

(** [diffDays > 60] *)
Definition isMonthlyRange (start end_ : Date) : bool :=
  match diffDays start end_ with
  | Some d => 60 <? d
  | None => false
  end.

(** [`${d.getFullYear()}-${String(d.getMonth() + 1).padStart(2, '0')}`] *)
Definition monthKey (t : Z) : string :=
  pretty (YearFromDay (Day (LocalTime t))) +:+ "-" +:+
  padStart (pretty (MonthFromDay (Day (LocalTime t)) + 1)) 2 "0".

(** [d.toISOString().split('T')[0]] *)
Definition dayKey (d : Date) : Error + string :=
  match toISOString d with
  | inl e => inl e
  | inr s => inr (split_head "T" s)
  end.

(** The condition of the [while] loop. *)
Definition loopCondition (isMonthly : bool) (current endTarget : Date) : bool :=
  Date_le current endTarget
  || (isMonthly
      && Number_eq (getMonth current) (getMonth endTarget)
      && Number_eq (getFullYear current) (getFullYear endTarget)).

(** Step 1, the [while] loop that creates the empty buckets.  [loops] is
    the counter of the source; [fuel] bounds the number of times the model
    evaluates the loop condition. *)
Fixpoint fillBuckets (fuel : nat) (isMonthly : bool) (endTarget current : Date)
    (loops : Z) (dataMap : DataMap) : Outcome DataMap :=
  match fuel with
  | O => OutOfFuel
  | S fuel' =>
      if loopCondition isMonthly current endTarget then
        if 1000 <? loops then Returns dataMap          (* loops++ > 1000: break *)
        else
          let loops := loops + 1 in
          match current with
          | None => Returns dataMap    (* not reached: the condition is false *)
          | Some t =>
              let keyOrError :=
                if isMonthly then inr (monthKey t) else dayKey current in
              let label :=
                toLocaleDateString t
                  (if isMonthly then MonthShortYear2Digit else MonthShortDayNumeric) in
              match keyOrError with
              | inl e => Throws e
              | inr key =>
                  let dataMap := Map_set dataMap key (mkChartData key label 0 0 t) in
                  let current :=
                    if isMonthly then setMonth current ((λ m, m + 1) <$> getMonth current)
                    else setDate current ((λ d, d + 1) <$> getDate current) in
                  fillBuckets fuel' isMonthly endTarget current loops dataMap
              end
          end
      else Returns dataMap
  end.

(** Step 2, [processItem]. *)
Definition processItem (isMonthly : bool) (dataMap : DataMap)
    (dateStr : string) (type : EventType) : Outcome DataMap :=
  let date := Date_parse dateStr in
  match getTime date with
  | None => Returns dataMap                            (* isNaN: return *)
  | Some t =>
      let keyOrError := if isMonthly then inr (monthKey t) else dayKey date in
      match keyOrError with
      | inl e => Throws e
      | inr key =>
          match Map_get dataMap key with
          | Some bucket => Returns (Map_mutate dataMap key (increment type))
          | None => Returns dataMap
          end
      end
  end.

(** [xs.forEach(x => processItem(dateOf(x), type))] *)
Fixpoint processAll (isMonthly : bool) (type : EventType) (dates : list string)
    (dataMap : DataMap) : Outcome DataMap :=
  match dates with
  | [] => Returns dataMap
  | dateStr :: dates' =>
      match processItem isMonthly dataMap dateStr type with
      | Returns dataMap' => processAll isMonthly type dates' dataMap'
      | Throws e => Throws e
      | OutOfFuel => OutOfFuel
      end
  end.

(** The body of [useMemo]: the value of [chartData]. *)
Definition chartData (prs : list GitHubPR.t) (commits : list GitHubCommit.t)
    (startDate endDate : string) : Outcome (list ChartData) :=
  let start := Date_parse startDate in
  let end_ := Date_parse endDate in
  let isMonthly := isMonthlyRange start end_ in
  let current := if isMonthly then setDate start (Some 1) else start in
  let endTarget := if isMonthly then setDate end_ (Some 1) else end_ in
  match fillBuckets 1003 isMonthly endTarget current 0 [] with
  | Returns dataMap =>
      match processAll isMonthly TypePRs (GitHubPR.created_at <$> prs) dataMap with
      | Returns dataMap =>
          match processAll isMonthly TypeCommits (GitHubCommit.date <$> commits) dataMap with
          | Returns dataMap => Returns (sortByTimestamp (Map_values dataMap))
          | Throws e => Throws e
          | OutOfFuel => OutOfFuel
          end
      | Throws e => Throws e
      | OutOfFuel => OutOfFuel
      end
  | Throws e => Throws e
  | OutOfFuel => OutOfFuel
  end.
End ActivityChart.

(** ** A host for running the component on concrete inputs

    The part of the ISO format that the dashboard produces: [YYYY-MM-DD],
    read as midnight UTC, and [YYYY-MM-DDTHH:mm:ssZ]. *)

Definition digitValue (c : ascii) : option Z :=
  let n := Z.of_nat (nat_of_ascii c) in
  if (48 <=? n) && (n <=? 57) then Some (n - 48) else None.

Fixpoint parseDigits (acc : Z) (s : string) : option Z :=
  match s with
  | EmptyString => Some acc
  | String c s' => d ← digitValue c; parseDigits (10 * acc + d) s'
  end.

Definition DaysInMonth (y m : Z) : Z :=
  monthStart (InLeapYear y) (m + 1) - monthStart (InLeapYear y) m
  + (if m =? 11 then 31 + InLeapYear y else 0).

Definition isoParseDate (s : string) : option Z :=
  if decide (String.length s = 10%nat ∧ String.substring 4 1 s = "-" ∧ String.substring 7 1 s = "-")
  then
    y ← parseDigits 0 (String.substring 0 4 s);
    m ← parseDigits 0 (String.substring 5 2 s);
    d ← parseDigits 0 (String.substring 8 2 s);
    if (1 <=? m) && (m <=? 12) && (1 <=? d) && (d <=? DaysInMonth y (m - 1))
    then Some (MakeDay y (m - 1) d) else None
  else None.

Definition isoParseTime (s : string) : option Z :=
  if decide (String.length s = 10%nat ∧ String.substring 0 1 s = "T" ∧ String.substring 3 1 s = ":"
             ∧ String.substring 6 1 s = ":" ∧ String.substring 9 1 s = "Z")
  then
    h ← parseDigits 0 (String.substring 1 2 s);
    m ← parseDigits 0 (String.substring 4 2 s);
    sec ← parseDigits 0 (String.substring 7 2 s);
    if (h <=? 23) && (m <=? 59) && (sec <=? 59)
    then Some (h * 3600000 + m * 60000 + sec * 1000) else None
  else None.

Definition isoParse (s : string) : Date :=
  if decide (String.length s = 10%nat) then
    day ← isoParseDate s; TimeClip (MakeDate day 0)
  else
    day ← isoParseDate (String.substring 0 10 s);
    time ← isoParseTime (String.substring 10 10 s);
    TimeClip (MakeDate day time).

(** A locale whose labels are the ISO keys themselves. *)
Definition plainLabel (t : Z) (options : LabelOptions) : string :=
  match options with
  | MonthShortYear2Digit => String.substring 0 7 (isoDate (Day t))
  | MonthShortDayNumeric => String.substring 5 5 (isoDate (Day t))
  end.

(** ** Notions used to state the properties *)

(** The provider answers a request with a page of items, whatever was asked
    before: a success status and a body whose items are [page]. *)
Definition serves {A} (provider : Provider (SearchData A)) (r : Request)
    (page : list A) : Prop :=
  ∀ log, ∃ response data,
    provider log r = Responded response ∧ ok response = true ∧
    json response = inr data ∧ default [] (items data) = page.

(** The request that [enrich] issues for a pull request. *)
Definition detailRequest (headers : list (string * string)) (pr : GitHubPR.t)
  : Request :=
  mkRequest (GitHubPR.api_url pr) headers.

(** The details carried by an answer of the detail endpoint, if it is a
    success whose body can be read. *)
Definition detailsOf (answer : FetchResult PRDetails) : option PRDetails :=
  match answer with
  | Responded response =>
      if ok response then
        match json response with inr details => Some details | inl _ => None end
      else None
  | Rejected _ => None
  end.

(** A pull request with the details added, or as it was when there are none. *)
Definition enriched (pr : GitHubPR.t) (details : option PRDetails) : GitHubPR.t :=
  match details with
  | Some d => withDetails pr d
  | None => pr
  end.

(** Equality of all the fields but the size-impact pair. *)
Definition sameBasicFields (a b : GitHubPR.t) : Prop :=
  GitHubPR.id a = GitHubPR.id b ∧
  GitHubPR.number a = GitHubPR.number b ∧
  GitHubPR.title a = GitHubPR.title b ∧
  GitHubPR.html_url a = GitHubPR.html_url b ∧
  GitHubPR.api_url a = GitHubPR.api_url b ∧
  GitHubPR.state a = GitHubPR.state b ∧
  GitHubPR.created_at a = GitHubPR.created_at b ∧
  GitHubPR.merged_at a = GitHubPR.merged_at b ∧
  GitHubPR.body a = GitHubPR.body b ∧
  GitHubPR.repository_url a = GitHubPR.repository_url b.

(** The day number of the first day of the month with index [i], where the
    index of month [m] (0 to 11) of year [y] is [12 * y + m]. *)
Definition firstOfMonth (i : Z) : Z :=
  DayFromYear (i / 12) + monthStart (InLeapYear (i / 12)) (i mod 12).

(** The index of the calendar month a day lies in. *)
Definition monthIndex (n : Z) : Z := 12 * YearFromDay n + MonthFromDay n.

(** The number of calendar days, and of calendar months, that the range from
    day [sd] to day [ed] spans inclusively; none when the range is inverted. *)
Definition daysSpanned (sd ed : Z) : Z := Z.max 0 (ed - sd + 1).
Definition monthsSpanned (sd ed : Z) : Z :=
  Z.max 0 (monthIndex ed - monthIndex sd + 1).

(** A day whose year is written with four digits, as in [YYYY-MM-DD]. *)
Definition fourDigitYear (n : Z) : Prop := 0 ≤ YearFromDay n ≤ 9999.

(** No character of the string is [sep]. *)
Fixpoint lacks (sep : ascii) (s : string) : Prop :=
  match s with
  | EmptyString => True
  | String c s' => c ≠ sep ∧ lacks sep s'
  end.

(** The key of the month with index [i]. *)
Definition monthKeyOf (i : Z) : string :=
  pretty (i / 12) +:+ "-" +:+ padStart (pretty (i mod 12 + 1)) 2 "0".

(** The empty bucket of day [n], and the empty bucket of the month with index
    [i] when the loop is at [shift] milliseconds after midnight UTC of its
    first day. *)
Definition dayBucket (toLocaleDateString : Z → LabelOptions → string) (n : Z)
  : string * ChartData :=
  (isoDate n,
   mkChartData (isoDate n) (toLocaleDateString (n * msPerDay) MonthShortDayNumeric)
               0 0 (n * msPerDay)).

Definition monthBucket (toLocaleDateString : Z → LabelOptions → string)
    (shift : Z) (i : Z) : string * ChartData :=
  (monthKeyOf i,
   mkChartData (monthKeyOf i)
               (toLocaleDateString (firstOfMonth i * msPerDay + shift) MonthShortYear2Digit)
               0 0 (firstOfMonth i * msPerDay + shift)).

(** A bucket that counts nothing. *)
Definition emptyBucket (b : ChartData) : Prop := PRs b = 0 ∧ Commits b = 0.

(** What identifies a bucket on the time axis: all but its two counts. *)
Definition slot (b : ChartData) : string * string * Z := (key b, label b, timestamp b).

(** The local calendar day of midnight UTC of day [n]. *)
Definition localDay (LocalTZA : Z) (n : Z) : Z := Day (n * msPerDay + LocalTZA).

(** A function applied to the value that an outcome returns. *)
Definition outcome_map {A B : Type} (f : A → B) (o : Outcome A) : Outcome B :=
  match o with
  | Returns a => Returns (f a)
  | Throws e => Throws e
  | OutOfFuel => OutOfFuel
  end.

(** ** Concrete inputs of the specification's examples *)

Definition repoAt (id : Z) (html_url url : string) : GitHubRepo.t :=
  GitHubRepo.mk id "repo" "org/repo" false html_url url None None "2024-01-01T00:00:00Z".

Definition commitAt (html_url repository_url : string) : GitHubCommit.t :=
  GitHubCommit.mk "abc" "message" html_url "2024-01-01T00:00:00Z" repository_url.

Definition prIn (id : Z) (repository_url : string) : GitHubPR.t :=
  GitHubPR.mk id 1 "title" "https://host/org/repo/pull/1" "https://api.host/repos/org/repo/pulls/1"
    "open" "2024-01-01T00:00:00Z" None None repository_url None None.

(** A provider of search pages that answers the request for page [k] of [url]
    with the [k]-th page of a given sequence, and with an empty page beyond. *)
Definition pageServer {A} (url : string) (pages : list (list A))
  : Provider (SearchData A) :=
  λ log r,
    let found :=
      list_find (λ k : nat, req_url r = url +:+ "&page=" +:+ pretty k)
                (seq 1 (length pages)) in
    let page :=
      match found with
      | Some (i, _) => default [] (pages !! i)
      | None => []
      end in
    Responded (mkHttp 200 "OK" (inr (mkSearchData (Some page)))).

Definition exampleUrl : string :=
  "https://api.github.com/search/issues?q=author%3Aoctocat&per_page=100".

(** The items [from], [from + 1], ..., [n] of them. *)
Definition itemsFrom (from : Z) (n : nat) : list Z := seqZ from (Z.of_nat n).

(** Three full pages of 100 items, then a page of 40. *)
Definition examplePages : list (list Z) :=
  [itemsFrom 0 100; itemsFrom 100 100; itemsFrom 200 100; itemsFrom 300 40].

(** Twenty-five pull requests, numbered from 0, each with its own detail URL. *)
Definition examplePR (i : Z) : GitHubPR.t :=
  GitHubPR.mk i i "title" ("https://host/org/repo/pull/" +:+ pretty i)
    ("https://api.host/repos/org/repo/pulls/" +:+ pretty i)
    "open" "2024-01-01T00:00:00Z" None None "https://api.host/repos/org/repo" None None.

Definition examplePRs : list GitHubPR.t := examplePR <$> seqZ 0 25.

(** A detail endpoint that fails with status 500 on pull request 5 and
    answers every other request with 7 additions and 3 deletions. *)
Definition exampleDetail : Provider PRDetails :=
  λ log r,
    if decide (req_url r = "https://api.host/repos/org/repo/pulls/5")
    then Responded (mkHttp 500 "Internal Server Error" (inl "Unexpected token"))
    else Responded (mkHttp 200 "OK" (inr (mkPRDetails (Some 7) (Some 3)))).

(** A raw commit item without a repository object. *)
Definition exampleRawCommit : RawCommit.t :=
  RawCommit.mk "abc" (RawCommit.mkCommit "message" (RawCommit.mkAuthor "2024-01-01T00:00:00Z"))
    "https://host/org/repo/commit/abc" None.

(** * The rest of the service, the application state and its handlers *)

(** ** The authenticated user and the repository catalog
    ([services/githubService.ts]) *)

Module GitHubUser.
Record t : Type := mk {
  login : string;
  avatar_url : string;
  name : string
}.
End GitHubUser.

(** A raw repository item, as far as [fetchUserRepositories] reads it. *)
Module RawRepo.
Record t : Type := mk {
  id : Z;
  name : string;
  full_name : string;
  private : bool;
  html_url : string;
  url : string;
  description : option string;
  language : option string;
  updated_at : string
}.
End RawRepo.

(** The object literal of [allRepos.map((repo: any) => ({ id: repo.id, ... }))]. *)
Definition catalogRepo (repo : RawRepo.t) : GitHubRepo.t :=
  {| GitHubRepo.id := RawRepo.id repo;
     GitHubRepo.name := RawRepo.name repo;
     GitHubRepo.full_name := RawRepo.full_name repo;
     GitHubRepo.private := RawRepo.private repo;
     GitHubRepo.html_url := RawRepo.html_url repo;
     GitHubRepo.url := RawRepo.url repo;
     GitHubRepo.description := RawRepo.description repo;
     GitHubRepo.language := RawRepo.language repo;
     GitHubRepo.updated_at := RawRepo.updated_at repo |}.

(** The headers of the two account endpoints: the token is sent as it is,
    empty or not. *)
Definition accountHeaders (token : string) : list (string * string) :=
  [("Authorization", "token " +:+ token);
   ("Accept", "application/vnd.github.v3+json")].

Section Account.
(** The endpoints [/user] and [/user/repos]. *)
Variable userApi : Provider GitHubUser.t.
Variable repoApi : Provider (list RawRepo.t).

Definition userRequest (token : string) : Request :=
  mkRequest (GITHUB_API_BASE +:+ "/user") (accountHeaders token).

Definition fetchAuthenticatedUser (token : string) : M GitHubUser.t :=
  do response <- fetch userApi (userRequest token);
  do _ <- handleErrors response;
  response_json response.

(** [const perPage = 100] *)
Definition perPage : nat := 100.

(** [`${GITHUB_API_BASE}/user/repos?sort=pushed&per_page=${perPage}&type=all&page=${page}`] *)
Definition repoRequest (token : string) (page : nat) : Request :=
  mkRequest
    (GITHUB_API_BASE +:+ "/user/repos?sort=pushed&per_page=" +:+ pretty perPage +:+
     "&type=all&page=" +:+ pretty page)
    (accountHeaders token).

(** The loop [while (page <= 3) { ... page++ }]; [remaining] is [3 - page + 1],
    the number of values of [page] for which the condition still holds. *)
Fixpoint reposLoop (token : string) (remaining page : nat) (allRepos : list RawRepo.t)
  : M (list RawRepo.t) :=
  match remaining with
  | O => ret allRepos
  | S remaining' =>
      do response <- fetch repoApi (repoRequest token page);
      do _ <- handleErrors response;
      do data <- response_json response;
      if length data =? 0 then ret allRepos
      else
        let allRepos := allRepos ++ data in
        if length data <? perPage then ret allRepos
        else reposLoop token remaining' (S page) allRepos
  end%nat.

Definition fetchUserRepositories (token : string) : M (list GitHubRepo.t) :=
  do allRepos <- reposLoop token 3 1 [];
  ret (catalogRepo <$> allRepos).
End Account.

(** ** The application state ([types.ts], [App.tsx]) *)

Inductive AppStep : Type := StepLogin | StepRepoSelection | StepDashboard.

Inductive AppStatus : Type :=
| StatusIdle | StatusLoading | StatusAnalyzingAI | StatusComplete | StatusError.

Module DateRange.
Record t : Type := mk { startDate : string; endDate : string }.
End DateRange.

Module AppState.
Record t : Type := mk {
  step : AppStep;
  user : option GitHubUser.t;
  githubToken : string;
  repositories : list GitHubRepo.t;
  selectedRepoIds : gset Z;
  dateRange : DateRange.t;
  status : AppStatus;
  error : option string;
  prs : list GitHubPR.t;
  commits : list GitHubCommit.t;
  generatedReport : option string
}.
End AppState.

(** The updater of [toggleRepo]: a copy of the set with [id] deleted when it
    is there and added when it is not. *)
Definition toggleRepo (id : Z) (s : AppState.t) : AppState.t :=
  let newSet :=
    if decide (id ∈ AppState.selectedRepoIds s)
    then AppState.selectedRepoIds s ∖ {[id]}
    else AppState.selectedRepoIds s ∪ {[id]} in
  {| AppState.step := AppState.step s;
     AppState.user := AppState.user s;
     AppState.githubToken := AppState.githubToken s;
     AppState.repositories := AppState.repositories s;
     AppState.selectedRepoIds := newSet;
     AppState.dateRange := AppState.dateRange s;
     AppState.status := AppState.status s;
     AppState.error := AppState.error s;
     AppState.prs := AppState.prs s;
     AppState.commits := AppState.commits s;
     AppState.generatedReport := AppState.generatedReport s |}.

(** The updater of [handleLogout]. *)
Definition handleLogout (s : AppState.t) : AppState.t :=
  {| AppState.step := StepLogin;
     AppState.user := None;
     AppState.githubToken := "";
     AppState.repositories := [];
     AppState.selectedRepoIds := ∅;
     AppState.dateRange := AppState.dateRange s;
     AppState.status := AppState.status s;
     AppState.error := AppState.error s;
     AppState.prs := [];
     AppState.commits := [];
     AppState.generatedReport := AppState.generatedReport s |}.

Section Login.
Variable userApi : Provider GitHubUser.t.
Variable repoApi : Provider (list RawRepo.t).

(** [setState(s => ({ ...s, status: 'loading', error: null }))] *)
Definition setLoading (s : AppState.t) : AppState.t :=
  {| AppState.step := AppState.step s;
     AppState.user := AppState.user s;
     AppState.githubToken := AppState.githubToken s;
     AppState.repositories := AppState.repositories s;
     AppState.selectedRepoIds := AppState.selectedRepoIds s;
     AppState.dateRange := AppState.dateRange s;
     AppState.status := StatusLoading;
     AppState.error := None;
     AppState.prs := AppState.prs s;
     AppState.commits := AppState.commits s;
     AppState.generatedReport := AppState.generatedReport s |}.

(** [setState(s => ({ ...s, user, repositories: repos, status: 'idle',
                     step: 'repo_selection' }))] *)
Definition setLoggedIn (user : GitHubUser.t) (repos : list GitHubRepo.t)
    (s : AppState.t) : AppState.t :=
  {| AppState.step := StepRepoSelection;
     AppState.user := Some user;
     AppState.githubToken := AppState.githubToken s;
     AppState.repositories := repos;
     AppState.selectedRepoIds := AppState.selectedRepoIds s;
     AppState.dateRange := AppState.dateRange s;
     AppState.status := StatusIdle;
     AppState.error := AppState.error s;
     AppState.prs := AppState.prs s;
     AppState.commits := AppState.commits s;
     AppState.generatedReport := AppState.generatedReport s |}.

(** [setState(s => ({ ...s, status: 'error', error: err.message }))] *)
Definition setError (err : Error) (s : AppState.t) : AppState.t :=
  {| AppState.step := AppState.step s;
     AppState.user := AppState.user s;
     AppState.githubToken := AppState.githubToken s;
     AppState.repositories := AppState.repositories s;
     AppState.selectedRepoIds := AppState.selectedRepoIds s;
     AppState.dateRange := AppState.dateRange s;
     AppState.status := StatusError;
     AppState.error := Some (message err);
     AppState.prs := AppState.prs s;
     AppState.commits := AppState.commits s;
     AppState.generatedReport := AppState.generatedReport s |}.

(** [handleLogin]: the state once the handler has finished, when no other
    update of the state comes in between.  The handler reads the token of
    the state it was created with. *)
Definition handleLogin (state : AppState.t) : M AppState.t :=
  if decide (AppState.githubToken state = "") then ret state
  else
    let loading := setLoading state in
    try_catch
      (do user <- fetchAuthenticatedUser userApi (AppState.githubToken state);
       do repos <- fetchUserRepositories repoApi (AppState.githubToken state);
       ret (setLoggedIn user repos loading))
      (λ err, ret (setError err loading)).
End Login.

(** ** The repository selector ([components/RepoSelector.tsx]) *)

(** [s.includes(sub)] *)
Fixpoint includes (s sub : string) : bool :=
  if String.prefix sub s then true
  else match s with
       | EmptyString => false
       | String _ s' => includes s' sub
       end.

Section RepoSelector.
(** The built-in [toLowerCase]. *)
Variable toLowerCase : string → string.

(** [repos.filter(repo => repo.full_name.toLowerCase().includes(search.toLowerCase()))] *)
Definition filteredRepos (repos : list GitHubRepo.t) (search : string)
  : list GitHubRepo.t :=
  filter (λ repo, includes (toLowerCase (GitHubRepo.full_name repo)) (toLowerCase search)
                  = true) repos.

(** [toggleAll]: the tests read the set of the last render, [selectedRepoIds];
    each call of [onToggleRepo] queues the updater [toggleRepo], and the
    updaters run in order on the state. *)
Definition toggleAll (visible : list GitHubRepo.t) (selectedRepoIds : gset Z)
    (s : AppState.t) : AppState.t :=
  if decide (Forall (λ r, GitHubRepo.id r ∈ selectedRepoIds) visible) then
    foldl (λ s r, if decide (GitHubRepo.id r ∈ selectedRepoIds)
                  then toggleRepo (GitHubRepo.id r) s else s) s visible
  else
    foldl (λ s r, if decide (GitHubRepo.id r ∈ selectedRepoIds)
                  then s else toggleRepo (GitHubRepo.id r) s) s visible.
End RepoSelector.

(** ** The list of pull requests ([components/PRList.tsx]) *)

(** [s.split(sep)] for a one-character separator. *)
Fixpoint split (sep : ascii) (s : string) : list string :=
  match s with
  | EmptyString => [""]
  | String c s' =>
      if decide (c = sep) then "" :: split sep s'
      else match split sep s' with
           | segment :: segments => String c segment :: segments
           | [] => [String c ""]
           end
  end.

(** [getRepoName]: [parts[parts.length - 1]] when [parts.length > 0]. *)
Definition getRepoName (url : string) : string :=
  let parts := split "/" url in
  match last parts with
  | Some name => name
  | None => "unknown-repo"
  end.

(** ** Notions used to state the further properties *)

(** The page of repositories that a request is answered with. *)
Definition servesRepos (provider : Provider (list RawRepo.t)) (r : Request)
    (page : list RawRepo.t) : Prop :=
  ∀ log, ∃ response,
    provider log r = Responded response ∧ ok response = true ∧ json response = inr page.

(** The message that [handleErrors] gives to a response that is not a
    success. *)
Definition failureMessage {A} (response : HttpResponse A) : string :=
  if status response =? 403 then "GitHub API rate limit exceeded. Please try again later."
  else if status response =? 401 then "Invalid GitHub Token."
  else if status response =? 422 then "Validation Failed. Try a shorter date range."
  else "GitHub API Error: " +:+ statusText response.

(** The host reads the date string as a time that [P] holds of. *)
Definition dateHolds (Date_parse : string → Date) (P : Z → bool) (d : string) : bool :=
  match Date_parse d with
  | Some t => P t
  | None => false
  end.

(** The number of date strings that the host reads as a time that [P] holds
    of. *)
Definition countDates (Date_parse : string → Date) (P : Z → bool)
    (dates : list string) : Z :=
  Z.of_nat (length (filter (λ d, dateHolds Date_parse P d = true) dates)).

(** The sum of a count over the buckets. *)
Definition total (count : ChartData → Z) (buckets : list ChartData) : Z :=
  foldr (λ b acc, count b + acc) 0 buckets.

(** The URLs and the [Accept] values of the two search fetchers. *)
Definition issueSearchUrl (encodeURIComponent : string → string)
    (username startDate endDate : string) : string :=
  GITHUB_API_BASE +:+ "/search/issues?q=" +:+
  encodeURIComponent ("author:" +:+ username +:+ " type:pr created:" +:+
                      startDate +:+ ".." +:+ endDate) +:+
  "&per_page=100&sort=created&order=desc".

Definition commitSearchUrl (encodeURIComponent : string → string)
    (username startDate endDate : string) : string :=
  GITHUB_API_BASE +:+ "/search/commits?q=" +:+
  encodeURIComponent ("author:" +:+ username +:+ " committer-date:" +:+
                      startDate +:+ ".." +:+ endDate) +:+
  "&per_page=100&sort=committer-date&order=desc".

Definition issueAccept : string := "application/vnd.github.v3+json".
Definition commitAccept : string := "application/vnd.github.cloak-preview+json".

(** The provider never puts more than 100 items on a page. *)
Definition respectsPageSize {A} (provider : Provider (SearchData A)) : Prop :=
  ∀ log r response data,
    provider log r = Responded response → json response = inr data →
    (length (default [] (items data)) ≤ 100)%nat.

(** ** Concrete inputs of the further examples *)

(** A search endpoint that serves the first page of [examplePages] and
    answers the request for the second page with status 403. *)
Definition rateLimitedSearch : Provider (SearchData Z) :=
  λ log r,
    if decide (req_url r = exampleUrl +:+ "&page=2")
    then Responded (mkHttp 403 "Forbidden" (inl "Unexpected end of JSON input"))
    else pageServer exampleUrl examplePages log r.

(** A search endpoint that has nothing, and one that cannot be reached. *)
Definition emptySearch {A} : Provider (SearchData A) :=
  λ log r, Responded (mkHttp 200 "OK" (inr (mkSearchData (Some [])))).

Definition unreachable {A} : Provider A := λ log r, Rejected "".

(** Three repositories of a catalog, and an account whose catalog is one
    short page. *)
Definition exampleRawRepo (id : Z) : RawRepo.t :=
  RawRepo.mk id ("repo" +:+ pretty id) ("org/repo" +:+ pretty id) false
    ("https://host/org/repo" +:+ pretty id) ("https://api.host/repos/org/repo" +:+ pretty id)
    None (Some "TypeScript") "2024-01-01T00:00:00Z".

Definition exampleRawRepos : list RawRepo.t := exampleRawRepo <$> [1; 2; 3].

Definition exampleRepoApi : Provider (list RawRepo.t) :=
  λ log r, Responded (mkHttp 200 "OK" (inr exampleRawRepos)).

Definition exampleUser : GitHubUser.t :=
  GitHubUser.mk "octocat" "https://host/avatar.png" "The Octocat".

Definition exampleUserApi : Provider GitHubUser.t :=
  λ log r, Responded (mkHttp 200 "OK" (inr exampleUser)).

(** An account endpoint that turns the credential down. *)
Definition unauthorizedUserApi : Provider GitHubUser.t :=
  λ log r, Responded (mkHttp 401 "Unauthorized" (inl "Unexpected token")).

(** The state of the application when it starts, with a credential typed in. *)
Definition exampleState (token : string) : AppState.t :=
  AppState.mk StepLogin None token [] ∅ (DateRange.mk "2024-01-01" "2024-03-01")
    StatusIdle None [] [] None.

(** ** Notions used to state the counts of the timeline *)

(** The key under which [processItem] looks up an event of time value [t]:
    the key of its local month, or the part of its ISO form before the "T". *)
Definition eventKey (LocalTZA : Z) (isMonthly : bool) (t : Z) : string :=
  if isMonthly then monthKey LocalTZA t
  else split_head "T" (isoDate (Day t) +:+ "T" +:+ isoTime (TimeWithinDay t) +:+ "Z").

(** A bucket with [c] more events of a type. *)
Definition counted (type : EventType) (c : Z) (b : ChartData) : ChartData :=
  match type with
  | TypePRs => mkChartData (key b) (label b) (PRs b + c) (Commits b) (timestamp b)
  | TypeCommits => mkChartData (key b) (label b) (PRs b) (Commits b + c) (timestamp b)
  end.

(** The bucket of day [n] with its counts: the events that the host reads as
    a time on day [n] of UTC. *)
Definition dayTotals (Date_parse : string → Date)
    (toLocaleDateString : Z → LabelOptions → string)
    (prDates commitDates : list string) (n : Z) : ChartData :=
  mkChartData (isoDate n) (toLocaleDateString (n * msPerDay) MonthShortDayNumeric)
    (countDates Date_parse (λ t, Day t =? n) prDates)
    (countDates Date_parse (λ t, Day t =? n) commitDates)
    (n * msPerDay).

(** The bucket of the month with index [i] with its counts: the events that
    the host reads as a time in that month of local time. *)
Definition monthTotals (Date_parse : string → Date) (LocalTZA : Z)
    (toLocaleDateString : Z → LabelOptions → string) (shift : Z)
    (prDates commitDates : list string) (i : Z) : ChartData :=
  mkChartData (monthKeyOf i)
    (toLocaleDateString (firstOfMonth i * msPerDay + shift) MonthShortYear2Digit)
    (countDates Date_parse (λ t, monthIndex (Day (t + LocalTZA)) =? i) prDates)
    (countDates Date_parse (λ t, monthIndex (Day (t + LocalTZA)) =? i) commitDates)
    (firstOfMonth i * msPerDay + shift).

(** An event of a day of January 2024, as the provider writes its time. *)
Definition examplePRAt (created_at : string) : GitHubPR.t :=
  GitHubPR.mk 1 1 "Fix" "https://host/org/a/pull/1" "https://api.host/repos/org/a/pulls/1"
    "closed" created_at None None "https://api.host/repos/org/a" None None.

(** * Properties *)

(** ** Strings *)

Lemma append_cons (a : ascii) (s t : string) :
  String a s +:+ t = String a (s +:+ t).
Proof. reflexivity. Qed.

Lemma startsWith_spec (s p : string) :
  startsWith s p = true ↔ ∃ rest, s = p +:+ rest.
Proof.
  unfold startsWith. revert s.
  induction p as [|a p IH]; intros s; simpl.
  - destruct s; split; eauto.
  - destruct s as [|b s]; simpl.
    + split; [done|]. intros [rest Hrest]. discriminate.
    + destruct (ascii_dec a b) as [->|Hne].
      * rewrite IH.
        split; intros [rest Hrest]; exists rest; rewrite append_cons in *; congruence.
      * split; [done|]. intros [rest Hrest]. rewrite append_cons in Hrest. congruence.
Qed.

(** ** Repository reconciler *)

Section ReconcilerFacts.
Variable repositories : list GitHubRepo.t.
Variable selectedRepoIds : gset Z.

Lemma elem_of_selectedRepoUrls (u : string) :
  u ∈ selectedRepoUrls repositories selectedRepoIds ↔
  ∃ r, r ∈ repositories ∧ GitHubRepo.id r ∈ selectedRepoIds ∧ GitHubRepo.url r = u.
Proof.
  unfold selectedRepoUrls.
  rewrite elem_of_list_to_set, list_elem_of_fmap.
  split.
  - intros (r & -> & Hr). apply list_elem_of_filter in Hr as [? ?]. eauto.
  - intros (r & Hr & Hsel & <-). exists r. split; [done|].
    apply list_elem_of_filter. done.
Qed.

Lemma commitMatches_spec (c : GitHubCommit.t) :
  commitMatches repositories selectedRepoIds c ↔
  ∃ r, r ∈ repositories ∧ GitHubRepo.id r ∈ selectedRepoIds ∧
       ∃ rest, GitHubCommit.html_url c = GitHubRepo.html_url r +:+ rest.
Proof.
  unfold commitMatches. rewrite Exists_exists.
  split; intros (r & Hr & Hsel & Hpre); exists r; repeat split; try done;
    by apply startsWith_spec.
Qed.

Lemma filter_idem {A} (P : A → Prop) `{!∀ x, Decision (P x)} (l : list A) :
  filter P (filter P l) = filter P l.
Proof.
  induction l as [|x l IH]; [done|].
  rewrite (filter_cons P x l). destruct (decide (P x)) as [HP|HP]; [|done].
  rewrite (filter_cons P x (filter P l)). destruct (decide (P x)); [|done].
  by rewrite IH.
Qed.
End ReconcilerFacts.

(** C5: a pull request is retained exactly when its owning-repository machine
    URL is equal to the machine URL of a selected repository of the catalog;
    a machine URL that merely extends a selected one does not count. *)
Theorem C5_pr_retained_iff_member :
  (∀ (repositories : list GitHubRepo.t) (selectedRepoIds : gset Z)
     (allPrs : list GitHubPR.t) (pr : GitHubPR.t),
     pr ∈ filterPrs repositories selectedRepoIds allPrs ↔
     pr ∈ allPrs ∧
     ∃ r, r ∈ repositories ∧ GitHubRepo.id r ∈ selectedRepoIds ∧
          GitHubRepo.url r = GitHubPR.repository_url pr)
  ∧ filterPrs [repoAt 1 "https://host/org/repo" "https://api.host/repos/org/repo"] {[1]}
      [prIn 10 "https://api.host/repos/org/repo";
       prIn 11 "https://api.host/repos/org/repo2"]
    = [prIn 10 "https://api.host/repos/org/repo"].
Proof.
  split.
  - intros repositories selectedRepoIds allPrs pr. unfold filterPrs.
    rewrite list_elem_of_filter, elem_of_selectedRepoUrls. tauto.
  - by vm_compute.
Qed.

(** C1, where the code differs: with only [https://host/org/repo] selected, the
    commit [https://host/org/repo2/commit/abc] of another repository is
    retained, because the selected URL is a prefix of its URL. *)
Lemma C1_repo2_commit_is_retained :
  commitAt "https://host/org/repo2/commit/abc" "https://host/org/repo2"
  ∈ filterCommits [repoAt 1 "https://host/org/repo" "https://api.host/repos/org/repo"] {[1]}
      [commitAt "https://host/org/repo2/commit/abc" "https://host/org/repo2"].
Proof. vm_compute. apply list_elem_of_here. Qed.

(** C1, as the code has it: a commit is retained exactly when its own human URL is a
    selected repository's human URL followed by some rest; the commit
    [https://host/org/repo/commit/abc] is retained when
    [https://host/org/repo] is selected, and a commit under
    [https://host/org/other] is not. *)
Theorem C1_commit_retained_iff_prefix :
  (∀ (repositories : list GitHubRepo.t) (selectedRepoIds : gset Z)
     (allCommits : list GitHubCommit.t) (c : GitHubCommit.t),
     c ∈ filterCommits repositories selectedRepoIds allCommits ↔
     c ∈ allCommits ∧
     ∃ r, r ∈ repositories ∧ GitHubRepo.id r ∈ selectedRepoIds ∧
          ∃ rest, GitHubCommit.html_url c = GitHubRepo.html_url r +:+ rest)
  ∧ filterCommits [repoAt 1 "https://host/org/repo" "https://api.host/repos/org/repo"] {[1]}
      [commitAt "https://host/org/repo/commit/abc" "https://host/org/repo";
       commitAt "https://host/org/other/commit/abc" "https://host/org/other"]
    = [commitAt "https://host/org/repo/commit/abc" "https://host/org/repo"].
Proof.
  split.
  - intros repositories selectedRepoIds allCommits c. unfold filterCommits.
    rewrite list_elem_of_filter, commitMatches_spec. tauto.
  - by vm_compute.
Qed.

(** C8: reconciling the output of a reconciliation again, against the same
    catalog and the same selection, gives that output back. *)
Theorem C8_reconcile_idempotent
  (repositories : list GitHubRepo.t) (selectedRepoIds : gset Z)
  (allPrs : list GitHubPR.t) (allCommits : list GitHubCommit.t) :
  let once := reconcile repositories selectedRepoIds allPrs allCommits in
  reconcile repositories selectedRepoIds once.1 once.2 = once.
Proof.
  simpl. unfold reconcile, filterPrs, filterCommits.
  by rewrite !filter_idem.
Qed.

(** ** Pager *)

Section PagerFacts.
Context {A : Type}.
Variable provider : Provider (SearchData A).
Variable url : string.
Variable headers : list (string * string).

(** One turn of the loop on a page that is served. *)
Lemma searchLoop_step (remaining currentPage : nat) (allItems page : list A)
    (log : list Request) :
  serves provider (pageRequest url headers currentPage) page →
  searchLoop provider url headers (S remaining) currentPage allItems log =
  if (length page =? 0)%nat then (inr allItems, log ++ [pageRequest url headers currentPage])
  else if (length page <? 100)%nat
       then (inr (allItems ++ page), log ++ [pageRequest url headers currentPage])
       else searchLoop provider url headers remaining (S currentPage) (allItems ++ page)
              (log ++ [pageRequest url headers currentPage]).
Proof.
  intros Hserved. destruct (Hserved log) as (response & data & Hanswer & Hok & Hjson & Hitems).
  simpl. unfold bind at 1. unfold bind at 1. unfold fetch. rewrite Hanswer.
  unfold handleErrors. rewrite Hok. simpl. unfold ret at 1.
  unfold bind at 1. unfold response_json. rewrite Hjson. unfold ret at 1.
  rewrite Hitems.
  destruct (length page =? 0)%nat; [done|].
  destruct (length page <? 100)%nat; done.
Qed.

Lemma searchLoop_run (n : nat) :
  ∀ (remaining currentPage : nat) (allItems : list A) (log : list Request)
    (p : nat → list A),
    (∀ i, (i < n)%nat →
          serves provider (pageRequest url headers (currentPage + i)) (p (currentPage + i)%nat)) →
    (∀ i, (i + 1 < n)%nat → (100 ≤ length (p (currentPage + i)%nat))%nat) →
    (n = remaining ∨
     ((0 < n ≤ remaining)%nat ∧ (length (p (currentPage + n - 1)%nat) < 100)%nat)) →
    searchLoop provider url headers remaining currentPage allItems log =
    (inr (allItems ++ concat (p <$> seq currentPage n)),
     log ++ (pageRequest url headers <$> seq currentPage n)).
Proof.
  induction n as [|n IH]; intros remaining currentPage allItems log p Hserved Hfull Hstop.
  - destruct Hstop as [ <- | [? _] ]; [|lia]. simpl. unfold ret. by rewrite !app_nil_r.
  - destruct remaining as [|remaining]; [lia|].
    rewrite (searchLoop_step _ _ _ (p currentPage)); last first.
    { specialize (Hserved 0%nat). rewrite Nat.add_0_r in Hserved. apply Hserved. lia. }
    cbn [seq fmap list_fmap concat].
    destruct (decide (n = 0%nat)) as [->|Hn].
    + cbn [seq fmap list_fmap concat]. rewrite !app_nil_r.
      destruct (length (p currentPage) =? 0)%nat eqn:Hlen0.
      { apply Nat.eqb_eq in Hlen0. apply nil_length_inv in Hlen0.
        rewrite Hlen0. by rewrite app_nil_r. }
      destruct (length (p currentPage) <? 100)%nat eqn:Hlen; [done|].
      apply Nat.ltb_ge in Hlen.
      destruct Hstop as [Hrem|[_ Hshort]].
      * assert (remaining = 0%nat) as -> by lia. done.
      * replace (currentPage + 1 - 1)%nat with currentPage in Hshort by lia. lia.
    + assert (100 ≤ length (p currentPage))%nat as Hlen.
      { specialize (Hfull 0%nat). rewrite Nat.add_0_r in Hfull. apply Hfull. lia. }
      destruct (length (p currentPage) =? 0)%nat eqn:Hlen0.
      { apply Nat.eqb_eq in Hlen0. lia. }
      destruct (length (p currentPage) <? 100)%nat eqn:Hlt.
      { apply Nat.ltb_lt in Hlt. lia. }
      rewrite (IH remaining (S currentPage) _ _ p).
      * by rewrite <-!app_assoc.
      * intros i Hi. replace (S currentPage + i)%nat with (currentPage + S i)%nat by lia.
        apply Hserved. lia.
      * intros i Hi. replace (S currentPage + i)%nat with (currentPage + S i)%nat by lia.
        apply Hfull. lia.
      * destruct Hstop as [Hrem|[Hle Hshort]]; [left; lia|right].
        split; [lia|].
        by replace (S currentPage + n - 1)%nat with (currentPage + S n - 1)%nat by lia.
Qed.
End PagerFacts.

Lemma pageServer_serves {A} (url : string) (headers : list (string * string))
    (pages : list (list A)) (k : nat) (page : list A) :
  list_find (λ j : nat, url +:+ "&page=" +:+ pretty k = url +:+ "&page=" +:+ pretty j)
            (seq 1 (length pages)) = Some (k - 1, k)%nat →
  pages !! (k - 1)%nat = Some page →
  serves (pageServer url pages) (pageRequest url headers k) page.
Proof.
  intros Hfind Hpage log. eexists _, _. unfold pageServer, pageRequest. simpl.
  rewrite Hfind, Hpage. simpl. done.
Qed.

(** C2, where the code differs: when the provider has three full pages of 100
    items and then a page of 40, the pager does request a fourth page: the
    request for page 4 is in the log, and this is where the last 40 items
    come from. *)
Lemma C2_fourth_page_is_requested :
  pageRequest exampleUrl [] 4
  ∈ (fetchSearchPages (pageServer exampleUrl examplePages) exampleUrl [] 10 []).2.
Proof. vm_compute. do 3 apply list_elem_of_further. apply list_elem_of_here. Qed.

(** C2, as the code has it: when the provider serves the pages asked for, the pager
    returns the concatenation, in request order, of the pages 1 to [k] and
    requests exactly these pages, where [k] is the first page with fewer than
    100 items or the ceiling, whichever comes first.  With a ceiling of 10,
    three full pages and then a page of 40 give exactly 340 items after
    exactly four requests: there is no fifth one. *)
Theorem C2_pager_concatenates_until_short :
  (∀ (A : Type) (provider : Provider (SearchData A)) (url : string)
     (headers : list (string * string)) (maxPages : nat) (p : nat → list A)
     (k : nat) (log : list Request),
     (∀ i, (1 ≤ i ≤ k)%nat → serves provider (pageRequest url headers i) (p i)) →
     (∀ i, (1 ≤ i < k)%nat → (100 ≤ length (p i))%nat) →
     (k = maxPages ∨ ((1 ≤ k ≤ maxPages)%nat ∧ (length (p k) < 100)%nat)) →
     fetchSearchPages provider url headers maxPages log =
     (inr (concat (p <$> seq 1 k)), log ++ (pageRequest url headers <$> seq 1 k)))
  ∧ (let run := fetchSearchPages (pageServer exampleUrl examplePages) exampleUrl [] 10 [] in
     run.1 = inr (concat examplePages) ∧
     length (concat examplePages) = 340%nat ∧
     run.2 = pageRequest exampleUrl [] <$> [1; 2; 3; 4]%nat).
Proof.
  split.
  - intros A provider url headers maxPages p k log Hserved Hfull Hstop.
    unfold fetchSearchPages.
    rewrite (searchLoop_run provider url headers k maxPages 1 [] log p); [done|..].
    + intros i Hi. apply Hserved. lia.
    + intros i Hi. apply Hfull. lia.
    + destruct Hstop as [?|[? Hshort]]; [by left|right].
      split; [lia|]. by replace (1 + k - 1)%nat with k by lia.
  - by vm_compute.
Qed.

(** C2 at the provider of the example. *)
Lemma C2_pager_witness :
  fetchSearchPages (pageServer exampleUrl examplePages) exampleUrl [] 10 [] =
  (inr (concat ((λ i : nat, default [] (examplePages !! (i - 1)%nat)) <$> seq 1 4)),
   [] ++ (pageRequest exampleUrl [] <$> seq 1 4)).
Proof.
  apply (proj1 C2_pager_concatenates_until_short Z
           (pageServer exampleUrl examplePages) exampleUrl [] 10%nat
           (λ i : nat, default [] (examplePages !! (i - 1)%nat)) 4%nat []).
  - intros i Hi.
    assert (i = 1 ∨ i = 2 ∨ i = 3 ∨ i = 4)%nat as [ -> | [ -> | [ -> | -> ] ] ] by lia;
      by apply pageServer_serves.
  - intros i Hi.
    assert (i = 1 ∨ i = 2 ∨ i = 3)%nat as [ -> | [ -> | -> ] ] by lia; vm_compute; lia.
  - right. split; [lia|]. vm_compute. lia.
Defined.

(** With the ceiling of 2 of the earlier variant of the service, the same
    provider is asked for two pages only. *)
Lemma pager_ceiling_of_two :
  let run := fetchSearchPages (pageServer exampleUrl examplePages) exampleUrl [] 2 [] in
  run.1 = inr (itemsFrom 0 100 ++ itemsFrom 100 100) ∧
  run.2 = pageRequest exampleUrl [] <$> [1; 2]%nat.
Proof. split; vm_compute; reflexivity. Qed.

(** ** Detail enricher *)

Section EnricherFacts.
Variable pullDetail : Provider PRDetails.
Variable headers : list (string * string).

(** [enrich] issues one request and never throws. *)
Lemma enrich_run (pr : GitHubPR.t) (log : list Request) :
  enrich pullDetail headers pr log =
  (inr (enriched pr (detailsOf (pullDetail log (detailRequest headers pr)))),
   log ++ [detailRequest headers pr]).
Proof.
  unfold enrich, try_catch, bind, fetch, detailsOf, detailRequest.
  destruct (pullDetail log _) as [msg|response]; [done|].
  destruct (ok response); [|done].
  unfold response_json. destruct (json response); done.
Qed.

Lemma mapM_enrich_run (prs : list GitHubPR.t) :
  ∀ log, ∃ out,
    mapM (enrich pullDetail headers) prs log =
      (inr out, log ++ (detailRequest headers <$> prs)) ∧
    length out = length prs ∧
    ∀ (i : nat) pr, prs !! i = Some pr →
      out !! i =
      Some (enriched pr
              (detailsOf (pullDetail (log ++ (detailRequest headers <$> take i prs))
                                     (detailRequest headers pr)))).
Proof.
  induction prs as [|pr0 prs IH]; intros log.
  - exists []. simpl. unfold ret. rewrite app_nil_r. done.
  - destruct (IH (log ++ [detailRequest headers pr0])) as (out & Hrun & Hlen & Hlookup).
    eexists (_ :: out). split; [|split].
    + simpl. unfold bind at 1. rewrite enrich_run.
      unfold bind at 1. rewrite Hrun. unfold ret.
      rewrite <-app_assoc. done.
    + simpl. by rewrite Hlen.
    + intros [|i] pr Hpr; simpl in *.
      * injection Hpr as ->. by rewrite app_nil_r.
      * rewrite (Hlookup i pr Hpr). by rewrite <-app_assoc.
Qed.

(** The whole enricher. *)
Lemma enrichPRs_run (basicPRs : list GitHubPR.t) (log : list Request) :
  ∃ out,
    enrichPRs pullDetail headers basicPRs log =
      (inr out, log ++ (detailRequest headers <$> take 20 basicPRs)) ∧
    length out = length basicPRs ∧
    ∀ (i : nat) pr, basicPRs !! i = Some pr →
      ((20 ≤ i)%nat → out !! i = Some pr) ∧
      ((i < 20)%nat →
       out !! i =
       Some (enriched pr
               (detailsOf (pullDetail (log ++ (detailRequest headers <$> take i basicPRs))
                                      (detailRequest headers pr))))).
Proof.
  destruct (mapM_enrich_run (take 20 basicPRs) log) as (out & Hrun & Hlen & Hlookup).
  exists (out ++ drop 20 basicPRs). split; [|split].
  - unfold enrichPRs, bind. rewrite Hrun. done.
  - rewrite length_app, Hlen, length_take, length_drop. lia.
  - intros i pr Hpr. split; intros Hi.
    + rewrite lookup_app_r by (rewrite Hlen, length_take; lia).
      rewrite lookup_drop, Hlen, length_take.
      apply lookup_lt_Some in Hpr as Hlt.
      replace (20 + (i - 20 `min` length basicPRs))%nat with i by lia. done.
    + assert (take 20 basicPRs !! i = Some pr) as Htake.
      { rewrite lookup_take_lt by done. done. }
      rewrite lookup_app_l by (rewrite Hlen; by eapply lookup_lt_Some).
      rewrite (Hlookup i pr Htake). rewrite take_take.
      by replace (i `min` 20)%nat with i by lia.
Qed.
End EnricherFacts.

Lemma sameBasicFields_enriched (pr : GitHubPR.t) (details : option PRDetails) :
  sameBasicFields pr (enriched pr details).
Proof. destruct details; repeat split. Qed.

(** Once the pager has returned, [fetchUserPullRequests] returns too. *)
Lemma fetchUserPullRequests_run
    (issueSearch : Provider (SearchData RawIssue.t)) (pullDetail : Provider PRDetails)
    (encodeURIComponent : string → string) (username token startDate endDate : string)
    (log log' : list Request) (items : list RawIssue.t) :
  username ≠ "" →
  fetchSearchPages issueSearch
    (GITHUB_API_BASE +:+ "/search/issues?q=" +:+
     encodeURIComponent ("author:" +:+ username +:+ " type:pr created:" +:+
                         startDate +:+ ".." +:+ endDate) +:+
     "&per_page=100&sort=created&order=desc")
    (buildHeaders "application/vnd.github.v3+json" token) 10 log
  = (inr items, log') →
  fetchUserPullRequests issueSearch pullDetail encodeURIComponent
    username token startDate endDate log
  = enrichPRs pullDetail (buildHeaders "application/vnd.github.v3+json" token)
      (basicPR <$> items) log'.
Proof.
  intros Huser Hpages. unfold fetchUserPullRequests.
  destruct (decide (username = "")); [done|].
  unfold try_catch, bind at 1. rewrite Hpages.
  destruct (enrichPRs_run pullDetail (buildHeaders "application/vnd.github.v3+json" token)
              (basicPR <$> items) log') as (out & -> & _).
  done.
Qed.

(** C6: the enricher never throws, and neither does the fetcher once the
    pager has returned; the enricher issues one detail request for each of
    the first 20 pull requests, in order, and none for the others; the item
    at a position from 20 on is the input item; the item at a position below
    20 is the input item with the details of its own answer when that answer
    is a success, and the input item itself when its request is rejected, is
    answered with a failure status, or has an unreadable body, whatever
    happens to the other items.  On 25 pull requests of which the one at
    position 5 is answered with status 500, the positions 0-4 and 6-19 carry
    the size-impact pair, and the positions 5 and 20-24 do not. *)
Theorem C6_enricher_prefix_and_degradation :
  (∀ (pullDetail : Provider PRDetails) (headers : list (string * string))
     (basicPRs : list GitHubPR.t) (log : list Request),
     ∃ out,
       enrichPRs pullDetail headers basicPRs log =
         (inr out, log ++ (detailRequest headers <$> take 20 basicPRs)) ∧
       length out = length basicPRs ∧
       ∀ (i : nat) pr, basicPRs !! i = Some pr →
         ((20 ≤ i)%nat → out !! i = Some pr) ∧
         ((i < 20)%nat →
          out !! i =
          Some (enriched pr
                  (detailsOf (pullDetail (log ++ (detailRequest headers <$> take i basicPRs))
                                         (detailRequest headers pr))))))
  ∧ (∀ (issueSearch : Provider (SearchData RawIssue.t)) (pullDetail : Provider PRDetails)
       (encodeURIComponent : string → string) (username token startDate endDate : string)
       (log log' : list Request) (items : list RawIssue.t),
       username ≠ "" →
       fetchSearchPages issueSearch
         (GITHUB_API_BASE +:+ "/search/issues?q=" +:+
          encodeURIComponent ("author:" +:+ username +:+ " type:pr created:" +:+
                              startDate +:+ ".." +:+ endDate) +:+
          "&per_page=100&sort=created&order=desc")
         (buildHeaders "application/vnd.github.v3+json" token) 10 log
       = (inr items, log') →
       ∃ out log'',
         fetchUserPullRequests issueSearch pullDetail encodeURIComponent
           username token startDate endDate log
         = (inr out, log'') ∧
         length out = length items)
  ∧ (∃ out log,
       enrichPRs exampleDetail [] examplePRs [] = (inr out, log) ∧
       length log = 20%nat ∧
       GitHubPR.id <$> out = seqZ 0 25 ∧
       GitHubPR.additions <$> out =
         replicate 5 (Some 7) ++ [None] ++ replicate 14 (Some 7) ++ replicate 5 None ∧
       GitHubPR.deletions <$> out =
         replicate 5 (Some 3) ++ [None] ++ replicate 14 (Some 3) ++ replicate 5 None).
Proof.
  split; [|split].
  - intros. apply enrichPRs_run.
  - intros issueSearch pullDetail encodeURIComponent username token startDate endDate
      log log' items Huser Hpages.
    rewrite (fetchUserPullRequests_run _ _ _ _ _ _ _ _ _ _ Huser Hpages).
    destruct (enrichPRs_run pullDetail (buildHeaders "application/vnd.github.v3+json" token)
                (basicPR <$> items) log') as (out & Hrun & Hlen & _).
    exists out. eexists. split; [done|]. by rewrite Hlen, length_fmap.
  - eexists _, _. split; [by vm_compute|]. by vm_compute.
Qed.

(** C6 at the 25 pull requests of the example: the item at position 5, whose
    detail request fails, and the item at position 20, beyond the prefix, are
    the input items. *)
Lemma C6_enricher_witness :
  ∃ out,
    enrichPRs exampleDetail [] examplePRs [] =
      (inr out, [] ++ (detailRequest [] <$> take 20 examplePRs)) ∧
    out !! 5%nat =
      Some (enriched (examplePR 5)
              (detailsOf (exampleDetail ([] ++ (detailRequest [] <$> take 5 examplePRs))
                                        (detailRequest [] (examplePR 5))))) ∧
    out !! 20%nat = Some (examplePR 20).
Proof.
  destruct (proj1 C6_enricher_prefix_and_degradation exampleDetail [] examplePRs [])
    as (out & Hrun & _ & Hlookup).
  exists out. split; [exact Hrun|]. split.
  - apply (Hlookup 5%nat (examplePR 5)); [reflexivity|lia].
  - apply (Hlookup 20%nat (examplePR 20)); [reflexivity|lia].
Defined.

(** C9: the output of the enricher has the length of its input, and the item
    at each position has the fields of the input item at that position, the
    size-impact pair apart. *)
Theorem C9_enricher_frame
  (pullDetail : Provider PRDetails) (headers : list (string * string))
  (basicPRs : list GitHubPR.t) (log : list Request) :
  ∃ out log',
    enrichPRs pullDetail headers basicPRs log = (inr out, log') ∧
    length out = length basicPRs ∧
    ∀ (i : nat) pr, basicPRs !! i = Some pr →
      ∃ pr', out !! i = Some pr' ∧ sameBasicFields pr pr'.
Proof.
  destruct (enrichPRs_run pullDetail headers basicPRs log) as (out & Hrun & Hlen & Hlookup).
  exists out, (log ++ (detailRequest headers <$> take 20 basicPRs)).
  split; [done|]. split; [done|].
  intros i pr Hpr. destruct (Hlookup i pr Hpr) as [Hrest Hprefix].
  destruct (decide (i < 20)%nat) as [Hi|Hi].
  - eexists. split; [by apply Hprefix|]. apply sameBasicFields_enriched.
  - exists pr. split; [apply Hrest; lia|]. repeat split.
Qed.

(** C9 at the 25 pull requests of the example, position 5. *)
Lemma C9_enricher_frame_witness :
  ∃ out log',
    enrichPRs exampleDetail [] examplePRs [] = (inr out, log') ∧
    ∃ pr', out !! 5%nat = Some pr' ∧ sameBasicFields (examplePR 5) pr'.
Proof.
  destruct (C9_enricher_frame exampleDetail [] examplePRs []) as (out & log' & Hrun & _ & Hframe).
  exists out, log'. split; [exact Hrun|].
  apply (Hframe 5%nat (examplePR 5)). reflexivity.
Defined.

(** ** Event fetchers *)

Lemma handleErrors_message {A} (response : HttpResponse A) (log log' : list Request)
    (e : Error) :
  handleErrors response log = (inl e, log') → message e ≠ "Username is required".
Proof.
  unfold handleErrors.
  destruct (negb (ok response)); [|done].
  repeat case_match; unfold throw; intros [= <- _]; done.
Qed.

(** C7: with an empty login, each of the two fetchers throws the error
    "Username is required" and leaves the request log as it was, whatever the
    provider, the credential and the dates: no request is issued, and the
    error is none of those that [handleErrors] makes of a provider answer. *)
Theorem C7_empty_login_fails_before_any_request :
  (∀ (issueSearch : Provider (SearchData RawIssue.t)) (pullDetail : Provider PRDetails)
     (encodeURIComponent : string → string) (token startDate endDate : string)
     (log : list Request),
     fetchUserPullRequests issueSearch pullDetail encodeURIComponent
       "" token startDate endDate log
     = (inl (mkError "Username is required"), log))
  ∧ (∀ (commitSearch : Provider (SearchData RawCommit.t))
       (encodeURIComponent : string → string) (token startDate endDate : string)
       (log : list Request),
       fetchUserCommits commitSearch encodeURIComponent "" token startDate endDate log
       = (inl (mkError "Username is required"), log))
  ∧ (∀ (A : Type) (response : HttpResponse A) (log log' : list Request) (e : Error),
       handleErrors response log = (inl e, log') →
       e ≠ mkError "Username is required").
Proof.
  split; [|split].
  - done.
  - done.
  - intros A response log log' e He ->.
    by apply (handleErrors_message response log log' _ He).
Qed.

(** C7 at an answer with status 403: the error made of it is not the input
    error. *)
Lemma C7_empty_login_witness :
  mkError "GitHub API rate limit exceeded. Please try again later."
  ≠ mkError "Username is required".
Proof.
  apply (proj2 (proj2 C7_empty_login_fails_before_any_request) unit
           (mkHttp 403 "Forbidden" (inr tt)) [] []).
  reflexivity.
Defined.

Lemma string_or_fallback (x : option string) (fallback : string) :
  x = None ∨ x = Some "" → string_or x fallback = fallback.
Proof. intros [->| ->]; done. Qed.

(** C10, where the code differs: the commit made of a raw item without a
    repository object carries the sentinel and is retained all the same when
    the repository with human URL [https://host/org/repo] is selected: the
    reconciler matches the commit's own URL, not its owning-repository URL. *)
Lemma C10_sentinel_commit_is_retained :
  GitHubCommit.repository_url (commitEvent exampleRawCommit) = "Unknown Repo" ∧
  commitEvent exampleRawCommit
  ∈ filterCommits [repoAt 1 "https://host/org/repo" "https://api.host/repos/org/repo"] {[1]}
      [commitEvent exampleRawCommit].
Proof. split; [done|]. vm_compute. apply list_elem_of_here. Qed.

(** C10, as the code has it: for a raw commit item without a repository object, or whose
    repository object has no (or an empty) human URL, the commit fetcher
    returns, without failing, the commits of the items the pager returned,
    and the owning-repository URL of such a commit is the sentinel
    "Unknown Repo".  The sentinel does not start with any URL that starts
    with "https://"; reconciliation does not read the owning-repository URL at
    all: two commits with the same human URL are retained or dropped
    together. *)
Theorem C10_missing_repository_gives_sentinel :
  (∀ item : RawCommit.t,
     RawCommit.repository item = None ∨
     RawCommit.repository item = Some (RawCommit.Repository.mk None) ∨
     RawCommit.repository item = Some (RawCommit.Repository.mk (Some "")) →
     GitHubCommit.repository_url (commitEvent item) = "Unknown Repo")
  ∧ (∀ (commitSearch : Provider (SearchData RawCommit.t))
       (encodeURIComponent : string → string) (username token startDate endDate : string)
       (log log' : list Request) (items : list RawCommit.t),
       username ≠ "" →
       fetchSearchPages commitSearch
         (GITHUB_API_BASE +:+ "/search/commits?q=" +:+
          encodeURIComponent ("author:" +:+ username +:+ " committer-date:" +:+
                              startDate +:+ ".." +:+ endDate) +:+
          "&per_page=100&sort=committer-date&order=desc")
         (buildHeaders "application/vnd.github.cloak-preview+json" token) 10 log
       = (inr items, log') →
       fetchUserCommits commitSearch encodeURIComponent username token startDate endDate log
       = (inr (commitEvent <$> items), log'))
  ∧ (∀ u : string,
       startsWith u "https://" = true → startsWith "Unknown Repo" u = false)
  ∧ (∀ (repositories : list GitHubRepo.t) (selectedRepoIds : gset Z)
       (c c' : GitHubCommit.t),
       GitHubCommit.html_url c = GitHubCommit.html_url c' →
       commitMatches repositories selectedRepoIds c ↔
       commitMatches repositories selectedRepoIds c').
Proof.
  split; [|split; [|split]].
  - intros item Hrepo. unfold commitEvent. simpl.
    apply string_or_fallback.
    destruct Hrepo as [->|[->| ->]]; simpl; auto.
  - intros commitSearch encodeURIComponent username token startDate endDate
      log log' items Huser Hpages.
    unfold fetchUserCommits. destruct (decide (username = "")); [done|].
    unfold try_catch, bind. rewrite Hpages. done.
  - intros u Hu. apply startsWith_spec in Hu as [rest ->]. done.
  - intros repositories selectedRepoIds c c' Hurl.
    unfold commitMatches. by rewrite Hurl.
Qed.

(** C10 at the raw item of the example. *)
Lemma C10_sentinel_witness :
  GitHubCommit.repository_url (commitEvent exampleRawCommit) = "Unknown Repo".
Proof.
  apply (proj1 C10_missing_repository_gives_sentinel exampleRawCommit).
  left. reflexivity.
Defined.

(** ** The calendar of the built-in [Date] *)

Lemma leap4 y : (y + 1 - 1969) / 4 = (y - 1969) / 4 + (if y mod 4 =? 0 then 1 else 0).
Proof. destruct (Z.eqb_spec (y mod 4) 0); Z.div_mod_to_equations; lia. Qed.

Lemma leap100 y :
  (y + 1 - 1901) / 100 = (y - 1901) / 100 + (if y mod 100 =? 0 then 1 else 0).
Proof. destruct (Z.eqb_spec (y mod 100) 0); Z.div_mod_to_equations; lia. Qed.

Lemma leap400 y :
  (y + 1 - 1601) / 400 = (y - 1601) / 400 + (if y mod 400 =? 0 then 1 else 0).
Proof. destruct (Z.eqb_spec (y mod 400) 0); Z.div_mod_to_equations; lia. Qed.

Lemma DayFromYear_succ y : DayFromYear (y + 1) = DayFromYear y + DaysInYear y.
Proof.
  unfold DayFromYear, DaysInYear.
  rewrite leap4, leap100, leap400.
  assert (y mod 100 = 0 → y mod 4 = 0) by (intros; Z.div_mod_to_equations; lia).
  assert (y mod 400 = 0 → y mod 100 = 0) by (intros; Z.div_mod_to_equations; lia).
  destruct (Z.eqb_spec (y mod 4) 0), (Z.eqb_spec (y mod 100) 0),
    (Z.eqb_spec (y mod 400) 0); cbn [negb]; lia.
Qed.

Lemma InLeapYear_range y : 0 ≤ InLeapYear y ≤ 1.
Proof. unfold InLeapYear. case_match; lia. Qed.

Lemma DaysInYear_leap y : DaysInYear y = 365 + InLeapYear y.
Proof.
  unfold InLeapYear. destruct (Z.eqb_spec (DaysInYear y) 366) as [->|Hne]; [done|].
  unfold DaysInYear in *. repeat case_match; lia.
Qed.

Lemma DayFromYear_next y : DayFromYear (y + 1) = DayFromYear y + 365 + InLeapYear y.
Proof. rewrite DayFromYear_succ, DaysInYear_leap. lia. Qed.

Lemma DayFromYear_lt y y' : y < y' → DayFromYear y + 365 ≤ DayFromYear y'.
Proof. unfold DayFromYear. intros. Z.div_mod_to_equations. lia. Qed.

Lemma DayFromYear_le y y' : y ≤ y' → DayFromYear y ≤ DayFromYear y'.
Proof.
  intros Hle. destruct (decide (y = y')) as [->|Hne]; [lia|].
  pose proof (DayFromYear_lt y y'). lia.
Qed.

Lemma YearFromDay_spec n :
  DayFromYear (YearFromDay n) ≤ n < DayFromYear (YearFromDay n + 1).
Proof.
  unfold YearFromDay.
  destruct (Z.ltb_spec n (DayFromYear (1970 + 400 * n / 146097))) as [Hlt|Hge].
  - replace (1970 + 400 * n / 146097 - 1 + 1) with (1970 + 400 * n / 146097) by lia.
    split; [|lia]. unfold DayFromYear in *. Z.div_mod_to_equations. lia.
  - destruct (Z.leb_spec (DayFromYear (1970 + 400 * n / 146097 + 1)) n) as [Hle|Hgt].
    + split; [lia|]. unfold DayFromYear in *. Z.div_mod_to_equations. lia.
    + lia.
Qed.

Lemma YearFromDay_unique y n :
  DayFromYear y ≤ n < DayFromYear (y + 1) → YearFromDay n = y.
Proof.
  intros Hy. pose proof (YearFromDay_spec n) as Hn.
  destruct (Z.lt_trichotomy (YearFromDay n) y) as [Hlt|[Heq|Hgt]]; [|done|].
  - pose proof (DayFromYear_le (YearFromDay n + 1) y). lia.
  - pose proof (DayFromYear_le (y + 1) (YearFromDay n)). lia.
Qed.

Lemma YearFromDay_mono n n' : n ≤ n' → YearFromDay n ≤ YearFromDay n'.
Proof.
  intros Hle. pose proof (YearFromDay_spec n). pose proof (YearFromDay_spec n').
  destruct (Z.le_gt_cases (YearFromDay n) (YearFromDay n')) as [|Hgt]; [done|].
  pose proof (DayFromYear_le (YearFromDay n' + 1) (YearFromDay n)). lia.
Qed.

Lemma DayWithinYear_range n :
  0 ≤ DayWithinYear n < 365 + InLeapYear (YearFromDay n).
Proof.
  unfold DayWithinYear. pose proof (YearFromDay_spec n) as Hn.
  rewrite DayFromYear_next in Hn. lia.
Qed.

Lemma MonthFromDay_range n : 0 ≤ MonthFromDay n ≤ 11.
Proof. unfold MonthFromDay. cbv zeta. repeat case_match; lia. Qed.

(** A day lies in the month that [MonthFromDay] names. *)
Lemma MonthFromDay_bounds n :
  let leap := InLeapYear (YearFromDay n) in
  monthStart leap (MonthFromDay n) ≤ DayWithinYear n ∧
  DayWithinYear n - monthStart leap (MonthFromDay n) < 31.
Proof.
  cbv zeta. pose proof (DayWithinYear_range n). pose proof (InLeapYear_range (YearFromDay n)).
  unfold MonthFromDay. cbv zeta.
  repeat (match goal with
          | |- context [?a <? ?b] => destruct (Z.ltb_spec a b)
          end); cbn [monthStart]; lia.
Qed.

Lemma DateFromDay_range n : 1 ≤ DateFromDay n ≤ 31.
Proof. unfold DateFromDay. pose proof (MonthFromDay_bounds n). cbv zeta in *. lia. Qed.

(** Setting the day of the month of a day's own year and month. *)
Lemma MakeDay_of_fields n date :
  MakeDay (YearFromDay n) (MonthFromDay n) date = n - DateFromDay n + date.
Proof.
  unfold MakeDay. cbv zeta. pose proof (MonthFromDay_range n).
  replace (MonthFromDay n / 12) with 0 by (Z.div_mod_to_equations; lia).
  replace (MonthFromDay n mod 12) with (MonthFromDay n) by (Z.div_mod_to_equations; lia).
  rewrite Z.add_0_r. unfold DateFromDay, DayWithinYear. lia.
Qed.

(** Case analysis on a month number; closed sums in month positions are
    evaluated so that [monthStart] reduces. *)
Ltac eval_months :=
  repeat match goal with
         | |- context [monthStart ?l (Zpos ?a + 1)] =>
             let v := eval vm_compute in (Zpos a + 1) in
             change (monthStart l (Zpos a + 1)) with (monthStart l v)
         | |- context [monthStart ?l (0 + 1)] =>
             change (monthStart l (0 + 1)) with (monthStart l 1)
         | H : context [monthStart ?l (Zpos ?a + 1)] |- _ =>
             let v := eval vm_compute in (Zpos a + 1) in
             change (monthStart l (Zpos a + 1)) with (monthStart l v) in H
         | H : context [monthStart ?l (0 + 1)] |- _ =>
             change (monthStart l (0 + 1)) with (monthStart l 1) in H
         end;
  cbn [monthStart] in *.

Ltac month_cases m :=
  let Hcases := fresh "Hcases" in
  assert (m = 0 ∨ m = 1 ∨ m = 2 ∨ m = 3 ∨ m = 4 ∨ m = 5 ∨ m = 6 ∨ m = 7 ∨ m = 8
          ∨ m = 9 ∨ m = 10 ∨ m = 11) as Hcases by lia;
  repeat (destruct Hcases as [Hcases|Hcases]; [subst m; eval_months|]);
  [..|subst m; eval_months].

Lemma monthStart_range leap m :
  0 ≤ leap ≤ 1 → 0 ≤ m ≤ 11 → 0 ≤ monthStart leap m ≤ 334 + leap.
Proof. intros Hleap Hm. month_cases m; lia. Qed.

Lemma monthStart_succ leap m :
  0 ≤ leap ≤ 1 → 0 ≤ m < 11 → 28 ≤ monthStart leap (m + 1) - monthStart leap m ≤ 31.
Proof. intros Hleap Hm. month_cases m; lia. Qed.

Ltac split_ltb :=
  repeat match goal with
         | |- context [?a <? ?b] => destruct (Z.ltb_spec a b)
         end.

Lemma MonthFromDay_unique y m n :
  0 ≤ m ≤ 11 → YearFromDay n = y →
  monthStart (InLeapYear y) m ≤ DayWithinYear n →
  (m < 11 → DayWithinYear n < monthStart (InLeapYear y) (m + 1)) →
  MonthFromDay n = m.
Proof.
  intros Hm Hy Hlo Hhi. pose proof (InLeapYear_range y). pose proof (DayWithinYear_range n).
  unfold MonthFromDay. cbv zeta. rewrite Hy.
  month_cases m; split_ltb; lia.
Qed.

(** The calendar on some days that are known. *)
Example calendar_known_days :
  DayFromYear 1970 = 0 ∧
  isoDate 0 = "1970-01-01" ∧
  isoDate (-1) = "1969-12-31" ∧
  isoDate 19782 = "2024-02-29" ∧
  isoDate 19783 = "2024-03-01" ∧
  isoDate 11016 = "2000-02-29" ∧
  isoDate (-25508) = "1900-03-01" ∧
  toISOString (Some 1709296496789) = inr "2024-03-01T12:34:56.789Z" ∧
  isoParse "2024-03-01T12:34:56Z" = Some 1709296496000.
Proof. repeat split; vm_compute; reflexivity. Qed.

(** *** First days of months *)

Lemma MakeDay_first y m : MakeDay y m 1 = firstOfMonth (12 * y + m).
Proof.
  unfold MakeDay, firstOfMonth. cbv zeta.
  replace ((12 * y + m) / 12) with (y + m / 12) by (Z.div_mod_to_equations; lia).
  replace ((12 * y + m) mod 12) with (m mod 12) by (Z.div_mod_to_equations; lia).
  lia.
Qed.

Lemma firstOfMonth_in_year i :
  DayFromYear (i / 12) ≤ firstOfMonth i < DayFromYear (i / 12 + 1).
Proof.
  unfold firstOfMonth. rewrite DayFromYear_next.
  pose proof (InLeapYear_range (i / 12)).
  pose proof (monthStart_range (InLeapYear (i / 12)) (i mod 12)).
  assert (0 ≤ i mod 12 ≤ 11) by (Z.div_mod_to_equations; lia). lia.
Qed.

Lemma YearFromDay_firstOfMonth i : YearFromDay (firstOfMonth i) = i / 12.
Proof. apply YearFromDay_unique, firstOfMonth_in_year. Qed.

Lemma MonthFromDay_firstOfMonth i : MonthFromDay (firstOfMonth i) = i mod 12.
Proof.
  assert (0 ≤ i mod 12 ≤ 11) as Hm by (Z.div_mod_to_equations; lia).
  pose proof (InLeapYear_range (i / 12)) as Hleap.
  apply (MonthFromDay_unique (i / 12)); [done|apply YearFromDay_firstOfMonth|..].
  - unfold DayWithinYear. rewrite YearFromDay_firstOfMonth. unfold firstOfMonth. lia.
  - intros Hlt. unfold DayWithinYear. rewrite YearFromDay_firstOfMonth. unfold firstOfMonth.
    pose proof (monthStart_succ (InLeapYear (i / 12)) (i mod 12)). lia.
Qed.

Lemma DateFromDay_firstOfMonth i : DateFromDay (firstOfMonth i) = 1.
Proof.
  unfold DateFromDay, DayWithinYear.
  rewrite MonthFromDay_firstOfMonth, YearFromDay_firstOfMonth.
  unfold firstOfMonth. lia.
Qed.

Lemma monthIndex_firstOfMonth i : monthIndex (firstOfMonth i) = i.
Proof.
  unfold monthIndex. rewrite YearFromDay_firstOfMonth, MonthFromDay_firstOfMonth.
  Z.div_mod_to_equations. lia.
Qed.

(** The first day of the month a day lies in. *)
Lemma firstOfMonth_monthIndex n : firstOfMonth (monthIndex n) = n - DateFromDay n + 1.
Proof. unfold monthIndex. rewrite <-MakeDay_first. apply MakeDay_of_fields. Qed.

Lemma firstOfMonth_succ i : firstOfMonth i + 28 ≤ firstOfMonth (i + 1) ≤ firstOfMonth i + 31.
Proof.
  unfold firstOfMonth.
  assert (0 ≤ i mod 12 ≤ 11) as Hm by (Z.div_mod_to_equations; lia).
  pose proof (InLeapYear_range (i / 12)) as Hleap.
  destruct (decide (i mod 12 = 11)) as [H11|Hne].
  - replace ((i + 1) / 12) with (i / 12 + 1) by (Z.div_mod_to_equations; lia).
    replace ((i + 1) mod 12) with 0 by (Z.div_mod_to_equations; lia).
    rewrite DayFromYear_next, H11. cbn [monthStart]. lia.
  - replace ((i + 1) / 12) with (i / 12) by (Z.div_mod_to_equations; lia).
    replace ((i + 1) mod 12) with (i mod 12 + 1) by (Z.div_mod_to_equations; lia).
    pose proof (monthStart_succ (InLeapYear (i / 12)) (i mod 12)). lia.
Qed.

Lemma firstOfMonth_lt_nat (k : nat) i : firstOfMonth i < firstOfMonth (i + 1 + Z.of_nat k).
Proof.
  induction k as [|k IH].
  - rewrite Z.add_0_r. pose proof (firstOfMonth_succ i). lia.
  - pose proof (firstOfMonth_succ (i + 1 + Z.of_nat k)).
    replace (i + 1 + Z.of_nat (S k)) with (i + 1 + Z.of_nat k + 1) by lia. lia.
Qed.

Lemma firstOfMonth_lt i j : i < j → firstOfMonth i < firstOfMonth j.
Proof.
  intros Hlt. replace j with (i + 1 + Z.of_nat (Z.to_nat (j - i - 1))) by lia.
  apply firstOfMonth_lt_nat.
Qed.

Lemma firstOfMonth_le_iff i j : firstOfMonth i ≤ firstOfMonth j ↔ i ≤ j.
Proof.
  split; intros Hle.
  - destruct (Z.le_gt_cases i j) as [|Hgt]; [done|].
    pose proof (firstOfMonth_lt j i). lia.
  - destruct (decide (i = j)) as [->|Hne]; [lia|].
    pose proof (firstOfMonth_lt i j). lia.
Qed.

Lemma MonthFromDay_upper n :
  MonthFromDay n < 11 →
  DayWithinYear n < monthStart (InLeapYear (YearFromDay n)) (MonthFromDay n + 1).
Proof.
  unfold MonthFromDay. cbv zeta. split_ltb; intros Hlt; eval_months; lia.
Qed.

(** A day lies before the first day of the next month. *)
Lemma day_before_next_month n : n < firstOfMonth (monthIndex n + 1).
Proof.
  pose proof (MonthFromDay_range n) as Hm. pose proof (YearFromDay_spec n) as Hy.
  unfold firstOfMonth, monthIndex.
  destruct (decide (MonthFromDay n = 11)) as [H11|Hne].
  - replace ((12 * YearFromDay n + MonthFromDay n + 1) / 12) with (YearFromDay n + 1)
      by (Z.div_mod_to_equations; lia).
    replace ((12 * YearFromDay n + MonthFromDay n + 1) mod 12) with 0
      by (Z.div_mod_to_equations; lia).
    cbn [monthStart]. lia.
  - replace ((12 * YearFromDay n + MonthFromDay n + 1) / 12) with (YearFromDay n)
      by (Z.div_mod_to_equations; lia).
    replace ((12 * YearFromDay n + MonthFromDay n + 1) mod 12) with (MonthFromDay n + 1)
      by (Z.div_mod_to_equations; lia).
    pose proof (MonthFromDay_upper n). unfold DayWithinYear in *. lia.
Qed.

Lemma day_in_month n :
  firstOfMonth (monthIndex n) ≤ n < firstOfMonth (monthIndex n + 1).
Proof.
  split; [|apply day_before_next_month].
  rewrite firstOfMonth_monthIndex. pose proof (DateFromDay_range n). lia.
Qed.

Lemma monthIndex_unique i n :
  firstOfMonth i ≤ n < firstOfMonth (i + 1) → monthIndex n = i.
Proof.
  intros Hi. pose proof (day_in_month n) as Hn.
  destruct (Z.lt_trichotomy (monthIndex n) i) as [Hlt|[Heq|Hgt]]; [|done|].
  - assert (firstOfMonth (monthIndex n + 1) ≤ firstOfMonth i)
      by (apply firstOfMonth_le_iff; lia). lia.
  - assert (firstOfMonth (i + 1) ≤ firstOfMonth (monthIndex n))
      by (apply firstOfMonth_le_iff; lia). lia.
Qed.

Lemma monthIndex_mono n n' : n ≤ n' → monthIndex n ≤ monthIndex n'.
Proof.
  intros Hle. pose proof (day_in_month n). pose proof (day_in_month n').
  destruct (Z.le_gt_cases (monthIndex n) (monthIndex n')) as [|Hgt]; [done|].
  assert (firstOfMonth (monthIndex n' + 1) ≤ firstOfMonth (monthIndex n))
    by (apply firstOfMonth_le_iff; lia). lia.
Qed.

(** ** Keys *)

Lemma digitChar_cases x :
  digitChar x ∈ ["0"; "1"; "2"; "3"; "4"; "5"; "6"; "7"; "8"; "9"]%char.
Proof. unfold digitChar. repeat case_match; repeat constructor. Qed.

Lemma digitChar_inj x y :
  0 ≤ x ≤ 9 → 0 ≤ y ≤ 9 → digitChar x = digitChar y → x = y.
Proof.
  intros Hx Hy.
  assert (x = 0 ∨ x = 1 ∨ x = 2 ∨ x = 3 ∨ x = 4 ∨ x = 5 ∨ x = 6 ∨ x = 7 ∨ x = 8 ∨ x = 9)
    as Hxs by lia.
  assert (y = 0 ∨ y = 1 ∨ y = 2 ∨ y = 3 ∨ y = 4 ∨ y = 5 ∨ y = 6 ∨ y = 7 ∨ y = 8 ∨ y = 9)
    as Hys by lia.
  destruct Hxs as [->|[->|[->|[->|[->|[->|[->|[->|[->| ->]]]]]]]]];
    destruct Hys as [->|[->|[->|[->|[->|[->|[->|[->|[->| ->]]]]]]]]];
    cbn [digitChar]; congruence.
Qed.

Lemma digits_lacks_T (w : nat) x : lacks "T" (digits w x).
Proof.
  induction w as [|w IH]; [done|]. cbn [digits lacks]. split; [|done].
  pose proof (digitChar_cases ((x / 10 ^ Z.of_nat w) mod 10)) as Hc.
  intros Heq. rewrite Heq in Hc.
  repeat (apply elem_of_cons in Hc as [Hc|Hc]; [discriminate|]).
  by apply elem_of_nil in Hc.
Qed.

Lemma digits_mod (w : nat) x y :
  digits w x = digits w y → x mod 10 ^ Z.of_nat w = y mod 10 ^ Z.of_nat w.
Proof.
  induction w as [|w IH]; intros Heq.
  - change (10 ^ Z.of_nat 0) with 1. by rewrite !Z.mod_1_r.
  - cbn [digits] in Heq. injection Heq as Hhead Htail.
    apply digitChar_inj in Hhead; [|Z.div_mod_to_equations; lia..].
    specialize (IH Htail).
    assert (0 < 10 ^ Z.of_nat w) as Hpos by (apply Z.pow_pos_nonneg; lia).
    replace (10 ^ Z.of_nat (S w)) with (10 ^ Z.of_nat w * 10)
      by (rewrite Nat2Z.inj_succ, Z.pow_succ_r by lia; lia).
    rewrite !Z.rem_mul_r by lia. lia.
Qed.

Lemma digits_inj (w : nat) x y :
  0 ≤ x < 10 ^ Z.of_nat w → 0 ≤ y < 10 ^ Z.of_nat w → digits w x = digits w y → x = y.
Proof.
  intros Hx Hy Heq. apply digits_mod in Heq.
  by rewrite !Z.mod_small in Heq.
Qed.

Lemma string_length_append (s t : string) :
  String.length (s +:+ t) = (String.length s + String.length t)%nat.
Proof. induction s as [|a s IH]; [done|]. rewrite append_cons. simpl. by rewrite IH. Qed.

Lemma append_inj_suffix (s1 s2 t1 t2 : string) :
  String.length t1 = String.length t2 → s1 +:+ t1 = s2 +:+ t2 → s1 = s2 ∧ t1 = t2.
Proof.
  intros Hlen. revert s2.
  induction s1 as [|a s1 IH]; intros [|b s2] Heq.
  - done.
  - apply (f_equal String.length) in Heq.
    rewrite !string_length_append in Heq. simpl in Heq. lia.
  - apply (f_equal String.length) in Heq.
    rewrite !string_length_append in Heq. simpl in Heq. lia.
  - rewrite !append_cons in Heq. injection Heq as -> Heq.
    destruct (IH s2 Heq) as [-> ->]. done.
Qed.

Lemma lacks_append (sep : ascii) (s t : string) :
  lacks sep s → lacks sep t → lacks sep (s +:+ t).
Proof.
  induction s as [|a s IH]; [done|]. rewrite append_cons. cbn [lacks].
  intros [Ha Hs] Ht. split; [done|]. by apply IH.
Qed.

Lemma split_head_append (sep : ascii) (s rest : string) :
  lacks sep s → split_head sep (s +:+ String sep rest) = s.
Proof.
  induction s as [|a s IH]; intros Hs.
  - change ("" +:+ String sep rest) with (String sep rest). cbn [split_head].
    by destruct (decide (sep = sep)).
  - rewrite append_cons. cbn [split_head lacks] in *. destruct Hs as [Ha Hs].
    destruct (decide (a = sep)); [done|]. by rewrite IH.
Qed.

(** *** Day keys *)

Lemma isoDate_four_digits n :
  fourDigitYear n →
  isoDate n = digits 4 (YearFromDay n) +:+ "-" +:+ digits 2 (MonthFromDay n + 1) +:+ "-" +:+
              digits 2 (DateFromDay n).
Proof.
  intros [Hlo Hhi]. unfold isoDate, isoYear.
  destruct (Z.leb_spec 0 (YearFromDay n)); [|lia].
  destruct (Z.leb_spec (YearFromDay n) 9999); [|lia]. done.
Qed.

Lemma isoDate_lacks_T n : fourDigitYear n → lacks "T" (isoDate n).
Proof.
  intros Hn. rewrite isoDate_four_digits by done.
  repeat (apply lacks_append; [apply digits_lacks_T || (cbn [lacks]; done)|]).
  apply digits_lacks_T.
Qed.

Lemma day_of_fields n : n = MakeDay (YearFromDay n) (MonthFromDay n) (DateFromDay n).
Proof. rewrite MakeDay_of_fields. lia. Qed.

Lemma isoDate_inj n n' :
  fourDigitYear n → fourDigitYear n' → isoDate n = isoDate n' → n = n'.
Proof.
  intros Hn Hn' Heq. rewrite !isoDate_four_digits in Heq by done.
  destruct Hn as [? ?], Hn' as [? ?].
  pose proof (MonthFromDay_range n). pose proof (MonthFromDay_range n').
  pose proof (DateFromDay_range n). pose proof (DateFromDay_range n').
  apply append_inj_suffix in Heq as [Hy Heq]; [|done].
  apply append_inj_suffix in Heq as [_ Heq]; [|done].
  apply append_inj_suffix in Heq as [Hm Heq]; [|done].
  apply append_inj_suffix in Heq as [_ Hd]; [|done].
  apply digits_inj in Hy; [|change (10 ^ Z.of_nat 4) with 10000; lia..].
  apply digits_inj in Hm; [|change (10 ^ Z.of_nat 2) with 100; lia..].
  apply digits_inj in Hd; [|change (10 ^ Z.of_nat 2) with 100; lia..].
  rewrite (day_of_fields n), (day_of_fields n').
  rewrite Hy, Hd. replace (MonthFromDay n) with (MonthFromDay n') by lia. done.
Qed.

(** *** Month keys *)

Lemma padStart_month m :
  0 ≤ m ≤ 11 → padStart (pretty (m + 1)) 2 "0" = digits 2 (m + 1).
Proof.
  intros Hm.
  assert (m = 0 ∨ m = 1 ∨ m = 2 ∨ m = 3 ∨ m = 4 ∨ m = 5 ∨ m = 6 ∨ m = 7 ∨ m = 8
          ∨ m = 9 ∨ m = 10 ∨ m = 11) as Hcases by lia.
  destruct Hcases as [->|[->|[->|[->|[->|[->|[->|[->|[->|[->|[->| ->]]]]]]]]]]];
    by vm_compute.
Qed.

Lemma monthKeyOf_inj i i' : monthKeyOf i = monthKeyOf i' → i = i'.
Proof.
  unfold monthKeyOf. intros Heq.
  assert (0 ≤ i mod 12 ≤ 11) by (Z.div_mod_to_equations; lia).
  assert (0 ≤ i' mod 12 ≤ 11) by (Z.div_mod_to_equations; lia).
  rewrite !padStart_month in Heq by done.
  apply append_inj_suffix in Heq as [Hy Heq]; [|done].
  apply (inj pretty) in Hy.
  apply append_inj_suffix in Heq as [_ Hm]; [|done].
  apply digits_inj in Hm; [|change (10 ^ Z.of_nat 2) with 100; lia..].
  Z.div_mod_to_equations. lia.
Qed.

(** ** Sorting by timestamp *)

Lemma insertByTimestamp_perm x l : insertByTimestamp x l ≡ₚ x :: l.
Proof.
  induction l as [|y l IH]; [done|]. cbn [insertByTimestamp].
  destruct (decide (timestamp_le x y)); [done|].
  rewrite IH. apply Permutation_swap.
Qed.

Lemma sortByTimestamp_perm l : sortByTimestamp l ≡ₚ l.
Proof.
  induction l as [|x l IH]; [done|].
  unfold sortByTimestamp in *. cbn [foldr]. rewrite insertByTimestamp_perm. by f_equiv.
Qed.

Lemma insertByTimestamp_HdRel a x l :
  timestamp_le a x → HdRel timestamp_le a l → HdRel timestamp_le a (insertByTimestamp x l).
Proof.
  intros Hax Hal. destruct l as [|y l]; cbn [insertByTimestamp].
  - by constructor.
  - destruct (decide (timestamp_le x y)); constructor; [done|].
    by inversion Hal.
Qed.

Lemma insertByTimestamp_sorted x l :
  Sorted timestamp_le l → Sorted timestamp_le (insertByTimestamp x l).
Proof.
  induction 1 as [|y l Hsorted IH Hhd]; cbn [insertByTimestamp].
  - repeat constructor.
  - destruct (decide (timestamp_le x y)) as [Hle|Hgt].
    + constructor; [by constructor|by constructor].
    + constructor; [done|]. apply insertByTimestamp_HdRel; [|done].
      unfold timestamp_le in *. lia.
Qed.

Lemma sortByTimestamp_sorted l : Sorted timestamp_le (sortByTimestamp l).
Proof.
  induction l as [|x l IH]; [constructor|].
  unfold sortByTimestamp in *. cbn [foldr]. by apply insertByTimestamp_sorted.
Qed.

(** A sequence that is in order already is left as it is. *)
Lemma sortByTimestamp_id l : Sorted timestamp_le l → sortByTimestamp l = l.
Proof.
  induction 1 as [|x l Hsorted IH Hhd]; [done|].
  unfold sortByTimestamp in *. cbn [foldr]. rewrite IH.
  destruct Hhd as [|y l Hxy]; [done|]. cbn [insertByTimestamp].
  by destruct (decide (timestamp_le x y)).
Qed.

(** ** The map of buckets *)

Lemma Map_set_fresh (m : DataMap) (k : string) (v : ChartData) :
  k ∉ m.*1 → Map_set m k v = m ++ [(k, v)].
Proof.
  induction m as [|[k' v'] m IH]; [done|]. cbn [Map_set fmap list_fmap fst].
  intros Hfresh. apply not_elem_of_cons in Hfresh as [Hne Hfresh].
  destruct (decide (k' = k)); [congruence|]. by rewrite IH.
Qed.

Lemma Map_set_empty (m : DataMap) (k : string) (v : ChartData) :
  emptyBucket v → Forall emptyBucket (Map_values m) →
  Forall emptyBucket (Map_values (Map_set m k v)).
Proof.
  intros Hv. unfold Map_values.
  induction m as [|[k' v'] m IH]; simpl; intros Hm.
  - constructor; [done|constructor].
  - apply Forall_cons in Hm as [Hv' Hm].
    destruct (decide (k' = k)); simpl; constructor; auto.
Qed.

(** ** Time values *)

Lemma Day_MakeDate d time : 0 ≤ time < msPerDay → Day (MakeDate d time) = d.
Proof. unfold Day, MakeDate, msPerDay. intros. Z.div_mod_to_equations. lia. Qed.

Lemma TimeWithinDay_MakeDate d time :
  0 ≤ time < msPerDay → TimeWithinDay (MakeDate d time) = time.
Proof. unfold TimeWithinDay, MakeDate, msPerDay. intros. Z.div_mod_to_equations. lia. Qed.

Lemma MakeDate_Day t : MakeDate (Day t) (TimeWithinDay t) = t.
Proof. unfold Day, TimeWithinDay, MakeDate, msPerDay. Z.div_mod_to_equations. lia. Qed.

Lemma TimeWithinDay_range t : 0 ≤ TimeWithinDay t < msPerDay.
Proof. unfold TimeWithinDay, msPerDay. Z.div_mod_to_equations. lia. Qed.

Lemma TimeClip_small t : Z.abs t ≤ 8640000000000000 → TimeClip t = Some t.
Proof. unfold TimeClip. intros Ht. destruct (Z.leb_spec (Z.abs t) 8640000000000000); [done|lia]. Qed.

Lemma fourDigitYear_bounds n : fourDigitYear n → -719528 ≤ n < 2932897.
Proof.
  intros [Hlo Hhi]. pose proof (YearFromDay_spec n) as Hn.
  pose proof (DayFromYear_le 0 (YearFromDay n) Hlo) as H0.
  pose proof (DayFromYear_le (YearFromDay n + 1) 10000) as H1.
  change (DayFromYear 0) with (-719528) in H0.
  change (DayFromYear 10000) with 2932897 in H1. lia.
Qed.

Lemma fourDigitYear_between sd ed n :
  fourDigitYear sd → fourDigitYear ed → sd ≤ n ≤ ed → fourDigitYear n.
Proof.
  unfold fourDigitYear. intros Hsd Hed Hn.
  pose proof (YearFromDay_mono sd n). pose proof (YearFromDay_mono n ed). lia.
Qed.

(** ** Timeline aggregator *)

Section DateFacts.
Variable LocalTZA : Z.

Lemma setDate_succ (t : Z) :
  setDate LocalTZA (Some t) ((λ d, d + 1) <$> getDate LocalTZA (Some t))
  = TimeClip (t + msPerDay).
Proof.
  unfold setDate, getDate, LocalTime, UTC. simpl. f_equal.
  rewrite MakeDay_of_fields.
  pose proof (MakeDate_Day (t + LocalTZA)) as Hsplit.
  unfold MakeDate in *. lia.
Qed.

Lemma setDate_first (t : Z) :
  setDate LocalTZA (Some t) (Some 1)
  = TimeClip (firstOfMonth (monthIndex (Day (t + LocalTZA))) * msPerDay
              + TimeWithinDay (t + LocalTZA) - LocalTZA).
Proof.
  unfold setDate, LocalTime, UTC. simpl. f_equal.
  rewrite MakeDay_first. unfold MakeDate, monthIndex. lia.
Qed.

Lemma setMonth_succ (t i : Z) :
  Day (t + LocalTZA) = firstOfMonth i →
  setMonth LocalTZA (Some t) ((λ m, m + 1) <$> getMonth LocalTZA (Some t))
  = TimeClip (firstOfMonth (i + 1) * msPerDay + TimeWithinDay (t + LocalTZA) - LocalTZA).
Proof.
  intros Hday. unfold setMonth, getMonth, LocalTime, UTC. simpl. f_equal.
  rewrite Hday, YearFromDay_firstOfMonth, MonthFromDay_firstOfMonth, DateFromDay_firstOfMonth.
  rewrite MakeDay_first.
  replace (12 * (i / 12) + (i mod 12 + 1)) with (i + 1) by (Z.div_mod_to_equations; lia).
  unfold MakeDate. lia.
Qed.

Lemma monthKey_first (t i : Z) :
  Day (t + LocalTZA) = firstOfMonth i → monthKey LocalTZA t = monthKeyOf i.
Proof.
  intros Hday. unfold monthKey, monthKeyOf, LocalTime.
  by rewrite Hday, YearFromDay_firstOfMonth, MonthFromDay_firstOfMonth.
Qed.

Lemma dayKey_returns (t : Z) : ∃ k, dayKey (Some t) = inr k.
Proof. unfold dayKey, toISOString. eauto. Qed.

Lemma dayKey_four_digits (t : Z) :
  fourDigitYear (Day t) → dayKey (Some t) = inr (isoDate (Day t)).
Proof.
  intros Hyear. unfold dayKey, toISOString. f_equal.
  change ("T" +:+ isoTime (TimeWithinDay t) +:+ "Z")
    with (String "T" (isoTime (TimeWithinDay t) +:+ "Z")).
  apply split_head_append. by apply isoDate_lacks_T.
Qed.

(** The loop condition between two first days of months at the same time of
    day compares the indices of the months. *)
Lemma loopCondition_months (shift i j : Z) :
  0 ≤ shift + LocalTZA < msPerDay →
  loopCondition LocalTZA true (Some (firstOfMonth i * msPerDay + shift))
                (Some (firstOfMonth j * msPerDay + shift))
  = (i <=? j).
Proof.
  intros Hshift. unfold loopCondition, Date_le, getMonth, getFullYear, Number_eq, LocalTime.
  simpl.
  assert (∀ x, Day (firstOfMonth x * msPerDay + shift + LocalTZA) = firstOfMonth x) as Hday.
  { intros x. trans (Day (MakeDate (firstOfMonth x) (shift + LocalTZA))).
    - unfold MakeDate. f_equal. lia.
    - by apply Day_MakeDate. }
  rewrite !Hday, !YearFromDay_firstOfMonth, !MonthFromDay_firstOfMonth.
  destruct (Z.leb_spec i j) as [Hle|Hgt].
  - apply firstOfMonth_le_iff in Hle.
    destruct (Z.leb_spec (firstOfMonth i * msPerDay + shift)
                (firstOfMonth j * msPerDay + shift)) as [|Hlt]; [done|].
    unfold msPerDay in *. lia.
  - apply firstOfMonth_lt in Hgt.
    destruct (Z.leb_spec (firstOfMonth i * msPerDay + shift)
                (firstOfMonth j * msPerDay + shift)) as [Hle|_].
    { unfold msPerDay in *. lia. }
    simpl.
    destruct (Z.eqb_spec (i mod 12) (j mod 12)) as [Hm|]; [|done].
    destruct (Z.eqb_spec (i / 12) (j / 12)) as [Hy|]; [|done].
    assert (i = j) as -> by (Z.div_mod_to_equations; lia). lia.
Qed.
End DateFacts.

Lemma seqZ_S (n : Z) (k : nat) :
  seqZ n (Z.of_nat (S k)) = n :: seqZ (n + 1) (Z.of_nat k).
Proof. rewrite seqZ_cons by lia. f_equal. f_equal; lia. Qed.

Section LoopFacts.
Variable LocalTZA : Z.
Variable toLocaleDateString : Z → LabelOptions → string.

(** The loop ends, with a value, within the steps the model allows it, and
    creates empty buckets only. *)
Lemma fillBuckets_returns (fuel : nat) :
  ∀ (isMonthly : bool) (endTarget current : Date) (loops : Z) (dataMap : DataMap),
    (1 ≤ fuel)%nat → 1002 - loops ≤ Z.of_nat fuel →
    ∃ dataMap',
      fillBuckets LocalTZA toLocaleDateString fuel isMonthly endTarget current loops dataMap
      = Returns dataMap' ∧
      (Forall emptyBucket (Map_values dataMap) → Forall emptyBucket (Map_values dataMap')).
Proof.
  induction fuel as [|fuel IH]; intros isMonthly endTarget current loops dataMap Hfuel Hloops;
    [lia|].
  cbn [fillBuckets].
  destruct (loopCondition LocalTZA isMonthly current endTarget); [|by eauto].
  destruct (Z.ltb_spec 1000 loops) as [Hbreak|Hgo]; [by eauto|].
  destruct current as [t|]; [|by eauto].
  assert (∃ k, (if isMonthly then inr (monthKey LocalTZA t) else dayKey (Some t))
               = inr k) as [k ->].
  { destruct isMonthly; [by eauto|]. apply dayKey_returns. }
  edestruct (IH isMonthly endTarget) as (dataMap' & -> & Hempty); [lia|lia|].
  eexists. split; [done|]. intros Hm. apply Hempty.
  apply Map_set_empty; [done|done].
Qed.

(** Daily mode between two midnights UTC. *)
Lemma fillBuckets_daily (ed : Z) (k : nat) :
  ∀ (fuel : nat) (n loops : Z) (dataMap : DataMap),
    (k < fuel)%nat → 0 ≤ loops → loops + Z.of_nat k ≤ 1001 →
    n + Z.of_nat k = Z.max (ed + 1) n →
    fourDigitYear ed →
    (∀ x, n ≤ x ≤ ed → fourDigitYear x) →
    (∀ x, n ≤ x ≤ ed → isoDate x ∉ dataMap.*1) →
    fillBuckets LocalTZA toLocaleDateString fuel false (Some (ed * msPerDay))
                (Some (n * msPerDay)) loops dataMap
    = Returns (dataMap ++ (dayBucket toLocaleDateString <$> seqZ n (Z.of_nat k))).
Proof.
  induction k as [|k IH]; intros fuel n loops dataMap Hfuel Hloops Hcap Hk Hed Hyears Hfresh.
  - destruct fuel as [|fuel]; [lia|]. cbn [fillBuckets].
    unfold loopCondition, Date_le. cbn [orb andb].
    destruct (Z.leb_spec (n * msPerDay) (ed * msPerDay)) as [Hle|_].
    { unfold msPerDay in Hle. lia. }
    change (seqZ n (Z.of_nat 0)) with (@nil Z). by rewrite app_nil_r.
  - destruct fuel as [|fuel]; [lia|]. cbn [fillBuckets].
    assert (n ≤ ed) as Hn by lia.
    unfold loopCondition, Date_le. cbn [orb andb].
    destruct (Z.leb_spec (n * msPerDay) (ed * msPerDay)) as [_|Hgt]; last first.
    { unfold msPerDay in Hgt. lia. }
    destruct (Z.ltb_spec 1000 loops) as [Hbreak|_]; [lia|].
    assert (Day (n * msPerDay) = n) as Hday.
    { unfold Day, msPerDay. Z.div_mod_to_equations. lia. }
    rewrite dayKey_four_digits by (rewrite Hday; apply Hyears; lia).
    rewrite Hday, setDate_succ.
    pose proof (fourDigitYear_bounds ed Hed) as Hbed.
    pose proof (fourDigitYear_bounds n (Hyears n ltac:(lia))) as Hbn.
    rewrite TimeClip_small by (unfold msPerDay; lia).
    rewrite Map_set_fresh by (apply Hfresh; lia).
    replace (n * msPerDay + msPerDay) with ((n + 1) * msPerDay) by lia.
    rewrite (IH fuel (n + 1)); [| lia | lia | lia | lia | done | | ].
    + rewrite <-app_assoc, seqZ_S. done.
    + intros x Hx. apply Hyears. lia.
    + intros x Hx. rewrite fmap_app. apply not_elem_of_app. split.
      * apply Hfresh. lia.
      * cbn [fmap list_fmap fst]. apply not_elem_of_cons. split; [|apply not_elem_of_nil].
        intros Heq. apply isoDate_inj in Heq; [lia|apply Hyears; lia..].
Qed.

(** Monthly mode between two first days of months at the same time of day.
    The loop stops after the month of the end, or when the counter of the
    safety brake has gone beyond 1000. *)
Lemma fillBuckets_monthly (shift j : Z) (k : nat) :
  ∀ (fuel : nat) (i loops : Z) (dataMap : DataMap),
    0 ≤ shift + LocalTZA < msPerDay →
    (k < fuel)%nat → 0 ≤ loops →
    (i + Z.of_nat k = Z.max (j + 1) i ∧ loops + Z.of_nat k ≤ 1001) ∨
    (i + Z.of_nat k ≤ j + 1 ∧ loops + Z.of_nat k = 1001) →
    (∀ x, i ≤ x ≤ j + 1 →
          TimeClip (firstOfMonth x * msPerDay + shift)
          = Some (firstOfMonth x * msPerDay + shift)) →
    (∀ x, i ≤ x < i + Z.of_nat k → monthKeyOf x ∉ dataMap.*1) →
    fillBuckets LocalTZA toLocaleDateString fuel true
                (Some (firstOfMonth j * msPerDay + shift))
                (Some (firstOfMonth i * msPerDay + shift)) loops dataMap
    = Returns (dataMap ++ (monthBucket toLocaleDateString shift <$> seqZ i (Z.of_nat k))).
Proof.
  induction k as [|k IH]; intros fuel i loops dataMap Hshift Hfuel Hloops Hk Hclip Hfresh.
  - destruct fuel as [|fuel]; [lia|]. cbn [fillBuckets].
    rewrite loopCondition_months by done.
    change (seqZ i (Z.of_nat 0)) with (@nil Z). rewrite app_nil_r.
    destruct (Z.leb_spec i j) as [Hle|Hgt]; [|done].
    destruct (Z.ltb_spec 1000 loops) as [Hbreak|Hgo]; [done|lia].
  - destruct fuel as [|fuel]; [lia|]. cbn [fillBuckets].
    rewrite loopCondition_months by done.
    assert (i ≤ j) as Hi by lia.
    destruct (Z.leb_spec i j) as [_|Hgt]; [|lia].
    destruct (Z.ltb_spec 1000 loops) as [Hbreak|_]; [lia|].
    assert (Day (firstOfMonth i * msPerDay + shift + LocalTZA) = firstOfMonth i) as Hday.
    { trans (Day (MakeDate (firstOfMonth i) (shift + LocalTZA))).
      - unfold MakeDate. f_equal. lia.
      - by apply Day_MakeDate. }
    assert (TimeWithinDay (firstOfMonth i * msPerDay + shift + LocalTZA) = shift + LocalTZA)
      as Htime.
    { trans (TimeWithinDay (MakeDate (firstOfMonth i) (shift + LocalTZA))).
      - unfold MakeDate. f_equal. lia.
      - by apply TimeWithinDay_MakeDate. }
    rewrite (monthKey_first LocalTZA _ i Hday).
    rewrite (setMonth_succ LocalTZA _ i Hday), Htime.
    replace (firstOfMonth (i + 1) * msPerDay + (shift + LocalTZA) - LocalTZA)
      with (firstOfMonth (i + 1) * msPerDay + shift) by lia.
    rewrite Hclip by lia.
    rewrite Map_set_fresh by (apply Hfresh; lia).
    rewrite (IH fuel (i + 1)); [|done|lia|lia|lia| | ].
    + rewrite <-app_assoc, seqZ_S. done.
    + intros x Hx. apply Hclip. lia.
    + intros x Hx. rewrite fmap_app. apply not_elem_of_app. split.
      * apply Hfresh. lia.
      * cbn [fmap list_fmap fst]. apply not_elem_of_cons. split; [|apply not_elem_of_nil].
        intros Heq. apply monthKeyOf_inj in Heq. lia.
Qed.
End LoopFacts.

Lemma Sorted_same_timestamps (l1 l2 : list ChartData) :
  timestamp <$> l1 = timestamp <$> l2 →
  Sorted timestamp_le l1 → Sorted timestamp_le l2.
Proof.
  revert l2. induction l1 as [|a l1 IH]; intros [|b l2] Heq Hsorted; try done.
  cbn [fmap list_fmap] in Heq. injection Heq as Hab Heq.
  apply Sorted_inv in Hsorted as [Hsorted Hhd].
  constructor; [by apply IH|].
  destruct l1 as [|a' l1], l2 as [|b' l2]; try done.
  cbn [fmap list_fmap] in Heq. injection Heq as Hab' _.
  apply HdRel_inv in Hhd. constructor. unfold timestamp_le in *. lia.
Qed.

Lemma Sorted_along (f : Z → ChartData) (k : nat) :
  ∀ n, (∀ x, timestamp (f x) ≤ timestamp (f (x + 1))) →
       Sorted timestamp_le (f <$> seqZ n (Z.of_nat k)).
Proof.
  induction k as [|k IH]; intros n Hmono.
  - constructor.
  - rewrite seqZ_S. cbn [fmap list_fmap]. constructor; [by apply IH|].
    destruct k as [|k]; [constructor|].
    rewrite seqZ_S. cbn [fmap list_fmap]. constructor. apply Hmono.
Qed.

Lemma slot_timestamps (l1 l2 : list ChartData) :
  slot <$> l1 = slot <$> l2 → timestamp <$> l1 = timestamp <$> l2.
Proof.
  intros Heq. apply (f_equal (fmap (λ s : string * string * Z, s.2))) in Heq.
  by rewrite <-!list_fmap_compose in Heq.
Qed.

Lemma Map_mutate_slots (m : DataMap) (k : string) (type : EventType) :
  slot <$> Map_values (Map_mutate m k (increment type)) = slot <$> Map_values m.
Proof.
  unfold Map_values.
  induction m as [|[k' v'] m IH]; [done|]. cbn [Map_mutate].
  destruct (decide (k' = k)); cbn [fmap list_fmap snd]; [by destruct type|].
  by f_equal.
Qed.

Section ChartFacts.
Variable Date_parse : string → Date.
Variable LocalTZA : Z.
Variable toLocaleDateString : Z → LabelOptions → string.

(** [processItem] never throws and leaves the time axis as it is. *)
Lemma processItem_returns (isMonthly : bool) (dataMap : DataMap) (dateStr : string)
    (type : EventType) :
  ∃ dataMap',
    processItem Date_parse LocalTZA isMonthly dataMap dateStr type = Returns dataMap' ∧
    slot <$> Map_values dataMap' = slot <$> Map_values dataMap.
Proof.
  unfold processItem, getTime.
  destruct (Date_parse dateStr) as [t|]; [|by eauto].
  assert (∃ k, (if isMonthly then inr (monthKey LocalTZA t) else dayKey (Some t))
               = inr k) as [k ->].
  { destruct isMonthly; [by eauto|]. apply dayKey_returns. }
  destruct (Map_get dataMap k); [|by eauto].
  eexists. split; [done|]. apply Map_mutate_slots.
Qed.

Lemma processAll_returns (isMonthly : bool) (type : EventType) (dates : list string) :
  ∀ dataMap, ∃ dataMap',
    processAll Date_parse LocalTZA isMonthly type dates dataMap = Returns dataMap' ∧
    slot <$> Map_values dataMap' = slot <$> Map_values dataMap.
Proof.
  induction dates as [|dateStr dates IH]; intros dataMap; [by eauto|].
  cbn [processAll].
  destruct (processItem_returns isMonthly dataMap dateStr type) as (m1 & -> & Hslots1).
  destruct (IH m1) as (m2 & -> & Hslots2).
  eexists. split; [done|]. by rewrite Hslots2.
Qed.

(** The value of [chartData] in terms of the buckets that the loop created. *)
Lemma chartData_of_buckets (prs : list GitHubPR.t) (commits : list GitHubCommit.t)
    (startDate endDate : string) (dataMap : DataMap) :
  let start := Date_parse startDate in
  let end_ := Date_parse endDate in
  let isMonthly := isMonthlyRange start end_ in
  fillBuckets LocalTZA toLocaleDateString 1003 isMonthly
    (if isMonthly then setDate LocalTZA end_ (Some 1) else end_)
    (if isMonthly then setDate LocalTZA start (Some 1) else start) 0 []
  = Returns dataMap →
  ∃ buckets,
    chartData Date_parse LocalTZA toLocaleDateString prs commits startDate endDate
    = Returns buckets ∧
    Sorted timestamp_le buckets ∧
    length buckets = length dataMap ∧
    (Sorted timestamp_le (Map_values dataMap) →
     slot <$> buckets = slot <$> Map_values dataMap) ∧
    (prs = [] → commits = [] → buckets = sortByTimestamp (Map_values dataMap)).
Proof.
  intros start end_ isMonthly Hloop. unfold chartData.
  fold start end_ isMonthly. rewrite Hloop.
  destruct (processAll_returns isMonthly TypePRs (GitHubPR.created_at <$> prs) dataMap)
    as (m1 & Hm1 & Hslots1).
  destruct (processAll_returns isMonthly TypeCommits (GitHubCommit.date <$> commits) m1)
    as (m2 & Hm2 & Hslots2).
  rewrite Hm1, Hm2. eexists. split; [done|].
  assert (slot <$> Map_values m2 = slot <$> Map_values dataMap) as Hslots
    by (by rewrite Hslots2).
  split; [apply sortByTimestamp_sorted|]. split; [|split].
  - rewrite sortByTimestamp_perm.
    apply (f_equal length) in Hslots. rewrite !length_fmap in Hslots.
    unfold Map_values in *. by rewrite !length_fmap in *.
  - intros Hsorted. rewrite sortByTimestamp_id; [done|].
    eapply Sorted_same_timestamps; [|exact Hsorted].
    symmetry. by apply slot_timestamps.
  - intros -> ->. cbn [fmap list_fmap processAll] in Hm1, Hm2. congruence.
Qed.

(** For every input whatsoever the component returns a value, sorted by
    timestamp, and with no events all its buckets are empty. *)
Lemma chartData_returns (prs : list GitHubPR.t) (commits : list GitHubCommit.t)
    (startDate endDate : string) :
  ∃ buckets,
    chartData Date_parse LocalTZA toLocaleDateString prs commits startDate endDate
    = Returns buckets ∧
    Sorted timestamp_le buckets ∧
    (prs = [] → commits = [] → Forall emptyBucket buckets).
Proof.
  edestruct (fillBuckets_returns LocalTZA toLocaleDateString 1003) as (dataMap & Hloop & Hempty);
    [lia|..]; last first.
  - destruct (chartData_of_buckets prs commits startDate endDate dataMap Hloop)
      as (buckets & Hrun & Hsorted & _ & _ & Hnone).
    exists buckets. split; [done|]. split; [done|].
    intros Hprs Hcommits. rewrite (Hnone Hprs Hcommits), sortByTimestamp_perm.
    apply Hempty. constructor.
  - lia.
Qed.
End ChartFacts.

Lemma isMonthlyRange_midnights (sd ed : Z) :
  isMonthlyRange (Some (sd * msPerDay)) (Some (ed * msPerDay)) = (60 <? Z.abs (ed - sd)).
Proof.
  unfold isMonthlyRange, diffDays, getTime. simpl.
  change (1000 * 60 * 60 * 24) with msPerDay.
  replace (- (- Z.abs (ed * msPerDay - sd * msPerDay) / msPerDay)) with (Z.abs (ed - sd));
    [done|].
  replace (Z.abs (ed * msPerDay - sd * msPerDay)) with (Z.abs (ed - sd) * msPerDay)
    by (unfold msPerDay; lia).
  replace (- (Z.abs (ed - sd) * msPerDay)) with ((- Z.abs (ed - sd)) * msPerDay) by lia.
  rewrite Z.div_mul by done. lia.
Qed.

Lemma localDay_range (LocalTZA n : Z) :
  - msPerDay < LocalTZA < msPerDay → n - 1 ≤ localDay LocalTZA n ≤ n.
Proof. unfold localDay, Day, msPerDay. intros. Z.div_mod_to_equations. lia. Qed.

Lemma localDay_east (LocalTZA n : Z) :
  0 ≤ LocalTZA < msPerDay → localDay LocalTZA n = n.
Proof. unfold localDay, Day, msPerDay. intros. Z.div_mod_to_equations. lia. Qed.

Lemma local_time_of_day (LocalTZA n : Z) :
  TimeWithinDay (n * msPerDay + LocalTZA) = TimeWithinDay LocalTZA.
Proof. unfold TimeWithinDay, msPerDay. Z.div_mod_to_equations. lia. Qed.

Section RangeFacts.
Variable Date_parse : string → Date.
Variable LocalTZA : Z.
Variable toLocaleDateString : Z → LabelOptions → string.
Variables (prs : list GitHubPR.t) (commits : list GitHubCommit.t).
Variables (startDate endDate : string) (sd ed : Z).
Hypothesis Hstart : Date_parse startDate = Some (sd * msPerDay).
Hypothesis Hend : Date_parse endDate = Some (ed * msPerDay).
Hypothesis Hsd : fourDigitYear sd.
Hypothesis Hed : fourDigitYear ed.

(** Daily mode: one bucket for each day from the start to the end. *)
Lemma chartData_daily :
  Z.abs (ed - sd) ≤ 60 →
  ∃ buckets,
    chartData Date_parse LocalTZA toLocaleDateString prs commits startDate endDate
    = Returns buckets ∧
    slot <$> buckets
    = slot <$> (dayBucket toLocaleDateString <$> seqZ sd (daysSpanned sd ed)).*2.
Proof.
  intros Hspan.
  assert (isMonthlyRange (Date_parse startDate) (Date_parse endDate) = false) as Hmode.
  { rewrite Hstart, Hend, isMonthlyRange_midnights. by apply Z.ltb_ge. }
  destruct (chartData_of_buckets Date_parse LocalTZA toLocaleDateString prs commits
              startDate endDate
              (dayBucket toLocaleDateString <$> seqZ sd (daysSpanned sd ed)))
    as (buckets & Hrun & _ & _ & Hslots & _).
  - cbv zeta. rewrite Hmode, Hstart, Hend.
    replace (daysSpanned sd ed) with (Z.of_nat (Z.to_nat (daysSpanned sd ed)))
      by (unfold daysSpanned; lia).
    rewrite (fillBuckets_daily LocalTZA toLocaleDateString ed (Z.to_nat (daysSpanned sd ed)));
      unfold daysSpanned; [done|lia|lia|lia|lia|done| |].
    + intros x Hx. by apply (fourDigitYear_between sd ed).
    + intros x Hx. apply not_elem_of_nil.
  - exists buckets. split; [done|]. apply Hslots.
    unfold Map_values. rewrite <-list_fmap_compose.
    replace (daysSpanned sd ed) with (Z.of_nat (Z.to_nat (daysSpanned sd ed)))
      by (unfold daysSpanned; lia).
    apply Sorted_along. intros x. cbn. unfold msPerDay. lia.
Qed.

(** Monthly mode: one bucket for each month from the local month of the
    start to the local month of the end, and no more than the brake of the
    loop lets through. *)
Lemma chartData_monthly :
  60 < Z.abs (ed - sd) →
  - msPerDay < LocalTZA < msPerDay →
  let i := monthIndex (localDay LocalTZA sd) in
  let j := monthIndex (localDay LocalTZA ed) in
  let shift := TimeWithinDay LocalTZA - LocalTZA in
  ∃ buckets,
    chartData Date_parse LocalTZA toLocaleDateString prs commits startDate endDate
    = Returns buckets ∧
    slot <$> buckets
    = slot <$> (monthBucket toLocaleDateString shift
                  <$> seqZ i (Z.min 1001 (Z.max 0 (j - i + 1)))).*2.
Proof.
  intros Hspan Htz i j shift.
  assert (isMonthlyRange (Date_parse startDate) (Date_parse endDate) = true) as Hmode.
  { rewrite Hstart, Hend, isMonthlyRange_midnights. by apply Z.ltb_lt. }
  pose proof (TimeWithinDay_range LocalTZA) as Htime.
  pose proof (fourDigitYear_bounds sd Hsd) as Hbsd.
  pose proof (fourDigitYear_bounds ed Hed) as Hbed.
  pose proof (localDay_range LocalTZA sd Htz) as Hlsd.
  pose proof (localDay_range LocalTZA ed Htz) as Hled.
  pose proof (firstOfMonth_monthIndex (localDay LocalTZA sd)) as Hfi.
  pose proof (firstOfMonth_monthIndex (localDay LocalTZA ed)) as Hfj.
  pose proof (DateFromDay_range (localDay LocalTZA sd)) as Hdi.
  pose proof (DateFromDay_range (localDay LocalTZA ed)) as Hdj.
  fold i in Hfi. fold j in Hfj.
  assert (∀ x, - 3000000 ≤ firstOfMonth x ≤ 3000000 →
               TimeClip (firstOfMonth x * msPerDay + shift)
               = Some (firstOfMonth x * msPerDay + shift)) as Hclip.
  { intros x Hx. apply TimeClip_small. unfold shift, msPerDay in *. lia. }
  set (k := Z.min 1001 (Z.max 0 (j - i + 1))).
  destruct (chartData_of_buckets Date_parse LocalTZA toLocaleDateString prs commits
              startDate endDate
              (monthBucket toLocaleDateString shift <$> seqZ i k))
    as (buckets & Hrun & _ & _ & Hslots & _).
  - cbv zeta. rewrite Hmode, Hstart, Hend, !setDate_first, !local_time_of_day.
    fold (localDay LocalTZA sd) (localDay LocalTZA ed). fold i j shift.
    replace (firstOfMonth i * msPerDay + TimeWithinDay LocalTZA - LocalTZA)
      with (firstOfMonth i * msPerDay + shift) by (unfold shift; lia).
    replace (firstOfMonth j * msPerDay + TimeWithinDay LocalTZA - LocalTZA)
      with (firstOfMonth j * msPerDay + shift) by (unfold shift; lia).
    rewrite !Hclip by lia.
    replace k with (Z.of_nat (Z.to_nat k)) by (unfold k; lia).
    rewrite (fillBuckets_monthly LocalTZA toLocaleDateString shift j (Z.to_nat k));
      [done|unfold shift; lia|unfold k; lia|lia|unfold k; lia| |].
    + intros x Hx. apply Hclip.
      assert (firstOfMonth i ≤ firstOfMonth x) by (apply firstOfMonth_le_iff; lia).
      assert (firstOfMonth x ≤ firstOfMonth (j + 1)) by (apply firstOfMonth_le_iff; lia).
      pose proof (firstOfMonth_succ j). lia.
    + intros x Hx. apply not_elem_of_nil.
  - exists buckets. split; [done|]. apply Hslots.
    unfold Map_values. rewrite <-list_fmap_compose.
    replace k with (Z.of_nat (Z.to_nat k)) by (unfold k; lia).
    apply Sorted_along. intros x. cbn.
    pose proof (firstOfMonth_succ x). unfold msPerDay. lia.
Qed.
End RangeFacts.

(** On a host five hours behind UTC the months are those of the local dates:
    the range from 2024-01-01 to 2024-06-30, six calendar months, gets a
    bucket for December 2023 too. *)
Lemma west_of_UTC_month_grid :
  outcome_map (fmap key)
    (chartData isoParse (-18000000) plainLabel [] [] "2024-01-01" "2024-06-30")
  = Returns ["2023-12"; "2024-01"; "2024-02"; "2024-03"; "2024-04"; "2024-05"; "2024-06"].
Proof. vm_compute. reflexivity. Qed.

Lemma slot_keys (l1 l2 : list ChartData) :
  slot <$> l1 = slot <$> l2 → key <$> l1 = key <$> l2.
Proof.
  intros Heq. apply (f_equal (fmap (λ s : string * string * Z, s.1.1))) in Heq.
  by rewrite <-!list_fmap_compose in Heq.
Qed.

Lemma slot_length (l1 l2 : list ChartData) :
  slot <$> l1 = slot <$> l2 → length l1 = length l2.
Proof. intros Heq. apply (f_equal length) in Heq. by rewrite !length_fmap in Heq. Qed.

Lemma length_seqZ_nonneg (n k : Z) : 0 ≤ k → Z.of_nat (length (seqZ n k)) = k.
Proof. intros Hk. rewrite length_seqZ. lia. Qed.




(** C4: the range is bucketed by month exactly when its span is more than 60
    days.  With a span of at most 60 days the keys of the output are the day
    keys of the days from the start to the end; with a longer span every key
    is a month key, and there is at least one when the range is not
    inverted.  The range from 2024-01-01 to 2024-03-01, of exactly 60 days,
    gives the 61 day keys from "2024-01-01" to "2024-03-01"; the range from
    2024-01-01 to 2024-03-02, of 61 days, gives the three month keys
    "2024-01", "2024-02" and "2024-03". *)
Theorem C4_monthly_iff_span_exceeds_60 :
  (∀ (Date_parse : string → Date) (LocalTZA : Z)
     (toLocaleDateString : Z → LabelOptions → string)
     (prs : list GitHubPR.t) (commits : list GitHubCommit.t)
     (startDate endDate : string) (sd ed : Z),
     Date_parse startDate = Some (sd * msPerDay) →
     Date_parse endDate = Some (ed * msPerDay) →
     fourDigitYear sd → fourDigitYear ed →
     (isMonthlyRange (Date_parse startDate) (Date_parse endDate) = true
      ↔ 60 < Z.abs (ed - sd)) ∧
     (Z.abs (ed - sd) ≤ 60 →
      ∃ buckets,
        chartData Date_parse LocalTZA toLocaleDateString prs commits startDate endDate
        = Returns buckets ∧
        key <$> buckets = isoDate <$> seqZ sd (daysSpanned sd ed)) ∧
     (60 < Z.abs (ed - sd) → - msPerDay < LocalTZA < msPerDay →
      ∃ buckets,
        chartData Date_parse LocalTZA toLocaleDateString prs commits startDate endDate
        = Returns buckets ∧
        Forall (λ b, ∃ i, key b = monthKeyOf i) buckets ∧
        (sd ≤ ed → buckets ≠ [])))
  ∧ outcome_map (fmap key)
      (chartData isoParse 0 plainLabel [] [] "2024-01-01" "2024-03-01")
    = Returns (isoDate <$> seqZ 19723 61)
  ∧ isoDate 19723 = "2024-01-01" ∧ isoDate 19783 = "2024-03-01"
  ∧ outcome_map (fmap key)
      (chartData isoParse 0 plainLabel [] [] "2024-01-01" "2024-03-02")
    = Returns ["2024-01"; "2024-02"; "2024-03"].
Proof.
  split; [|split; [|split; [|split]]; vm_compute; reflexivity].
  intros Date_parse LocalTZA toLocaleDateString prs commits startDate endDate sd ed
    Hstart Hend Hsd Hed.
  split; [|split].
  - rewrite Hstart, Hend, isMonthlyRange_midnights. apply Z.ltb_lt.
  - intros Hspan.
    destruct (chartData_daily Date_parse LocalTZA toLocaleDateString prs commits
                startDate endDate sd ed Hstart Hend Hsd Hed Hspan)
      as (buckets & Hrun & Hslots).
    exists buckets. split; [done|].
    rewrite (slot_keys _ _ Hslots). by rewrite <-!list_fmap_compose.
  - intros Hspan Htz.
    destruct (chartData_monthly Date_parse LocalTZA toLocaleDateString prs commits
                startDate endDate sd ed Hstart Hend Hsd Hed Hspan Htz)
      as (buckets & Hrun & Hslots).
    exists buckets. split; [done|]. split.
    + apply Forall_forall. intros b Hb.
      apply (list_elem_of_fmap_2 key) in Hb.
      rewrite (slot_keys _ _ Hslots), <-!list_fmap_compose in Hb.
      apply list_elem_of_fmap in Hb as (i & Hkey & _). by exists i.
    + intros Hle Hnil. apply slot_length in Hslots.
      rewrite Hnil, !length_fmap, length_seqZ in Hslots. cbn [length] in Hslots.
      assert (localDay LocalTZA sd ≤ localDay LocalTZA ed) as Hlocal.
      { unfold localDay, Day, msPerDay. apply Z.div_le_mono; lia. }
      pose proof (monthIndex_mono _ _ Hlocal). lia.
Qed.

(** C4 at the ranges of 60 and of 61 days that start on 2024-01-01. *)
Lemma C4_granularity_witness :
  (isMonthlyRange (isoParse "2024-01-01") (isoParse "2024-03-01") = true
   ↔ 60 < Z.abs (19783 - 19723)) ∧
  (isMonthlyRange (isoParse "2024-01-01") (isoParse "2024-03-02") = true
   ↔ 60 < Z.abs (19784 - 19723)).
Proof.
  split.
  - apply (proj1 C4_monthly_iff_span_exceeds_60 isoParse 0 plainLabel [] []
             "2024-01-01" "2024-03-01" 19723 19783).
    + vm_compute. reflexivity.
    + vm_compute. reflexivity.
    + unfold fourDigitYear. vm_compute. split; discriminate.
    + unfold fourDigitYear. vm_compute. split; discriminate.
  - apply (proj1 C4_monthly_iff_span_exceeds_60 isoParse 0 plainLabel [] []
             "2024-01-01" "2024-03-02" 19723 19784).
    + vm_compute. reflexivity.
    + vm_compute. reflexivity.
    + unfold fourDigitYear. vm_compute. split; discriminate.
    + unfold fourDigitYear. vm_compute. split; discriminate.
Defined.

(** * Further properties *)

(** ** Pager: requests, failures and size *)

Section PagerMore.
Context {A : Type}.
Variable provider : Provider (SearchData A).
Variable url : string.
Variable headers : list (string * string).

(** Whatever the provider does, the loop asks for consecutive pages, at most
    as many as the loop condition allows, and what it returns extends what it
    had. *)
Lemma searchLoop_requests (remaining : nat) :
  ∀ (currentPage : nat) (allItems : list A) (log : list Request),
    ∃ k, (k ≤ remaining)%nat ∧
         (searchLoop provider url headers remaining currentPage allItems log).2
         = log ++ (pageRequest url headers <$> seq currentPage k) ∧
         ((remaining ≠ 0)%nat → (k ≠ 0)%nat).
Proof.
  induction remaining as [|remaining IH]; intros currentPage allItems log.
  - exists 0%nat. cbn. rewrite app_nil_r. split; [lia|]. split; [done|]. done.
  - cbn [searchLoop]. unfold bind at 1, fetch.
    destruct (provider log (pageRequest url headers currentPage)) as [msg|response].
    { exists 1%nat. split; [lia|]. split; [done|lia]. }
    unfold bind at 1, handleErrors.
    destruct (ok response); cbn [negb]; last first.
    { exists 1%nat. split; [lia|]. split; [|lia].
      destruct (status response =? 403), (status response =? 401),
        (status response =? 422); done. }
    unfold ret at 1, bind at 1, response_json.
    destruct (json response) as [msg|data].
    { exists 1%nat. split; [lia|]. split; [done|lia]. }
    unfold ret at 1.
    destruct (length (default [] (items data)) =? 0)%nat.
    { exists 1%nat. split; [lia|]. split; [done|lia]. }
    destruct (length (default [] (items data)) <? 100)%nat.
    { exists 1%nat. split; [lia|]. split; [done|lia]. }
    destruct (IH (S currentPage) (allItems ++ default [] (items data))
                (log ++ [pageRequest url headers currentPage])) as (k & Hk & Hlog & _).
    exists (S k). split; [lia|]. split; [|lia].
    rewrite Hlog. cbn [seq fmap list_fmap]. by rewrite <-app_assoc.
Qed.

(** Full pages that are served are passed over. *)
Lemma searchLoop_skip_full (n : nat) :
  ∀ (remaining currentPage : nat) (allItems : list A) (log : list Request)
    (p : nat → list A),
    (∀ i, (i < n)%nat →
          serves provider (pageRequest url headers (currentPage + i)) (p (currentPage + i)%nat)) →
    (∀ i, (i < n)%nat → (100 ≤ length (p (currentPage + i)%nat))%nat) →
    searchLoop provider url headers (n + remaining) currentPage allItems log =
    searchLoop provider url headers remaining (currentPage + n)
      (allItems ++ concat (p <$> seq currentPage n))
      (log ++ (pageRequest url headers <$> seq currentPage n)).
Proof.
  induction n as [|n IH]; intros remaining currentPage allItems log p Hserved Hfull.
  - cbn. by rewrite Nat.add_0_r, !app_nil_r.
  - cbn [Nat.add].
    rewrite (searchLoop_step _ _ _ _ _ _ (p currentPage)); last first.
    { specialize (Hserved 0%nat). rewrite Nat.add_0_r in Hserved. apply Hserved. lia. }
    assert (100 ≤ length (p currentPage))%nat as Hlen.
    { specialize (Hfull 0%nat). rewrite Nat.add_0_r in Hfull. apply Hfull. lia. }
    destruct (length (p currentPage) =? 0)%nat eqn:Hlen0.
    { apply Nat.eqb_eq in Hlen0. lia. }
    destruct (length (p currentPage) <? 100)%nat eqn:Hlt.
    { apply Nat.ltb_lt in Hlt. lia. }
    rewrite (IH remaining (S currentPage) _ _ p).
    + cbn [seq fmap list_fmap concat]. rewrite <-!app_assoc.
      by replace (S currentPage + n)%nat with (currentPage + S n)%nat by lia.
    + intros i Hi. replace (S currentPage + i)%nat with (currentPage + S i)%nat by lia.
      apply Hserved. lia.
    + intros i Hi. replace (S currentPage + i)%nat with (currentPage + S i)%nat by lia.
      apply Hfull. lia.
Qed.

(** One turn of the loop on a request that fails. *)
Lemma searchLoop_failure (remaining currentPage : nat) (allItems : list A)
    (log : list Request) :
  searchLoop provider url headers (S remaining) currentPage allItems log =
  match provider log (pageRequest url headers currentPage) with
  | Rejected msg => (inl (mkError msg), log ++ [pageRequest url headers currentPage])
  | Responded response =>
      if ok response then
        searchLoop provider url headers (S remaining) currentPage allItems log
      else (inl (mkError (failureMessage response)),
            log ++ [pageRequest url headers currentPage])
  end.
Proof.
  destruct (provider log (pageRequest url headers currentPage)) as [msg|response] eqn:Hanswer.
  - cbn [searchLoop]. unfold bind at 1, fetch. by rewrite Hanswer.
  - destruct (ok response) eqn:Hok; [done|].
    cbn [searchLoop]. unfold bind at 1, fetch. rewrite Hanswer.
    unfold bind at 1, handleErrors, failureMessage. rewrite Hok. cbn [negb].
    destruct (status response =? 403), (status response =? 401),
      (status response =? 422); done.
Qed.

(** What the loop returns is bounded when pages are. *)
Lemma searchLoop_size (remaining : nat) :
  respectsPageSize provider →
  ∀ (currentPage : nat) (allItems : list A) (log log' : list Request) (result : list A),
    searchLoop provider url headers remaining currentPage allItems log = (inr result, log') →
    (length result ≤ length allItems + 100 * remaining)%nat.
Proof.
  intros Hsize.
  induction remaining as [|remaining IH]; intros currentPage allItems log log' result.
  - cbn. unfold ret. intros [= <- _]. lia.
  - cbn [searchLoop]. unfold bind at 1, fetch.
    destruct (provider log (pageRequest url headers currentPage)) as [msg|response] eqn:Hanswer;
      [done|].
    unfold bind at 1, handleErrors.
    destruct (ok response); cbn [negb]; last first.
    { destruct (status response =? 403), (status response =? 401),
        (status response =? 422); done. }
    unfold ret at 1, bind at 1, response_json.
    destruct (json response) as [msg|data] eqn:Hjson; [done|].
    unfold ret at 1.
    pose proof (Hsize _ _ _ _ Hanswer Hjson) as Hpage.
    destruct (length (default [] (items data)) =? 0)%nat.
    { unfold ret. intros [= <- _]. lia. }
    destruct (length (default [] (items data)) <? 100)%nat.
    { unfold ret. intros [= <- _]. rewrite length_app. lia. }
    intros Hrun. apply IH in Hrun. rewrite length_app in Hrun. lia.
Qed.
End PagerMore.

(** X1: whatever the provider answers, and whether the pager returns or
    throws, it asks for the pages 1, 2, ..., [k] in this order and for nothing
    else, with [k] at most the ceiling (and at least 1 when the ceiling is not
    zero). *)
Theorem X1_pager_requests_consecutive_pages
  (A : Type) (provider : Provider (SearchData A)) (url : string)
  (headers : list (string * string)) (maxPages : nat) (log : list Request) :
  ∃ k, (k ≤ maxPages)%nat ∧
       (fetchSearchPages provider url headers maxPages log).2
       = log ++ (pageRequest url headers <$> seq 1 k) ∧
       ((maxPages ≠ 0)%nat → (k ≠ 0)%nat).
Proof.
  unfold fetchSearchPages.
  destruct (searchLoop_requests provider url headers maxPages 1 [] log)
    as (k & Hk & Hlog & Hpos).
  exists k. split_and!; [lia|exact Hlog|exact Hpos].
Qed.

(** X2: when the pages before page [k] are served and full and the request
    for page [k] fails, the pager throws after exactly [k] requests and
    returns none of the items it had: the error carries the message of the
    rejection, or the message that the status of the answer stands for. *)
Theorem X2_pager_aborts_on_failed_page
  (A : Type) (provider : Provider (SearchData A)) (url : string)
  (headers : list (string * string)) (maxPages k : nat) (p : nat → list A)
  (log : list Request) :
  (1 ≤ k ≤ maxPages)%nat →
  (∀ i, (1 ≤ i < k)%nat → serves provider (pageRequest url headers i) (p i)) →
  (∀ i, (1 ≤ i < k)%nat → (100 ≤ length (p i))%nat) →
  match provider (log ++ (pageRequest url headers <$> seq 1 (k - 1)))
                 (pageRequest url headers k) with
  | Rejected msg =>
      fetchSearchPages provider url headers maxPages log
      = (inl (mkError msg), log ++ (pageRequest url headers <$> seq 1 k))
  | Responded response =>
      ok response = false →
      fetchSearchPages provider url headers maxPages log
      = (inl (mkError (failureMessage response)),
         log ++ (pageRequest url headers <$> seq 1 k))
  end.
Proof.
  intros Hk Hserved Hfull. unfold fetchSearchPages.
  replace maxPages with ((k - 1) + S (maxPages - k))%nat by lia.
  rewrite (searchLoop_skip_full provider url headers (k - 1) _ 1 [] log p); [|intros i Hi..].
  - replace (1 + (k - 1))%nat with k by lia.
    assert (seq 1 k = seq 1 (k - 1) ++ [k]) as Hseq.
    { replace k with ((k - 1) + 1)%nat at 1 by lia. rewrite seq_app. cbn [seq].
      by replace (1 + (k - 1))%nat with k by lia. }
    rewrite searchLoop_failure.
    destruct (provider _ _) as [msg|response].
    + rewrite Hseq, fmap_app, app_assoc. done.
    + intros Hok. rewrite Hok, Hseq, fmap_app, app_assoc. done.
  - apply Hserved. lia.
  - apply Hfull. lia.
Qed.

(** X2 at a provider that serves one full page and answers the request for
    the second page with status 403. *)
Lemma X2_pager_abort_witness :
  fetchSearchPages rateLimitedSearch exampleUrl [] 10 []
  = (inl (mkError "GitHub API rate limit exceeded. Please try again later."),
     [] ++ (pageRequest exampleUrl [] <$> seq 1 2)).
Proof.
  assert (rateLimitedSearch ([] ++ (pageRequest exampleUrl [] <$> seq 1 (2 - 1)))
            (pageRequest exampleUrl [] 2)
          = Responded (mkHttp 403 "Forbidden" (inl "Unexpected end of JSON input")))
    as Hanswer by (vm_compute; reflexivity).
  pose proof (X2_pager_aborts_on_failed_page Z rateLimitedSearch exampleUrl [] 10 2
                (λ i : nat, default [] (examplePages !! (i - 1)%nat)) []) as Habort.
  cbv beta in Habort. rewrite Hanswer in Habort.
  change (failureMessage (mkHttp 403 "Forbidden" (inl "Unexpected end of JSON input")))
    with "GitHub API rate limit exceeded. Please try again later." in Habort.
  apply Habort.
  - lia.
  - intros i Hi. assert (i = 1)%nat as -> by lia.
    intros log. eexists _, _. vm_compute. repeat split.
  - intros i Hi. assert (i = 1)%nat as -> by lia. vm_compute. lia.
  - reflexivity.
Defined.

(** ** Event fetchers: what they return, throw and request *)

Section FetcherFacts.
Variable issueSearch : Provider (SearchData RawIssue.t).
Variable commitSearch : Provider (SearchData RawCommit.t).
Variable pullDetail : Provider PRDetails.
Variable encodeURIComponent : string → string.

(** The commit fetcher in terms of the pager. *)
Lemma fetchUserCommits_unfold (username token startDate endDate : string)
    (log : list Request) :
  username ≠ "" →
  fetchUserCommits commitSearch encodeURIComponent username token startDate endDate log =
  match fetchSearchPages commitSearch
          (commitSearchUrl encodeURIComponent username startDate endDate)
          (buildHeaders commitAccept token) 10 log with
  | (inr items, log') => (inr (commitEvent <$> items), log')
  | (inl e, log') =>
      (inl (mkError (if decide (message e = "") then "Failed to fetch commits"
                     else message e)), log')
  end.
Proof.
  intros Huser. unfold fetchUserCommits. destruct (decide (username = "")); [done|].
  unfold try_catch, bind.
  fold (commitSearchUrl encodeURIComponent username startDate endDate).
  fold commitAccept.
  by destruct (fetchSearchPages _ _ _ _ _) as [[e|items] log'].
Qed.

(** The pull-request fetcher in terms of the pager and the enricher. *)
Lemma fetchUserPullRequests_unfold (username token startDate endDate : string)
    (log : list Request) :
  username ≠ "" →
  fetchUserPullRequests issueSearch pullDetail encodeURIComponent
    username token startDate endDate log =
  match fetchSearchPages issueSearch
          (issueSearchUrl encodeURIComponent username startDate endDate)
          (buildHeaders issueAccept token) 10 log with
  | (inr items, log') =>
      enrichPRs pullDetail (buildHeaders issueAccept token) (basicPR <$> items) log'
  | (inl e, log') =>
      (inl (mkError (if decide (message e = "") then "Failed to fetch pull requests"
                     else message e)), log')
  end.
Proof.
  intros Huser. unfold fetchUserPullRequests. destruct (decide (username = "")); [done|].
  unfold try_catch, bind at 1.
  fold (issueSearchUrl encodeURIComponent username startDate endDate).
  fold issueAccept.
  destruct (fetchSearchPages _ _ _ _ _) as [[e|items] log']; [done|].
  destruct (enrichPRs_run pullDetail (buildHeaders issueAccept token) (basicPR <$> items) log')
    as (out & -> & _).
  done.
Qed.
End FetcherFacts.





Lemma Forall_pageRequest_headers (url : string) (headers : list (string * string))
    (pages : list nat) :
  Forall (λ r, req_headers r = headers) (pageRequest url headers <$> pages).
Proof. apply Forall_fmap, Forall_true. done. Qed.

Lemma Forall_detailRequest_headers (headers : list (string * string))
    (prs : list GitHubPR.t) :
  Forall (λ r, req_headers r = headers) (detailRequest headers <$> prs).
Proof. apply Forall_fmap, Forall_true. done. Qed.

(** X5: a call of the pull-request fetcher adds at most 30 requests to the
    log, a call of the commit fetcher at most 10, and each of them carries
    the headers built from the credential: the [Accept] entry alone when the
    credential is empty, and the [Authorization] entry with the credential
    as well when it is not. *)
Theorem X5_fetchers_request_budget_and_headers :
  (∀ (issueSearch : Provider (SearchData RawIssue.t)) (pullDetail : Provider PRDetails)
     (encodeURIComponent : string → string) (username token startDate endDate : string)
     (log : list Request),
     ∃ new,
       (fetchUserPullRequests issueSearch pullDetail encodeURIComponent
          username token startDate endDate log).2 = log ++ new ∧
       (length new ≤ 30)%nat ∧
       Forall (λ r, req_headers r = buildHeaders issueAccept token) new)
  ∧ (∀ (commitSearch : Provider (SearchData RawCommit.t))
       (encodeURIComponent : string → string) (username token startDate endDate : string)
       (log : list Request),
       ∃ new,
         (fetchUserCommits commitSearch encodeURIComponent
            username token startDate endDate log).2 = log ++ new ∧
         (length new ≤ 10)%nat ∧
         Forall (λ r, req_headers r = buildHeaders commitAccept token) new)
  ∧ (∀ accept token : string,
       (token = "" → buildHeaders accept token = [("Accept", accept)]) ∧
       (token ≠ "" →
        buildHeaders accept token
        = [("Accept", accept); ("Authorization", "token " +:+ token)])).
Proof.
  split; [|split].
  - intros issueSearch pullDetail encodeURIComponent username token startDate endDate log.
    destruct (decide (username = "")) as [->|Huser].
    { exists []. rewrite app_nil_r. split; [done|]. split; [cbn; lia|constructor]. }
    rewrite fetchUserPullRequests_unfold by done.
    destruct (searchLoop_requests issueSearch
                (issueSearchUrl encodeURIComponent username startDate endDate)
                (buildHeaders issueAccept token) 10 1 [] log) as (k & Hk & Hlog & _).
    unfold fetchSearchPages.
    destruct (searchLoop _ _ _ _ _ _ _) as [[e|items] log1]; cbn [snd] in Hlog; subst log1.
    + eexists. split; [done|]. split.
      * rewrite length_fmap, length_seq. lia.
      * apply Forall_pageRequest_headers.
    + destruct (enrichPRs_run pullDetail (buildHeaders issueAccept token) (basicPR <$> items)
                  (log ++ (pageRequest (issueSearchUrl encodeURIComponent username startDate
                                          endDate)
                             (buildHeaders issueAccept token) <$> seq 1 k)))
        as (out & -> & _).
      cbn [snd]. rewrite <-app_assoc. eexists. split; [done|]. split.
      * rewrite length_app, !length_fmap, length_seq, length_take. lia.
      * apply Forall_app. split.
        -- apply Forall_pageRequest_headers.
        -- apply Forall_detailRequest_headers.
  - intros commitSearch encodeURIComponent username token startDate endDate log.
    destruct (decide (username = "")) as [->|Huser].
    { exists []. rewrite app_nil_r. split; [done|]. split; [cbn; lia|constructor]. }
    rewrite fetchUserCommits_unfold by done.
    destruct (searchLoop_requests commitSearch
                (commitSearchUrl encodeURIComponent username startDate endDate)
                (buildHeaders commitAccept token) 10 1 [] log) as (k & Hk & Hlog & _).
    unfold fetchSearchPages.
    destruct (searchLoop _ _ _ _ _ _ _) as [[e|items] log1]; cbn [snd] in Hlog; subst log1;
      (eexists; split; [done|]; split;
       [rewrite length_fmap, length_seq; lia|apply Forall_pageRequest_headers]).
  - intros accept token. unfold buildHeaders. split; intros Htoken.
    + by destruct (decide (token = "")).
    + by destruct (decide (token = "")).
Qed.

(** ** The authenticated user and the repository catalog *)

Section AccountFacts.
Variable userApi : Provider GitHubUser.t.
Variable repoApi : Provider (list RawRepo.t).

(** The one request of [fetchAuthenticatedUser] and what comes of it. *)
Lemma fetchAuthenticatedUser_run (token : string) (log : list Request) :
  fetchAuthenticatedUser userApi token log =
  (match userApi log (userRequest token) with
   | Rejected msg => inl (mkError msg)
   | Responded response =>
       if ok response then
         match json response with
         | inl msg => inl (mkError msg)
         | inr user => inr user
         end
       else inl (mkError (failureMessage response))
   end,
   log ++ [userRequest token]).
Proof.
  unfold fetchAuthenticatedUser, bind at 1, fetch.
  destruct (userApi log (userRequest token)) as [msg|response]; [done|].
  unfold bind, handleErrors, failureMessage.
  destruct (ok response); cbn [negb].
  - unfold ret, response_json. by destruct (json response).
  - destruct (status response =? 403), (status response =? 401),
      (status response =? 422); done.
Qed.

(** One turn of the loop of the catalog on a page that is served. *)
Lemma reposLoop_step (token : string) (remaining page : nat)
    (allRepos data : list RawRepo.t) (log : list Request) :
  servesRepos repoApi (repoRequest token page) data →
  reposLoop repoApi token (S remaining) page allRepos log =
  if (length data =? 0)%nat then (inr allRepos, log ++ [repoRequest token page])
  else if (length data <? perPage)%nat
       then (inr (allRepos ++ data), log ++ [repoRequest token page])
       else reposLoop repoApi token remaining (S page) (allRepos ++ data)
              (log ++ [repoRequest token page]).
Proof.
  intros Hserved. destruct (Hserved log) as (response & Hanswer & Hok & Hjson).
  cbn [reposLoop]. unfold bind at 1. unfold bind at 1. unfold fetch. rewrite Hanswer.
  unfold handleErrors. rewrite Hok. cbn [negb]. unfold ret at 1.
  unfold bind at 1. unfold response_json. rewrite Hjson. unfold ret at 1.
  destruct (length data =? 0)%nat; [done|].
  destruct (length data <? perPage)%nat; done.
Qed.

Lemma reposLoop_run (token : string) (n : nat) :
  ∀ (remaining page : nat) (allRepos : list RawRepo.t) (log : list Request)
    (p : nat → list RawRepo.t),
    (∀ i, (i < n)%nat → servesRepos repoApi (repoRequest token (page + i)) (p (page + i)%nat)) →
    (∀ i, (i + 1 < n)%nat → (100 ≤ length (p (page + i)%nat))%nat) →
    (n = remaining ∨
     ((0 < n ≤ remaining)%nat ∧ (length (p (page + n - 1)%nat) < 100)%nat)) →
    reposLoop repoApi token remaining page allRepos log =
    (inr (allRepos ++ concat (p <$> seq page n)),
     log ++ (repoRequest token <$> seq page n)).
Proof.
  induction n as [|n IH]; intros remaining page allRepos log p Hserved Hfull Hstop.
  - destruct Hstop as [ <- | [? _] ]; [|lia]. cbn. unfold ret. by rewrite !app_nil_r.
  - destruct remaining as [|remaining]; [lia|].
    rewrite (reposLoop_step _ _ _ _ (p page)); last first.
    { specialize (Hserved 0%nat). rewrite Nat.add_0_r in Hserved. apply Hserved. lia. }
    cbn [seq fmap list_fmap concat]. unfold perPage.
    destruct (decide (n = 0%nat)) as [->|Hn].
    + cbn [seq fmap list_fmap concat]. rewrite !app_nil_r.
      destruct (length (p page) =? 0)%nat eqn:Hlen0.
      { apply Nat.eqb_eq in Hlen0. apply nil_length_inv in Hlen0.
        rewrite Hlen0. by rewrite app_nil_r. }
      destruct (length (p page) <? 100)%nat eqn:Hlen; [done|].
      apply Nat.ltb_ge in Hlen.
      destruct Hstop as [Hrem|[_ Hshort]].
      * assert (remaining = 0%nat) as -> by lia. done.
      * replace (page + 1 - 1)%nat with page in Hshort by lia. lia.
    + assert (100 ≤ length (p page))%nat as Hlen.
      { specialize (Hfull 0%nat). rewrite Nat.add_0_r in Hfull. apply Hfull. lia. }
      destruct (length (p page) =? 0)%nat eqn:Hlen0.
      { apply Nat.eqb_eq in Hlen0. lia. }
      destruct (length (p page) <? 100)%nat eqn:Hlt.
      { apply Nat.ltb_lt in Hlt. lia. }
      rewrite (IH remaining (S page) _ _ p).
      * by rewrite <-!app_assoc.
      * intros i Hi. replace (S page + i)%nat with (page + S i)%nat by lia.
        apply Hserved. lia.
      * intros i Hi. replace (S page + i)%nat with (page + S i)%nat by lia.
        apply Hfull. lia.
      * destruct Hstop as [Hrem|[Hle Hshort]]; [left; lia|right].
        split; [lia|].
        by replace (S page + n - 1)%nat with (page + S n - 1)%nat by lia.
Qed.

(** Whatever the provider does, the loop of the catalog asks for consecutive
    pages, at most as many as its condition allows. *)
Lemma reposLoop_requests (token : string) (remaining : nat) :
  ∀ (page : nat) (allRepos : list RawRepo.t) (log : list Request),
    ∃ k, (k ≤ remaining)%nat ∧
         (reposLoop repoApi token remaining page allRepos log).2
         = log ++ (repoRequest token <$> seq page k) ∧
         ((remaining ≠ 0)%nat → (k ≠ 0)%nat).
Proof.
  induction remaining as [|remaining IH]; intros page allRepos log.
  - exists 0%nat. cbn. rewrite app_nil_r. split; [lia|]. split; [done|]. done.
  - cbn [reposLoop]. unfold bind at 1, fetch.
    destruct (repoApi log (repoRequest token page)) as [msg|response].
    { exists 1%nat. split; [lia|]. split; [done|lia]. }
    unfold bind at 1, handleErrors.
    destruct (ok response); cbn [negb]; last first.
    { exists 1%nat. split; [lia|]. split; [|lia].
      destruct (status response =? 403), (status response =? 401),
        (status response =? 422); done. }
    unfold ret at 1, bind at 1, response_json.
    destruct (json response) as [msg|data].
    { exists 1%nat. split; [lia|]. split; [done|lia]. }
    unfold ret at 1.
    destruct (length data =? 0)%nat.
    { exists 1%nat. split; [lia|]. split; [done|lia]. }
    destruct (length data <? perPage)%nat.
    { exists 1%nat. split; [lia|]. split; [done|lia]. }
    destruct (IH (S page) (allRepos ++ data) (log ++ [repoRequest token page]))
      as (k & Hk & Hlog & _).
    exists (S k). split; [lia|]. split; [|lia].
    rewrite Hlog. cbn [seq fmap list_fmap]. by rewrite <-app_assoc.
Qed.

Lemma fetchUserRepositories_log (token : string) (log : list Request) :
  (fetchUserRepositories repoApi token log).2
  = (reposLoop repoApi token 3 1 [] log).2.
Proof.
  unfold fetchUserRepositories, bind.
  by destruct (reposLoop repoApi token 3 1 [] log) as [[e|repos] log'].
Qed.
End AccountFacts.

(** The catalog loader on pages that are served. *)
Lemma fetchUserRepositories_served
  (repoApi : Provider (list RawRepo.t)) (token : string) (p : nat → list RawRepo.t)
  (k : nat) (log : list Request) :
  (∀ i, (1 ≤ i ≤ k)%nat → servesRepos repoApi (repoRequest token i) (p i)) →
  (∀ i, (1 ≤ i < k)%nat → (100 ≤ length (p i))%nat) →
  (k = 3%nat ∨ ((1 ≤ k ≤ 3)%nat ∧ (length (p k) < 100)%nat)) →
  fetchUserRepositories repoApi token log =
  (inr (catalogRepo <$> concat (p <$> seq 1 k)), log ++ (repoRequest token <$> seq 1 k)).
Proof.
  intros Hserved Hfull Hstop. unfold fetchUserRepositories, bind.
  rewrite (reposLoop_run repoApi token k 3 1 [] log p); [done|..].
  - intros i Hi. apply Hserved. lia.
  - intros i Hi. apply Hfull. lia.
  - destruct Hstop as [?|[? Hshort]]; [by left|right].
    split; [lia|]. by replace (1 + k - 1)%nat with k by lia.
Qed.

(** X6: when the provider serves the pages asked for, the catalog loader
    returns the repositories of the pages 1 to [k], in the order of the
    provider and each with the nine fields of its raw item, and requests
    exactly these pages, where [k] is the first page with fewer than 100
    repositories or 3, whichever comes first. *)
Theorem X6_catalog_concatenates_pages
  (repoApi : Provider (list RawRepo.t)) (token : string) (p : nat → list RawRepo.t)
  (k : nat) (log : list Request) :
  (∀ i, (1 ≤ i ≤ k)%nat → servesRepos repoApi (repoRequest token i) (p i)) →
  (∀ i, (1 ≤ i < k)%nat → (100 ≤ length (p i))%nat) →
  (k = 3%nat ∨ ((1 ≤ k ≤ 3)%nat ∧ (length (p k) < 100)%nat)) →
  fetchUserRepositories repoApi token log =
  (inr (catalogRepo <$> concat (p <$> seq 1 k)), log ++ (repoRequest token <$> seq 1 k)).
Proof.
  intros Hserved Hfull Hstop.
  by rewrite (fetchUserRepositories_served repoApi token p k log Hserved Hfull Hstop).
Qed.

(** X6 at an account whose catalog is one page of three repositories. *)
Lemma X6_catalog_witness :
  fetchUserRepositories exampleRepoApi "secret" [] =
  (inr (catalogRepo <$> concat ((λ _ : nat, exampleRawRepos) <$> seq 1 1)),
   [] ++ (repoRequest "secret" <$> seq 1 1)).
Proof.
  apply (X6_catalog_concatenates_pages exampleRepoApi "secret" (λ _, exampleRawRepos) 1 []).
  - intros i Hi log. eexists. repeat split.
  - intros i Hi. lia.
  - right. split; [lia|]. cbn. lia.
Defined.

(** X7: whatever the provider answers, and whether the catalog loader
    returns or throws, it asks for the pages 1, ..., [k] of the catalog, in
    this order and with the credential in every request, for some [k] from 1
    to 3. *)
Theorem X7_catalog_requests_at_most_three_pages
  (repoApi : Provider (list RawRepo.t)) (token : string) (log : list Request) :
  ∃ k, (1 ≤ k ≤ 3)%nat ∧
       (fetchUserRepositories repoApi token log).2
       = log ++ (repoRequest token <$> seq 1 k) ∧
       Forall (λ r, ("Authorization", "token " +:+ token) ∈ req_headers r)
              (repoRequest token <$> seq 1 k).
Proof.
  destruct (reposLoop_requests repoApi token 3 1 [] log) as (k & Hk & Hlog & Hpos).
  exists k. split; [lia|]. split.
  - by rewrite fetchUserRepositories_log.
  - apply Forall_fmap, Forall_true. intros page. cbn. apply list_elem_of_here.
Qed.

(** ** Logging in ([handleLogin]) *)

Section LoginFacts.
Variable userApi : Provider GitHubUser.t.
Variable repoApi : Provider (list RawRepo.t).

(** The handler when the user cannot be fetched. *)
Lemma handleLogin_user_fails (state : AppState.t) (log : list Request) (e : Error) :
  AppState.githubToken state ≠ "" →
  (fetchAuthenticatedUser userApi (AppState.githubToken state) log).1 = inl e →
  handleLogin userApi repoApi state log =
  (inr (setError e (setLoading state)), log ++ [userRequest (AppState.githubToken state)]).
Proof.
  intros Htoken Huser. unfold handleLogin.
  destruct (decide (AppState.githubToken state = "")); [done|].
  unfold try_catch, bind at 1.
  rewrite fetchAuthenticatedUser_run in *. cbn [fst] in Huser. rewrite Huser. done.
Qed.

(** The handler when the user is fetched. *)
Lemma handleLogin_user_fetched (state : AppState.t) (log : list Request)
    (user : GitHubUser.t) :
  AppState.githubToken state ≠ "" →
  (fetchAuthenticatedUser userApi (AppState.githubToken state) log).1 = inr user →
  handleLogin userApi repoApi state log =
  match fetchUserRepositories repoApi (AppState.githubToken state)
          (log ++ [userRequest (AppState.githubToken state)]) with
  | (inr repos, log') => (inr (setLoggedIn user repos (setLoading state)), log')
  | (inl e, log') => (inr (setError e (setLoading state)), log')
  end.
Proof.
  intros Htoken Huser. unfold handleLogin.
  destruct (decide (AppState.githubToken state = "")); [done|].
  unfold try_catch, bind at 1.
  rewrite fetchAuthenticatedUser_run in *. cbn [fst] in Huser. rewrite Huser.
  unfold bind at 1.
  by destruct (fetchUserRepositories _ _ _) as [[e|repos] log'].
Qed.
End LoginFacts.

(** X8: logging in never throws and adds at most four requests to the log.
    With an empty credential it issues no request and leaves the state as it
    is.  In every case the credential, the selection, the pull requests, the
    commits, the date range and the report of the state are kept; the step
    is the one before or, with the user set and the status idle, the
    repository selection. *)
Theorem X8_login_never_throws
  (userApi : Provider GitHubUser.t) (repoApi : Provider (list RawRepo.t))
  (state : AppState.t) (log : list Request) :
  ∃ state' new,
    handleLogin userApi repoApi state log = (inr state', log ++ new) ∧
    (length new ≤ 4)%nat ∧
    (AppState.githubToken state = "" → state' = state ∧ new = []) ∧
    AppState.githubToken state' = AppState.githubToken state ∧
    AppState.selectedRepoIds state' = AppState.selectedRepoIds state ∧
    AppState.prs state' = AppState.prs state ∧
    AppState.commits state' = AppState.commits state ∧
    AppState.dateRange state' = AppState.dateRange state ∧
    AppState.generatedReport state' = AppState.generatedReport state ∧
    (AppState.step state' = AppState.step state ∨
     (AppState.step state' = StepRepoSelection ∧ is_Some (AppState.user state') ∧
      AppState.status state' = StatusIdle)).
Proof.
  destruct (decide (AppState.githubToken state = "")) as [Hempty|Htoken].
  { exists state, []. unfold handleLogin. rewrite app_nil_r.
    destruct (decide (AppState.githubToken state = "")); [|done].
    split_and!; try done; [cbn; lia|by left]. }
  destruct (fetchAuthenticatedUser userApi (AppState.githubToken state) log).1
    as [e|user] eqn:Huser.
  - rewrite (handleLogin_user_fails userApi repoApi state log e Htoken Huser).
    eexists _, _. split; [done|]. cbn.
    split_and!; try done; [lia|by left].
  - rewrite (handleLogin_user_fetched userApi repoApi state log user Htoken Huser).
    destruct (reposLoop_requests repoApi (AppState.githubToken state) 3 1 []
                (log ++ [userRequest (AppState.githubToken state)])) as (k & Hk & Hlog & _).
    rewrite <-fetchUserRepositories_log in Hlog.
    destruct (fetchUserRepositories _ _ _) as [[e|repos] log']; cbn [snd] in Hlog; subst log';
      rewrite <-app_assoc; eexists _, _; (split; [done|]); cbn;
      rewrite length_fmap, length_seq.
    + split_and!; try done; [lia|by left].
    + split_and!; try done; [lia|right; split_and!; eauto].
Qed.

(** X9: when the credential is not empty and the request for the user fails,
    logging in issues this one request and none for the catalog; the step,
    the user and the catalog of the state are the ones before, the status is
    the error status, and the error is the message of the rejection or the
    one that the status of the answer stands for. *)
Theorem X9_login_failure_stays_on_step
  (userApi : Provider GitHubUser.t) (repoApi : Provider (list RawRepo.t))
  (state : AppState.t) (log : list Request) :
  AppState.githubToken state ≠ "" →
  ∀ msg,
    match userApi log (userRequest (AppState.githubToken state)) with
    | Rejected reason => msg = reason
    | Responded response => ok response = false ∧ msg = failureMessage response
    end →
    ∃ state',
      handleLogin userApi repoApi state log
      = (inr state', log ++ [userRequest (AppState.githubToken state)]) ∧
      AppState.step state' = AppState.step state ∧
      AppState.user state' = AppState.user state ∧
      AppState.repositories state' = AppState.repositories state ∧
      AppState.status state' = StatusError ∧
      AppState.error state' = Some msg.
Proof.
  intros Htoken msg Hanswer.
  rewrite (handleLogin_user_fails userApi repoApi state log (mkError msg) Htoken).
  - eexists. split; [done|]. done.
  - rewrite fetchAuthenticatedUser_run. cbn [fst].
    destruct (userApi log _) as [reason|response].
    + by rewrite Hanswer.
    + destruct Hanswer as [-> ->]. done.
Qed.

(** X9 at an account endpoint that answers with status 401. *)
Lemma X9_login_failure_witness :
  ∃ state',
    handleLogin unauthorizedUserApi exampleRepoApi (exampleState "secret") []
    = (inr state', [] ++ [userRequest "secret"]) ∧
    AppState.step state' = StepLogin ∧
    AppState.user state' = None ∧
    AppState.repositories state' = [] ∧
    AppState.status state' = StatusError ∧
    AppState.error state' = Some "Invalid GitHub Token.".
Proof.
  apply (X9_login_failure_stays_on_step unauthorizedUserApi exampleRepoApi
           (exampleState "secret") []).
  - discriminate.
  - split; reflexivity.
Defined.

(** X10: when the credential is not empty, the user is served and the
    pages of the catalog are served, logging in ends on the repository
    selection with this user and this catalog, an idle status and no error,
    after one request for the user and one for each page of the catalog. *)
Theorem X10_login_success
  (userApi : Provider GitHubUser.t) (repoApi : Provider (list RawRepo.t))
  (state : AppState.t) (log : list Request) (user : GitHubUser.t)
  (p : nat → list RawRepo.t) (k : nat) (response : HttpResponse GitHubUser.t) :
  let token := AppState.githubToken state in
  token ≠ "" →
  userApi log (userRequest token) = Responded response →
  ok response = true → json response = inr user →
  (∀ i, (1 ≤ i ≤ k)%nat → servesRepos repoApi (repoRequest token i) (p i)) →
  (∀ i, (1 ≤ i < k)%nat → (100 ≤ length (p i))%nat) →
  (k = 3%nat ∨ ((1 ≤ k ≤ 3)%nat ∧ (length (p k) < 100)%nat)) →
  ∃ state',
    handleLogin userApi repoApi state log
    = (inr state', log ++ userRequest token :: (repoRequest token <$> seq 1 k)) ∧
    AppState.step state' = StepRepoSelection ∧
    AppState.user state' = Some user ∧
    AppState.repositories state' = catalogRepo <$> concat (p <$> seq 1 k) ∧
    AppState.status state' = StatusIdle ∧
    AppState.error state' = None.
Proof.
  intros token Htoken Hanswer Hok Hjson Hserved Hfull Hstop.
  rewrite (handleLogin_user_fetched userApi repoApi state log user Htoken).
  - fold token.
    rewrite (fetchUserRepositories_served repoApi token p k _ Hserved Hfull Hstop).
    rewrite <-app_assoc. eexists. split; [done|]. done.
  - rewrite fetchAuthenticatedUser_run. fold token. cbn [fst].
    by rewrite Hanswer, Hok, Hjson.
Qed.

(** X10 at an account whose catalog is one page of three repositories. *)
Lemma X10_login_success_witness :
  ∃ state',
    handleLogin exampleUserApi exampleRepoApi (exampleState "secret") []
    = (inr state', [] ++ userRequest "secret" :: (repoRequest "secret" <$> seq 1 1)) ∧
    AppState.step state' = StepRepoSelection ∧
    AppState.user state' = Some exampleUser ∧
    AppState.repositories state'
    = catalogRepo <$> concat ((λ _ : nat, exampleRawRepos) <$> seq 1 1) ∧
    AppState.status state' = StatusIdle ∧
    AppState.error state' = None.
Proof.
  apply (X10_login_success exampleUserApi exampleRepoApi (exampleState "secret") []
           exampleUser (λ _, exampleRawRepos) 1 (mkHttp 200 "OK" (inr exampleUser))).
  - discriminate.
  - reflexivity.
  - reflexivity.
  - reflexivity.
  - intros i Hi log. eexists. repeat split.
  - intros i Hi. lia.
  - right. split; [lia|]. cbn. lia.
Defined.

(** ** Selecting repositories ([toggleRepo], [toggleAll]) *)

Lemma toggleRepo_selected (id : Z) (s : AppState.t) (x : Z) :
  x ∈ AppState.selectedRepoIds (toggleRepo id s) ↔
  (x = id ∧ id ∉ AppState.selectedRepoIds s) ∨
  (x ≠ id ∧ x ∈ AppState.selectedRepoIds s).
Proof.
  unfold toggleRepo. cbn.
  destruct (decide (id ∈ AppState.selectedRepoIds s)) as [Hin|Hout].
  - rewrite elem_of_difference, elem_of_singleton.
    destruct (decide (x = id)) as [ -> | Hne]; tauto.
  - rewrite elem_of_union, elem_of_singleton.
    destruct (decide (x = id)) as [ -> | Hne]; tauto.
Qed.

(** X11: toggling a repository flips its membership in the selection and no
    other; doing it twice gives the state back. *)
Theorem X11_toggleRepo_flips_one_membership :
  (∀ (id : Z) (s : AppState.t) (x : Z),
     x ∈ AppState.selectedRepoIds (toggleRepo id s) ↔
     (x = id ∧ id ∉ AppState.selectedRepoIds s) ∨
     (x ≠ id ∧ x ∈ AppState.selectedRepoIds s))
  ∧ (∀ (id : Z) (s : AppState.t), toggleRepo id (toggleRepo id s) = s).
Proof.
  split; [apply toggleRepo_selected|].
  intros id s. destruct s as [step user token repos selected range status err prs commits report].
  unfold toggleRepo. cbn. f_equal.
  destruct (decide (id ∈ selected)) as [Hin|Hout].
  - destruct (decide (id ∈ selected ∖ {[id]})) as [Hin'|_].
    { apply elem_of_difference in Hin' as [_ Hne]. by rewrite elem_of_singleton in Hne. }
    apply set_eq. intros x.
    rewrite elem_of_union, elem_of_difference, elem_of_singleton.
    destruct (decide (x = id)) as [ -> | Hne]; tauto.
  - destruct (decide (id ∈ selected ∪ {[id]})) as [_|Hout'].
    2:{ exfalso. apply Hout'. apply elem_of_union_r. by apply elem_of_singleton. }
    apply set_eq. intros x.
    rewrite elem_of_difference, elem_of_union, elem_of_singleton.
    destruct (decide (x = id)) as [ -> | Hne]; tauto.
Qed.

Section ToggleAllFacts.
Variable snapshot : gset Z.

(** The updaters of the "select all visible" branch, run on a state in which
    none of the visible repositories outside the snapshot is selected. *)
Lemma select_visible (visible : list GitHubRepo.t) :
  ∀ s : AppState.t,
    NoDup (GitHubRepo.id <$> visible) →
    (∀ r, r ∈ visible → GitHubRepo.id r ∉ snapshot →
          GitHubRepo.id r ∉ AppState.selectedRepoIds s) →
    ∀ x, x ∈ AppState.selectedRepoIds
           (foldl (λ s r, if decide (GitHubRepo.id r ∈ snapshot)
                          then s else toggleRepo (GitHubRepo.id r) s) s visible) ↔
         x ∈ AppState.selectedRepoIds s ∨
         (x ∈ GitHubRepo.id <$> visible ∧ x ∉ snapshot).
Proof.
  induction visible as [|r visible IH]; intros s Hdup Hfresh x.
  - cbn. rewrite elem_of_nil. tauto.
  - cbn [foldl fmap list_fmap] in *. apply NoDup_cons in Hdup as [Hr Hdup].
    rewrite IH; [|done|].
    + destruct (decide (GitHubRepo.id r ∈ snapshot)) as [Hin|Hout].
      * rewrite elem_of_cons. split; [tauto|].
        intros [?|[[->|?] ?]]; tauto.
      * rewrite toggleRepo_selected, elem_of_cons.
        assert (GitHubRepo.id r ∉ AppState.selectedRepoIds s) as Hnot.
        { apply Hfresh; [apply list_elem_of_here|done]. }
        destruct (decide (x = GitHubRepo.id r)) as [->|Hne]; [tauto|]. tauto.
    + intros r' Hr' Hout'. destruct (decide (GitHubRepo.id r ∈ snapshot)).
      * apply Hfresh; [by apply list_elem_of_further|done].
      * rewrite toggleRepo_selected. intros [[Heq _]|[_ Hin]].
        -- apply Hr. rewrite <-Heq. by apply list_elem_of_fmap_2.
        -- revert Hin. apply Hfresh; [by apply list_elem_of_further|done].
Qed.

(** The updaters of the "deselect all visible" branch, run on a state in
    which every visible repository of the snapshot is selected. *)
Lemma deselect_visible (visible : list GitHubRepo.t) :
  ∀ s : AppState.t,
    NoDup (GitHubRepo.id <$> visible) →
    (∀ r, r ∈ visible → GitHubRepo.id r ∈ snapshot →
          GitHubRepo.id r ∈ AppState.selectedRepoIds s) →
    ∀ x, x ∈ AppState.selectedRepoIds
           (foldl (λ s r, if decide (GitHubRepo.id r ∈ snapshot)
                          then toggleRepo (GitHubRepo.id r) s else s) s visible) ↔
         x ∈ AppState.selectedRepoIds s ∧
         ¬ (x ∈ GitHubRepo.id <$> visible ∧ x ∈ snapshot).
Proof.
  induction visible as [|r visible IH]; intros s Hdup Hsel x.
  - cbn. rewrite elem_of_nil. tauto.
  - cbn [foldl fmap list_fmap] in *. apply NoDup_cons in Hdup as [Hr Hdup].
    rewrite IH; [|done|].
    + destruct (decide (GitHubRepo.id r ∈ snapshot)) as [Hin|Hout].
      * rewrite toggleRepo_selected, elem_of_cons.
        assert (GitHubRepo.id r ∈ AppState.selectedRepoIds s) as Hyes.
        { apply Hsel; [apply list_elem_of_here|done]. }
        destruct (decide (x = GitHubRepo.id r)) as [->|Hne]; [tauto|]. tauto.
      * rewrite elem_of_cons. split; [|tauto].
        intros [Hx Hnot]. split; [done|]. intros [[->|?] ?]; tauto.
    + intros r' Hr' Hin'. destruct (decide (GitHubRepo.id r ∈ snapshot)).
      * rewrite toggleRepo_selected. right. split.
        -- intros Heq. apply Hr. rewrite <-Heq. by apply list_elem_of_fmap_2.
        -- apply Hsel; [by apply list_elem_of_further|done].
      * apply Hsel; [by apply list_elem_of_further|done].
Qed.
End ToggleAllFacts.

(** X12: in a catalog without two repositories of the same id, "toggle all"
    on the repositories that the search shows, with the selection of the
    state as the one of the last render, deselects all of them when all of
    them were selected, and selects all of them otherwise; a repository that
    the search hides keeps its place in or out of the selection. *)
Theorem X12_toggleAll_selects_or_deselects_visible
  (toLowerCase : string → string) (repos : list GitHubRepo.t) (search : string)
  (s : AppState.t) :
  NoDup (GitHubRepo.id <$> repos) →
  let visible := filteredRepos toLowerCase repos search in
  let after := AppState.selectedRepoIds (toggleAll visible (AppState.selectedRepoIds s) s) in
  ∀ x,
    x ∈ after ↔
    if decide (Forall (λ r, GitHubRepo.id r ∈ AppState.selectedRepoIds s) visible)
    then x ∈ AppState.selectedRepoIds s ∧ x ∉ GitHubRepo.id <$> visible
    else x ∈ AppState.selectedRepoIds s ∨ x ∈ GitHubRepo.id <$> visible.
Proof.
  intros Hdup visible after x. unfold after, toggleAll.
  assert (NoDup (GitHubRepo.id <$> visible)) as Hvisible.
  { eapply sublist_NoDup; [exact Hdup|]. apply fmap_sublist, sublist_filter. }
  destruct (decide (Forall _ visible)) as [Hall|Hnot].
  - rewrite deselect_visible; [|done|tauto].
    split; [|tauto]. intros [Hx Hno]. split; [done|]. intros Hin. apply Hno.
    split; [done|]. apply list_elem_of_fmap in Hin as (r & -> & Hr).
    by eapply Forall_forall in Hall.
  - rewrite select_visible; [|done|tauto].
    destruct (decide (x ∈ AppState.selectedRepoIds s)); tauto.
Qed.

(** X12 at a catalog of two repositories of which the first is selected
    and the search shows both: the second is selected afterwards. *)
Lemma X12_toggleAll_witness :
  2 ∈ AppState.selectedRepoIds
        (toggleAll (filteredRepos (λ s, s)
                      [repoAt 1 "https://host/org/a" "https://api.host/repos/org/a";
                       repoAt 2 "https://host/org/b" "https://api.host/repos/org/b"] "org")
           (AppState.selectedRepoIds (toggleRepo 1 (exampleState "secret")))
           (toggleRepo 1 (exampleState "secret"))).
Proof.
  pose proof (X12_toggleAll_selects_or_deselects_visible (λ s, s)
                [repoAt 1 "https://host/org/a" "https://api.host/repos/org/a";
                 repoAt 2 "https://host/org/b" "https://api.host/repos/org/b"] "org"
                (toggleRepo 1 (exampleState "secret"))) as Hall.
  cbv zeta in Hall. apply Hall.
  - apply NoDup_cons. split.
    + intros Hin. apply list_elem_of_singleton in Hin. discriminate.
    + apply NoDup_singleton.
  - assert (repoAt 2 "https://host/org/b" "https://api.host/repos/org/b"
            ∈ filteredRepos (λ s, s)
                [repoAt 1 "https://host/org/a" "https://api.host/repos/org/a";
                 repoAt 2 "https://host/org/b" "https://api.host/repos/org/b"] "org")
      as Hshown.
    { apply list_elem_of_filter. split; [reflexivity|].
      apply list_elem_of_further, list_elem_of_here. }
    destruct (decide (Forall _ _)) as [Hforall|_].
    + exfalso. eapply Forall_forall in Hforall; [|exact Hshown].
      apply toggleRepo_selected in Hforall as [[Heq _]|[_ Hin]]; [discriminate|].
      by apply elem_of_empty in Hin.
    + right. by apply (list_elem_of_fmap_2 GitHubRepo.id) in Hshown.
Defined.

(** ** More on the repository reconciler *)

Lemma filter_sublist_impl {A} (P Q : A → Prop) `{!∀ x, Decision (P x)}
    `{!∀ x, Decision (Q x)} (l : list A) :
  (∀ x, P x → Q x) → filter P l `sublist_of` filter Q l.
Proof.
  intros Himpl. induction l as [|x l IH]; [done|].
  rewrite (filter_cons P x l), (filter_cons Q x l).
  destruct (decide (P x)) as [HP|HP], (decide (Q x)) as [HQ|HQ].
  - by apply sublist_skip.
  - by destruct HQ; auto.
  - by apply sublist_cons.
  - done.
Qed.

Lemma filter_none {A} (P : A → Prop) `{!∀ x, Decision (P x)} (l : list A) :
  (∀ x, ¬ P x) → filter P l = [].
Proof.
  intros Hnone. induction l as [|x l IH]; [done|].
  rewrite filter_cons. destruct (decide (P x)) as [HP|_]; [by destruct (Hnone x)|done].
Qed.



(** X14: only the selected ids that the catalog has count: the reconciler
    gives the same lists for a selection and for its part within the
    catalog; with nothing selected, or with an empty catalog, it keeps
    nothing. *)
Theorem X14_reconcile_reads_selection_within_catalog
  (repositories : list GitHubRepo.t) (selected : gset Z)
  (allPrs : list GitHubPR.t) (allCommits : list GitHubCommit.t) :
  reconcile repositories selected allPrs allCommits
  = reconcile repositories
      (selected ∩ list_to_set (GitHubRepo.id <$> repositories)) allPrs allCommits
  ∧ reconcile repositories ∅ allPrs allCommits = ([], [])
  ∧ reconcile [] selected allPrs allCommits = ([], []).
Proof.
  unfold reconcile, filterPrs, filterCommits. split_and!.
  - f_equal.
    + apply list_filter_iff. intros pr. rewrite !elem_of_selectedRepoUrls.
      split; intros (r & Hr & Hsel & Hurl); exists r; split_and!; try done.
      * apply elem_of_intersection. split; [done|].
        apply elem_of_list_to_set. by apply list_elem_of_fmap_2.
      * by apply elem_of_intersection in Hsel as [? _].
    + apply list_filter_iff. intros c. rewrite !commitMatches_spec.
      split; intros (r & Hr & Hsel & Hrest); exists r; split_and!; try done.
      * apply elem_of_intersection. split; [done|].
        apply elem_of_list_to_set. by apply list_elem_of_fmap_2.
      * by apply elem_of_intersection in Hsel as [? _].
  - f_equal.
    + apply filter_none. intros pr. rewrite elem_of_selectedRepoUrls.
      intros (r & _ & Hsel & _). by apply elem_of_empty in Hsel.
    + apply filter_none. intros c. rewrite commitMatches_spec.
      intros (r & _ & Hsel & _). by apply elem_of_empty in Hsel.
  - f_equal.
    + apply filter_none. intros pr. rewrite elem_of_selectedRepoUrls.
      intros (r & Hr & _). by apply elem_of_nil in Hr.
    + apply filter_none. intros c. rewrite commitMatches_spec.
      intros (r & Hr & _). by apply elem_of_nil in Hr.
Qed.

(** ** The name of a repository ([getRepoName]) *)

Lemma split_last (sep : ascii) (s : string) :
  ∃ segment segments name,
    split sep s = segment :: segments ∧
    last (segment :: segments) = Some name ∧
    lacks sep name ∧
    match segments with
    | [] => s = name
    | _ :: _ => ∃ prefix, s = prefix +:+ String sep name
    end.
Proof.
  induction s as [|c s IH].
  - by exists "", [], "".
  - destruct IH as (segment & segments & name & Hsplit & Hlast & Hlacks & Hshape).
    cbn [split]. destruct (decide (c = sep)) as [ -> | Hne].
    + exists "", (segment :: segments), name. rewrite Hsplit.
      split_and!; try done.
      destruct segments as [|segment' segments].
      * subst s. by exists "".
      * destruct Hshape as [prefix ->]. exists (String sep prefix).
        by rewrite append_cons.
    + rewrite Hsplit. exists (String c segment), segments.
      destruct segments as [|segment' segments].
      * cbn in Hlast. injection Hlast as ->. subst s.
        exists (String c name). by split_and!.
      * destruct Hshape as [prefix ->]. exists name. split_and!; try done.
        exists (String c prefix). by rewrite append_cons.
Qed.

(** X15: the name shown for a repository is the part of the address after
    its last slash, the whole address when it has no slash; the fallback
    name is never what decides. *)
Theorem X15_getRepoName_is_last_segment (url : string) :
  lacks "/" (getRepoName url) ∧
  ((url = getRepoName url ∧ split "/" url = [url]) ∨
   ∃ prefix, url = prefix +:+ "/" +:+ getRepoName url).
Proof.
  unfold getRepoName.
  destruct (split_last "/" url)
    as (segment & segments & name & Hsplit & Hlast & Hlacks & Hshape).
  rewrite Hsplit, Hlast. split; [done|].
  destruct segments as [|segment' segments].
  - left. cbn in Hlast. injection Hlast as ->. by subst url.
  - right. destruct Hshape as [prefix ->]. by exists prefix.
Qed.

(** ** The search of the repository selector ([filteredRepos]) *)

Lemma includes_spec (s sub : string) :
  includes s sub = true ↔ ∃ before after, s = before +:+ sub +:+ after.
Proof.
  induction s as [|c s IH].
  - cbn [includes]. destruct (String.prefix sub "") eqn:Hprefix.
    + split; [|done]. intros _. apply (startsWith_spec "" sub) in Hprefix as [rest ->].
      by exists "", rest.
    + split; [done|]. intros (before & after & Heq).
      destruct before; [|discriminate]. cbn in Heq.
      assert (startsWith "" sub = true) as Hyes by (apply startsWith_spec; eauto).
      unfold startsWith in Hyes. congruence.
  - cbn [includes]. destruct (String.prefix sub (String c s)) eqn:Hprefix.
    + split; [|done]. intros _.
      apply (startsWith_spec (String c s) sub) in Hprefix as [rest ->].
      by exists "", rest.
    + rewrite IH. split.
      * intros (before & after & ->). exists (String c before), after.
        by rewrite append_cons.
      * intros (before & after & Heq). destruct before as [|b before].
        -- assert (startsWith (String c s) sub = true) as Hyes.
           { apply startsWith_spec. exists after. exact Heq. }
           unfold startsWith in Hyes. congruence.
        -- rewrite append_cons in Heq. injection Heq as -> ->. eauto.
Qed.

(** X16: the search shows, in the order of the catalog, the repositories
    whose lower-cased full name has the lower-cased search text somewhere
    inside it, and no other; a search text whose lower-case form is empty
    shows the whole catalog. *)
Theorem X16_search_shows_names_containing_text
  (toLowerCase : string → string) (repos : list GitHubRepo.t) (search : string) :
  filteredRepos toLowerCase repos search `sublist_of` repos ∧
  (∀ repo, repo ∈ filteredRepos toLowerCase repos search ↔
           repo ∈ repos ∧
           ∃ before after,
             toLowerCase (GitHubRepo.full_name repo)
             = before +:+ toLowerCase search +:+ after) ∧
  (toLowerCase search = "" → filteredRepos toLowerCase repos search = repos).
Proof.
  unfold filteredRepos. split_and!.
  - apply sublist_filter.
  - intros repo. rewrite list_elem_of_filter, includes_spec. tauto.
  - intros Hempty. rewrite Hempty.
    induction repos as [|repo repos IH]; [done|].
    rewrite filter_cons. destruct (decide _) as [_|Hno]; [by rewrite IH|].
    destruct Hno. apply includes_spec. by exists "", (toLowerCase (GitHubRepo.full_name repo)).
Qed.

(** ** Counts of the timeline *)

Lemma countDates_cons (Date_parse : string → Date) (P : Z → bool) (d : string)
    (dates : list string) :
  countDates Date_parse P (d :: dates)
  = (if dateHolds Date_parse P d then 1 else 0) + countDates Date_parse P dates.
Proof.
  unfold countDates. rewrite filter_cons.
  destruct (decide (dateHolds Date_parse P d = true)) as [ -> | Hno].
  - cbn [length]. lia.
  - destruct (dateHolds Date_parse P d); [done|]. lia.
Qed.

Lemma countDates_ext (Date_parse : string → Date) (P Q : Z → bool) (dates : list string) :
  (∀ t, P t = Q t) → countDates Date_parse P dates = countDates Date_parse Q dates.
Proof.
  intros Hext. induction dates as [|d dates IH]; [done|].
  rewrite !countDates_cons, IH. unfold dateHolds.
  destruct (Date_parse d); [by rewrite Hext|done].
Qed.

Lemma countDates_range (Date_parse : string → Date) (P : Z → bool) (dates : list string) :
  0 ≤ countDates Date_parse P dates ≤ Z.of_nat (length dates).
Proof.
  induction dates as [|d dates IH]; [done|].
  rewrite countDates_cons. cbn [length].
  destruct (dateHolds Date_parse P d); lia.
Qed.

Lemma total_perm (count : ChartData → Z) (l1 l2 : list ChartData) :
  l1 ≡ₚ l2 → total count l1 = total count l2.
Proof. unfold total. induction 1; cbn [foldr]; lia. Qed.

Lemma fmap_id_ext {A} (f : A → A) (l : list A) : (∀ x, f x = x) → f <$> l = l.
Proof.
  intros Hid. induction l as [|x l IH]; [done|].
  cbn [fmap list_fmap]. rewrite Hid. f_equal. exact IH.
Qed.

Lemma Map_mutate_absent (m : DataMap) (k : string) (f : ChartData → ChartData) :
  Map_get m k = None → Map_mutate m k f = m.
Proof.
  induction m as [|[k' v'] m IH]; [done|]. cbn [Map_get Map_mutate].
  destruct (decide (k' = k)); [done|]. intros Hget. by rewrite IH.
Qed.

Lemma Map_mutate_NoDup (m : DataMap) (k : string) (f : ChartData → ChartData) :
  NoDup m.*1 →
  Map_mutate m k f = (λ kb, if decide (kb.1 = k) then (kb.1, f kb.2) else kb) <$> m.
Proof.
  induction m as [|[k' v'] m IH]; [done|].
  cbn [fmap list_fmap fst snd Map_mutate]. intros Hdup.
  apply NoDup_cons in Hdup as [Hfresh Hdup].
  destruct (decide (k' = k)) as [ -> | Hne].
  - f_equal. symmetry. clear IH Hdup.
    induction m as [|[k'' v''] m IH]; [done|].
    cbn [fmap list_fmap fst snd] in *. apply not_elem_of_cons in Hfresh as [Hne Hfresh].
    destruct (decide (k'' = k)); [done|]. f_equal. by apply IH.
  - f_equal. by apply IH.
Qed.

Lemma Map_set_keys (m : DataMap) (k : string) (v : ChartData) :
  (Map_set m k v).*1 = if decide (k ∈ m.*1) then m.*1 else m.*1 ++ [k].
Proof.
  induction m as [|[k' v'] m IH]; [done|].
  cbn [Map_set fmap list_fmap fst].
  destruct (decide (k' = k)) as [ -> | Hne].
  - cbn [fmap list_fmap fst].
    destruct (decide (k ∈ k :: m.*1)) as [_|Hno]; [done|].
    destruct Hno. apply list_elem_of_here.
  - cbn [fmap list_fmap fst]. rewrite IH.
    destruct (decide (k ∈ m.*1)) as [Hin|Hout].
    + destruct (decide (k ∈ k' :: m.*1)) as [_|Hno]; [done|].
      destruct Hno. by apply list_elem_of_further.
    + destruct (decide (k ∈ k' :: m.*1)) as [Hin|_]; [|done].
      apply elem_of_cons in Hin as [ -> | Hin]; done.
Qed.

Lemma Map_set_NoDup (m : DataMap) (k : string) (v : ChartData) :
  NoDup m.*1 → NoDup (Map_set m k v).*1.
Proof.
  intros Hdup. rewrite Map_set_keys. destruct (decide (k ∈ m.*1)) as [Hin|Hout]; [done|].
  apply NoDup_app. split_and!; [done| |apply NoDup_singleton].
  intros x Hx Hk. apply list_elem_of_singleton in Hk as ->. done.
Qed.

Lemma Map_set_Forall (P : string * ChartData → Prop) (m : DataMap) (k : string)
    (v : ChartData) :
  Forall P m → P (k, v) → Forall P (Map_set m k v).
Proof.
  intros Hm Hkv. induction m as [|[k' v'] m IH]; [by repeat constructor|].
  apply Forall_cons in Hm as [Hhead Hm]. cbn [Map_set].
  destruct (decide (k' = k)); constructor; auto.
Qed.

Lemma Map_set_length (m : DataMap) (k : string) (v : ChartData) :
  (length (Map_set m k v) ≤ S (length m))%nat.
Proof.
  induction m as [|[k' v'] m IH]; [done|]. cbn [Map_set].
  destruct (decide (k' = k)); cbn [length]; lia.
Qed.

(** What the loop keeps true of the map: distinct keys, every bucket under
    its own key and counting nothing. *)
Lemma fillBuckets_invariant (LocalTZA : Z) (toLocaleDateString : Z → LabelOptions → string)
    (fuel : nat) :
  ∀ (isMonthly : bool) (endTarget current : Date) (loops : Z) (dataMap dataMap' : DataMap),
    fillBuckets LocalTZA toLocaleDateString fuel isMonthly endTarget current loops dataMap
    = Returns dataMap' →
    0 ≤ loops →
    NoDup dataMap.*1 →
    Forall (λ kb, key kb.2 = kb.1 ∧ PRs kb.2 = 0 ∧ Commits kb.2 = 0) dataMap →
    NoDup dataMap'.*1 ∧
    Forall (λ kb, key kb.2 = kb.1 ∧ PRs kb.2 = 0 ∧ Commits kb.2 = 0) dataMap' ∧
    Z.of_nat (length dataMap') ≤ Z.of_nat (length dataMap) + Z.max 0 (1001 - loops).
Proof.
  induction fuel as [|fuel IH];
    intros isMonthly endTarget current loops dataMap dataMap' Hrun Hloops Hdup Hall;
    [done|].
  cbn [fillBuckets] in Hrun.
  destruct (loopCondition LocalTZA isMonthly current endTarget).
  2:{ injection Hrun as <-. split_and!; [done|done|lia]. }
  destruct (Z.ltb_spec 1000 loops) as [Hbreak|Hgo].
  { injection Hrun as <-. split_and!; [done|done|lia]. }
  destruct current as [t|].
  2:{ injection Hrun as <-. split_and!; [done|done|lia]. }
  destruct (if isMonthly then inr (monthKey LocalTZA t) else dayKey (Some t))
    as [e|k]; [done|].
  apply IH in Hrun as (Hdup' & Hall' & Hlength).
  - split_and!; [done|done|].
    pose proof (Map_set_length dataMap k
                  (mkChartData k (toLocaleDateString t
                     (if isMonthly then MonthShortYear2Digit else MonthShortDayNumeric))
                     0 0 t)).
    lia.
  - lia.
  - by apply Map_set_NoDup.
  - by apply Map_set_Forall.
Qed.

Section CountFacts.
Variable Date_parse : string → Date.
Variable LocalTZA : Z.
Variable toLocaleDateString : Z → LabelOptions → string.

Lemma processItem_closed (isMonthly : bool) (dataMap : DataMap) (dateStr : string)
    (type : EventType) :
  processItem Date_parse LocalTZA isMonthly dataMap dateStr type
  = Returns match Date_parse dateStr with
            | Some t => Map_mutate dataMap (eventKey LocalTZA isMonthly t) (increment type)
            | None => dataMap
            end.
Proof.
  unfold processItem, getTime, eventKey.
  destruct (Date_parse dateStr) as [t|]; [|done].
  destruct isMonthly; unfold dayKey, toISOString.
  - destruct (Map_get dataMap (monthKey LocalTZA t)) eqn:Hget; [done|].
    by rewrite Map_mutate_absent.
  - destruct (Map_get dataMap _) eqn:Hget; [done|].
    by rewrite Map_mutate_absent.
Qed.

Lemma counted_increment (type : EventType) (c : Z) (b : ChartData) :
  counted type c (increment type b) = counted type (1 + c) b.
Proof. destruct type; unfold counted, increment; cbn; f_equal; lia. Qed.

(** The map after the events of one type: every bucket has gained the number
    of events that the host reads as a time of its key. *)
Lemma processAll_closed (isMonthly : bool) (type : EventType) (dates : list string) :
  ∀ dataMap,
    NoDup dataMap.*1 →
    processAll Date_parse LocalTZA isMonthly type dates dataMap
    = Returns ((λ kb, (kb.1,
                       counted type
                         (countDates Date_parse
                            (λ t, bool_decide (eventKey LocalTZA isMonthly t = kb.1)) dates)
                         kb.2)) <$> dataMap).
Proof.
  induction dates as [|d dates IH]; intros dataMap Hdup.
  - cbn [processAll]. f_equal. symmetry. apply fmap_id_ext.
    intros [k [bk bl bp bc bt]]. unfold countDates. cbn. destruct type; cbn; do 2 f_equal; lia.
  - cbn [processAll]. rewrite processItem_closed.
    destruct (Date_parse d) as [t|] eqn:Hparse.
    + rewrite Map_mutate_NoDup by done. rewrite IH.
      2:{ rewrite <-list_fmap_compose.
          replace (fmap (fst ∘ _) dataMap) with (dataMap.*1); [done|].
          apply list_fmap_ext. intros i [k b] _. cbn. by destruct (decide _). }
      f_equal. rewrite <-list_fmap_compose. apply list_fmap_ext.
      intros i [k b] _. cbn [compose fst snd].
      rewrite countDates_cons. unfold dateHolds. rewrite Hparse.
      destruct (decide (k = eventKey LocalTZA isMonthly t)) as [Heq|Hne]; cbn [fst snd].
      * rewrite (bool_decide_eq_true_2 (eventKey LocalTZA isMonthly t = k)) by done.
        by rewrite counted_increment.
      * rewrite (bool_decide_eq_false_2 (eventKey LocalTZA isMonthly t = k)) by done.
        done.
    + rewrite IH by done. f_equal. apply list_fmap_ext. intros i [k b] _. cbn [fst snd].
      rewrite countDates_cons. unfold dateHolds. by rewrite Hparse.
Qed.

(** Over distinct keys, an event is counted once when its key is among them
    and not at all when it is not. *)
Lemma count_over_keys (isMonthly : bool) (dates : list string) (keys : list string) :
  NoDup keys →
  foldr (λ k acc, countDates Date_parse
                    (λ t, bool_decide (eventKey LocalTZA isMonthly t = k)) dates + acc)
        0 keys
  = countDates Date_parse (λ t, bool_decide (eventKey LocalTZA isMonthly t ∈ keys)) dates.
Proof.
  intros Hdup. induction dates as [|d dates IH].
  - unfold countDates. cbn. induction keys as [|k keys IHk]; [done|].
    cbn [foldr]. apply NoDup_cons in Hdup as [_ Hdup]. by rewrite IHk.
  - rewrite countDates_cons, <-IH. clear IH.
    induction keys as [|k keys IHk].
    + cbn [foldr]. unfold dateHolds. destruct (Date_parse d) as [t|]; [|done].
      rewrite bool_decide_eq_false_2; [done|]. apply not_elem_of_nil.
    + apply NoDup_cons in Hdup as [Hfresh Hdup]. cbn [foldr].
      rewrite IHk by done. rewrite countDates_cons.
      unfold dateHolds. destruct (Date_parse d) as [t|]; [|lia].
      destruct (decide (eventKey LocalTZA isMonthly t = k)) as [Heq|Hne].
      * rewrite (bool_decide_eq_true_2 (_ = k)) by done.
        rewrite (bool_decide_eq_true_2 (_ ∈ k :: keys)) by (rewrite Heq; apply list_elem_of_here).
        rewrite (bool_decide_eq_false_2 (_ ∈ keys)) by (by rewrite Heq). lia.
      * rewrite (bool_decide_eq_false_2 (_ = k)) by done.
        destruct (decide (eventKey LocalTZA isMonthly t ∈ keys)) as [Hin|Hout].
        -- rewrite (bool_decide_eq_true_2 (_ ∈ keys)) by done.
           rewrite (bool_decide_eq_true_2 (_ ∈ k :: keys))
             by (by apply list_elem_of_further). lia.
        -- rewrite (bool_decide_eq_false_2 (_ ∈ keys)) by done.
           rewrite (bool_decide_eq_false_2 (_ ∈ k :: keys)); [lia|].
           apply not_elem_of_cons. done.
Qed.
End CountFacts.

Section TimelineCounts.
Variable Date_parse : string → Date.
Variable LocalTZA : Z.
Variable toLocaleDateString : Z → LabelOptions → string.

(** The value of [chartData] in closed form: the buckets that the loop
    created, each with the number of events of its key, sorted. *)
Lemma chartData_closed (prs : list GitHubPR.t) (commits : list GitHubCommit.t)
    (startDate endDate : string) :
  let start := Date_parse startDate in
  let end_ := Date_parse endDate in
  let isMonthly := isMonthlyRange start end_ in
  ∃ dataMap,
    fillBuckets LocalTZA toLocaleDateString 1003 isMonthly
      (if isMonthly then setDate LocalTZA end_ (Some 1) else end_)
      (if isMonthly then setDate LocalTZA start (Some 1) else start) 0 []
    = Returns dataMap ∧
    NoDup dataMap.*1 ∧
    Forall (λ kb, key kb.2 = kb.1 ∧ PRs kb.2 = 0 ∧ Commits kb.2 = 0) dataMap ∧
    (length dataMap ≤ 1001)%nat ∧
    chartData Date_parse LocalTZA toLocaleDateString prs commits startDate endDate
    = Returns
        (sortByTimestamp
           ((λ kb, mkChartData (key kb.2) (label kb.2)
                     (countDates Date_parse
                        (λ t, bool_decide (eventKey LocalTZA isMonthly t = kb.1))
                        (GitHubPR.created_at <$> prs))
                     (countDates Date_parse
                        (λ t, bool_decide (eventKey LocalTZA isMonthly t = kb.1))
                        (GitHubCommit.date <$> commits))
                     (timestamp kb.2)) <$> dataMap)).
Proof.
  intros start end_ isMonthly.
  destruct (fillBuckets_returns LocalTZA toLocaleDateString 1003 isMonthly
              (if isMonthly then setDate LocalTZA end_ (Some 1) else end_)
              (if isMonthly then setDate LocalTZA start (Some 1) else start) 0 [])
    as (dataMap & Hloop & _); [lia|lia|].
  destruct (fillBuckets_invariant LocalTZA toLocaleDateString 1003 _ _ _ 0 [] dataMap Hloop)
    as (Hdup & Hall & Hlength); [lia|constructor|constructor|].
  exists dataMap. split_and!; [done|done|done|cbn [length] in Hlength; lia|].
  unfold chartData. fold start end_ isMonthly. rewrite Hloop.
  rewrite processAll_closed by done.
  rewrite processAll_closed.
  2:{ rewrite <-list_fmap_compose.
      replace (fmap (fst ∘ _) dataMap) with (dataMap.*1); [done|].
      apply list_fmap_ext. by intros i [k b] _. }
  f_equal. f_equal. unfold Map_values. rewrite <-!list_fmap_compose.
  apply Forall_fmap_ext_1. eapply Forall_impl; [exact Hall|].
  intros [k b] (Hkey & Hprs & Hcommits). cbn [compose fst snd counted PRs Commits key label
                                              timestamp] in *.
  rewrite Hprs, Hcommits. f_equal; lia.
Qed.
End TimelineCounts.

Lemma total_fmap_keys (count : string → Z) (f : string * ChartData → ChartData)
    (g : ChartData → Z) (m : DataMap) :
  (∀ kb, g (f kb) = count kb.1) →
  total g (f <$> m) = foldr (λ k acc, count k + acc) 0 m.*1.
Proof.
  intros Hcount. unfold total. induction m as [|kb m IH]; [done|].
  cbn [fmap list_fmap foldr]. by rewrite Hcount, <-IH.
Qed.

(** X17: for every input whatsoever the timeline has at most 1001 buckets,
    under keys that are all different, and it counts every event once or not
    at all: the pull-request counts of the buckets add up to the number of
    pull requests whose creation time the host can read and whose key is
    the key of a bucket, and the commit counts to the number of such
    commits; so no count is more than the number of events given. *)
Theorem X17_timeline_counts_each_event_at_most_once
  (Date_parse : string → Date) (LocalTZA : Z)
  (toLocaleDateString : Z → LabelOptions → string)
  (prs : list GitHubPR.t) (commits : list GitHubCommit.t) (startDate endDate : string) :
  let isMonthly := isMonthlyRange (Date_parse startDate) (Date_parse endDate) in
  ∃ buckets,
    chartData Date_parse LocalTZA toLocaleDateString prs commits startDate endDate
    = Returns buckets ∧
    (length buckets ≤ 1001)%nat ∧
    NoDup (key <$> buckets) ∧
    total PRs buckets
    = countDates Date_parse
        (λ t, bool_decide (eventKey LocalTZA isMonthly t ∈ key <$> buckets))
        (GitHubPR.created_at <$> prs) ∧
    total Commits buckets
    = countDates Date_parse
        (λ t, bool_decide (eventKey LocalTZA isMonthly t ∈ key <$> buckets))
        (GitHubCommit.date <$> commits) ∧
    total PRs buckets ≤ Z.of_nat (length prs) ∧
    total Commits buckets ≤ Z.of_nat (length commits).
Proof.
  intros isMonthly.
  destruct (chartData_closed Date_parse LocalTZA toLocaleDateString prs commits
              startDate endDate) as (dataMap & _ & Hdup & Hall & Hlength & Hrun).
  fold isMonthly in Hrun.
  eexists. split; [exact Hrun|].
  set (bucket := λ kb : string * ChartData, mkChartData _ _ _ _ _) in *.
  assert (key <$> sortByTimestamp (bucket <$> dataMap) ≡ₚ dataMap.*1) as Hkeys.
  { rewrite sortByTimestamp_perm, <-list_fmap_compose.
    replace (fmap (key ∘ bucket) dataMap) with (dataMap.*1); [done|].
    apply Forall_fmap_ext_1. eapply Forall_impl; [exact Hall|].
    intros [k b] (Hkey & _). by rewrite <-Hkey. }
  assert (∀ dates,
            countDates Date_parse
              (λ t, bool_decide (eventKey LocalTZA isMonthly t
                                 ∈ key <$> sortByTimestamp (bucket <$> dataMap))) dates
            = countDates Date_parse
                (λ t, bool_decide (eventKey LocalTZA isMonthly t ∈ dataMap.*1)) dates)
    as Hsame.
  { intros dates. apply countDates_ext. intros t. apply bool_decide_ext.
    by rewrite Hkeys. }
  assert (total PRs (sortByTimestamp (bucket <$> dataMap))
          = countDates Date_parse
              (λ t, bool_decide (eventKey LocalTZA isMonthly t ∈ dataMap.*1))
              (GitHubPR.created_at <$> prs)) as Hprs.
  { rewrite (total_perm PRs _ _ (sortByTimestamp_perm _)).
    rewrite <-(count_over_keys Date_parse LocalTZA isMonthly _ _ Hdup).
    by apply total_fmap_keys. }
  assert (total Commits (sortByTimestamp (bucket <$> dataMap))
          = countDates Date_parse
              (λ t, bool_decide (eventKey LocalTZA isMonthly t ∈ dataMap.*1))
              (GitHubCommit.date <$> commits)) as Hcommits.
  { rewrite (total_perm Commits _ _ (sortByTimestamp_perm _)).
    rewrite <-(count_over_keys Date_parse LocalTZA isMonthly _ _ Hdup).
    by apply total_fmap_keys. }
  split_and!.
  - by rewrite sortByTimestamp_perm, length_fmap.
  - by rewrite Hkeys.
  - by rewrite Hsame.
  - by rewrite Hsame.
  - rewrite Hprs.
    pose proof (countDates_range Date_parse
                  (λ t, bool_decide (eventKey LocalTZA isMonthly t ∈ dataMap.*1))
                  (GitHubPR.created_at <$> prs)) as Hrange.
    rewrite length_fmap in Hrange. lia.
  - rewrite Hcommits.
    pose proof (countDates_range Date_parse
                  (λ t, bool_decide (eventKey LocalTZA isMonthly t ∈ dataMap.*1))
                  (GitHubCommit.date <$> commits)) as Hrange.
    rewrite length_fmap in Hrange. lia.
Qed.

(** ** Keys of events *)

Lemma isoDate_lacks_T_all n : lacks "T" (isoDate n).
Proof.
  unfold isoDate, isoYear.
  apply lacks_append.
  - destruct ((0 <=? YearFromDay n) && (YearFromDay n <=? 9999)); [apply digits_lacks_T|].
    apply lacks_append; [|apply digits_lacks_T].
    destruct (YearFromDay n <? 0); cbn [lacks]; done.
  - repeat (apply lacks_append; [apply digits_lacks_T || (cbn [lacks]; done)|]).
    apply digits_lacks_T.
Qed.

(** In daily mode the key of an event is the ISO date of its day in UTC. *)
Lemma eventKey_daily (LocalTZA t : Z) : eventKey LocalTZA false t = isoDate (Day t).
Proof.
  unfold eventKey.
  change ("T" +:+ isoTime (TimeWithinDay t) +:+ "Z")
    with (String "T" (isoTime (TimeWithinDay t) +:+ "Z")).
  apply split_head_append, isoDate_lacks_T_all.
Qed.

(** The ISO date of a day with a four-digit year is the ISO date of no other
    day. *)
Lemma isoDate_inj_four n d : fourDigitYear n → isoDate d = isoDate n → d = n.
Proof.
  intros Hn Heq.
  destruct (decide (fourDigitYear d)) as [Hd|Hd]; [by apply isoDate_inj|].
  exfalso. rewrite (isoDate_four_digits n Hn) in Heq.
  unfold isoDate, isoYear in Heq.
  destruct ((0 <=? YearFromDay d) && (YearFromDay d <=? 9999)) eqn:Hyear.
  { apply Hd. unfold fourDigitYear. lia. }
  cbn [digits] in Heq.
  pose proof (digitChar_cases ((YearFromDay n / 10 ^ Z.of_nat 3) mod 10)) as Hdigit.
  destruct (YearFromDay d <? 0);
    rewrite !append_cons in Heq; injection Heq as Hchar _; rewrite <-Hchar in Hdigit;
    repeat (apply elem_of_cons in Hdigit as [Hdigit|Hdigit]; [discriminate|]);
    by apply elem_of_nil in Hdigit.
Qed.

Lemma monthKey_monthIndex (LocalTZA t : Z) :
  monthKey LocalTZA t = monthKeyOf (monthIndex (Day (t + LocalTZA))).
Proof.
  unfold monthKey, monthKeyOf, monthIndex, LocalTime.
  pose proof (MonthFromDay_range (Day (t + LocalTZA))) as Hmonth.
  replace ((12 * YearFromDay (Day (t + LocalTZA)) + MonthFromDay (Day (t + LocalTZA))) / 12)
    with (YearFromDay (Day (t + LocalTZA))) by (Z.div_mod_to_equations; lia).
  replace ((12 * YearFromDay (Day (t + LocalTZA)) + MonthFromDay (Day (t + LocalTZA))) mod 12)
    with (MonthFromDay (Day (t + LocalTZA))) by (Z.div_mod_to_equations; lia).
  done.
Qed.

Section RangeCounts.
Variable Date_parse : string → Date.
Variable LocalTZA : Z.
Variable toLocaleDateString : Z → LabelOptions → string.
Variables (prs : list GitHubPR.t) (commits : list GitHubCommit.t).
Variables (startDate endDate : string) (sd ed : Z).
Hypothesis Hstart : Date_parse startDate = Some (sd * msPerDay).
Hypothesis Hend : Date_parse endDate = Some (ed * msPerDay).
Hypothesis Hsd : fourDigitYear sd.
Hypothesis Hed : fourDigitYear ed.

Lemma chartData_daily_counts :
  Z.abs (ed - sd) ≤ 60 →
  chartData Date_parse LocalTZA toLocaleDateString prs commits startDate endDate
  = Returns (dayTotals Date_parse toLocaleDateString
               (GitHubPR.created_at <$> prs) (GitHubCommit.date <$> commits)
             <$> seqZ sd (daysSpanned sd ed)).
Proof.
  intros Hspan.
  assert (isMonthlyRange (Date_parse startDate) (Date_parse endDate) = false) as Hmode.
  { rewrite Hstart, Hend, isMonthlyRange_midnights. by apply Z.ltb_ge. }
  destruct (chartData_closed Date_parse LocalTZA toLocaleDateString prs commits
              startDate endDate) as (dataMap & Hloop & _ & _ & _ & Hrun).
  rewrite Hmode in Hloop, Hrun. rewrite Hrun. clear Hrun.
  rewrite Hstart, Hend in Hloop.
  assert (daysSpanned sd ed = Z.of_nat (Z.to_nat (daysSpanned sd ed))) as Hnat
    by (unfold daysSpanned; lia).
  rewrite (fillBuckets_daily LocalTZA toLocaleDateString ed (Z.to_nat (daysSpanned sd ed)))
    in Hloop; unfold daysSpanned in *; [|lia|lia|lia|lia|done| |].
  - injection Hloop as <-. fold (daysSpanned sd ed) in *.
    rewrite <-list_fmap_compose, <-Hnat.
    replace ((λ kb : string * ChartData, _) ∘ dayBucket toLocaleDateString <$>
             seqZ sd (daysSpanned sd ed))
      with (dayTotals Date_parse toLocaleDateString
              (GitHubPR.created_at <$> prs) (GitHubCommit.date <$> commits)
            <$> seqZ sd (daysSpanned sd ed)).
    + f_equal. apply sortByTimestamp_id. rewrite Hnat.
      apply Sorted_along. intros x. cbn. unfold msPerDay. lia.
    + apply Forall_fmap_ext_1, Forall_forall. intros n Hn.
      apply elem_of_seqZ in Hn. unfold daysSpanned in Hn.
      assert (fourDigitYear n) as Hyear by (apply (fourDigitYear_between sd ed); [done..|lia]).
      assert (∀ dates,
                countDates Date_parse (λ t, Day t =? n) dates
                = countDates Date_parse
                    (λ t, bool_decide (eventKey LocalTZA false t = isoDate n)) dates)
        as Hcount.
      { intros dates. apply countDates_ext. intros t. rewrite eventKey_daily.
        destruct (Z.eqb_spec (Day t) n) as [ -> | Hne].
        - by rewrite bool_decide_eq_true_2.
        - rewrite bool_decide_eq_false_2; [done|].
          intros Heq. by apply isoDate_inj_four in Heq. }
      unfold dayTotals, dayBucket, compose. cbn [fst snd key label timestamp].
      by rewrite !Hcount.
  - intros x Hx. apply (fourDigitYear_between sd ed); [done..|lia].
  - intros x Hx. apply not_elem_of_nil.
Qed.

Lemma chartData_monthly_counts :
  60 < Z.abs (ed - sd) →
  - msPerDay < LocalTZA < msPerDay →
  let i := monthIndex (localDay LocalTZA sd) in
  let j := monthIndex (localDay LocalTZA ed) in
  let shift := TimeWithinDay LocalTZA - LocalTZA in
  chartData Date_parse LocalTZA toLocaleDateString prs commits startDate endDate
  = Returns (monthTotals Date_parse LocalTZA toLocaleDateString shift
               (GitHubPR.created_at <$> prs) (GitHubCommit.date <$> commits)
             <$> seqZ i (Z.min 1001 (Z.max 0 (j - i + 1)))).
Proof.
  intros Hspan Htz i j shift.
  assert (isMonthlyRange (Date_parse startDate) (Date_parse endDate) = true) as Hmode.
  { rewrite Hstart, Hend, isMonthlyRange_midnights. by apply Z.ltb_lt. }
  pose proof (TimeWithinDay_range LocalTZA) as Htime.
  pose proof (fourDigitYear_bounds sd Hsd) as Hbsd.
  pose proof (fourDigitYear_bounds ed Hed) as Hbed.
  pose proof (localDay_range LocalTZA sd Htz) as Hlsd.
  pose proof (localDay_range LocalTZA ed Htz) as Hled.
  pose proof (firstOfMonth_monthIndex (localDay LocalTZA sd)) as Hfi.
  pose proof (firstOfMonth_monthIndex (localDay LocalTZA ed)) as Hfj.
  pose proof (DateFromDay_range (localDay LocalTZA sd)) as Hdi.
  pose proof (DateFromDay_range (localDay LocalTZA ed)) as Hdj.
  fold i in Hfi. fold j in Hfj.
  assert (∀ x, - 3000000 ≤ firstOfMonth x ≤ 3000000 →
               TimeClip (firstOfMonth x * msPerDay + shift)
               = Some (firstOfMonth x * msPerDay + shift)) as Hclip.
  { intros x Hx. apply TimeClip_small. unfold shift, msPerDay in *. lia. }
  set (k := Z.min 1001 (Z.max 0 (j - i + 1))).
  assert (k = Z.of_nat (Z.to_nat k)) as Hnat by (unfold k; lia).
  destruct (chartData_closed Date_parse LocalTZA toLocaleDateString prs commits
              startDate endDate) as (dataMap & Hloop & _ & _ & _ & Hrun).
  rewrite Hmode in Hloop, Hrun. rewrite Hrun. clear Hrun.
  rewrite Hstart, Hend, !setDate_first, !local_time_of_day in Hloop.
  fold (localDay LocalTZA sd) (localDay LocalTZA ed) in Hloop. fold i j in Hloop.
  replace (firstOfMonth i * msPerDay + TimeWithinDay LocalTZA - LocalTZA)
    with (firstOfMonth i * msPerDay + shift) in Hloop by (unfold shift; lia).
  replace (firstOfMonth j * msPerDay + TimeWithinDay LocalTZA - LocalTZA)
    with (firstOfMonth j * msPerDay + shift) in Hloop by (unfold shift; lia).
  rewrite !Hclip in Hloop by lia.
  rewrite (fillBuckets_monthly LocalTZA toLocaleDateString shift j (Z.to_nat k)) in Hloop;
    [|unfold shift; lia|unfold k; lia|lia|unfold k; lia| |].
  - injection Hloop as <-. rewrite <-list_fmap_compose, <-Hnat.
    replace ((λ kb : string * ChartData, _) ∘ monthBucket toLocaleDateString shift <$>
             seqZ i k)
      with (monthTotals Date_parse LocalTZA toLocaleDateString shift
              (GitHubPR.created_at <$> prs) (GitHubCommit.date <$> commits)
            <$> seqZ i k).
    + f_equal. apply sortByTimestamp_id. rewrite Hnat.
      apply Sorted_along. intros x. cbn.
      pose proof (firstOfMonth_succ x). unfold msPerDay. lia.
    + apply Forall_fmap_ext_1, Forall_forall. intros x _.
      assert (∀ dates,
                countDates Date_parse (λ t, monthIndex (Day (t + LocalTZA)) =? x) dates
                = countDates Date_parse
                    (λ t, bool_decide (eventKey LocalTZA true t = monthKeyOf x)) dates)
        as Hcount.
      { intros dates. apply countDates_ext. intros t.
        unfold eventKey. rewrite monthKey_monthIndex.
        destruct (Z.eqb_spec (monthIndex (Day (t + LocalTZA))) x) as [ -> | Hne].
        - by rewrite bool_decide_eq_true_2.
        - rewrite bool_decide_eq_false_2; [done|].
          intros Heq. by apply monthKeyOf_inj in Heq. }
      unfold monthTotals, monthBucket, compose. cbn [fst snd key label timestamp].
      by rewrite !Hcount.
  - intros x Hx. apply Hclip.
    assert (firstOfMonth i ≤ firstOfMonth x) by (apply firstOfMonth_le_iff; lia).
    assert (firstOfMonth x ≤ firstOfMonth (j + 1)) by (apply firstOfMonth_le_iff; lia).
    pose proof (firstOfMonth_succ j). lia.
  - intros x Hx. apply not_elem_of_nil.
Qed.
End RangeCounts.



(** X19: in monthly mode (a span of more than 60 days between two midnights
    of UTC with four-digit years, on a host less than a day from UTC) the
    timeline is, in order, one bucket for each month from the local month of
    the start to the local month of the end, 1001 of them at most, whose
    counts are the numbers of pull requests and of commits that the host
    reads as a time in that month of local time. *)
Theorem X19_monthly_buckets_count_events_of_their_local_month
  (Date_parse : string → Date) (LocalTZA : Z)
  (toLocaleDateString : Z → LabelOptions → string)
  (prs : list GitHubPR.t) (commits : list GitHubCommit.t) (startDate endDate : string)
  (sd ed : Z) :
  Date_parse startDate = Some (sd * msPerDay) →
  Date_parse endDate = Some (ed * msPerDay) →
  fourDigitYear sd → fourDigitYear ed →
  60 < Z.abs (ed - sd) →
  - msPerDay < LocalTZA < msPerDay →
  let i := monthIndex (localDay LocalTZA sd) in
  let j := monthIndex (localDay LocalTZA ed) in
  let shift := TimeWithinDay LocalTZA - LocalTZA in
  chartData Date_parse LocalTZA toLocaleDateString prs commits startDate endDate
  = Returns (monthTotals Date_parse LocalTZA toLocaleDateString shift
               (GitHubPR.created_at <$> prs) (GitHubCommit.date <$> commits)
             <$> seqZ i (Z.min 1001 (Z.max 0 (j - i + 1)))).
Proof.
  intros Hstart Hend Hsd Hed Hspan Htz.
  exact (chartData_monthly_counts Date_parse LocalTZA toLocaleDateString prs commits
           startDate endDate sd ed Hstart Hend Hsd Hed Hspan Htz).
Qed.

(** X19 for the first half of 2024 on a host five hours behind UTC, with a
    pull request created in the first hours of February in UTC. *)
Lemma X19_monthly_counts_witness :
  chartData isoParse (-18000000) plainLabel
    [examplePRAt "2024-02-01T03:00:00Z"] [] "2024-01-01" "2024-06-30"
  = Returns (monthTotals isoParse (-18000000) plainLabel
               (TimeWithinDay (-18000000) - (-18000000))
               (GitHubPR.created_at <$> [examplePRAt "2024-02-01T03:00:00Z"])
               (GitHubCommit.date <$> [])
             <$> seqZ (monthIndex (localDay (-18000000) 19723))
                   (Z.min 1001
                      (Z.max 0 (monthIndex (localDay (-18000000) 19904)
                                - monthIndex (localDay (-18000000) 19723) + 1)))).
Proof.
  apply (X19_monthly_buckets_count_events_of_their_local_month isoParse (-18000000)
           plainLabel [examplePRAt "2024-02-01T03:00:00Z"] [] "2024-01-01" "2024-06-30"
           19723 19904).
  - vm_compute. reflexivity.
  - vm_compute. reflexivity.
  - unfold fourDigitYear. vm_compute. split; discriminate.
  - unfold fourDigitYear. vm_compute. split; discriminate.
  - vm_compute. reflexivity.
  - vm_compute. split; reflexivity.
Defined.

(** ** Ranges that give no bucket *)

Lemma inverted_monthly (LocalTZA s e : Z) :
  e < s →
  isMonthlyRange (Some s) (Some e) = true →
  loopCondition LocalTZA true (setDate LocalTZA (Some s) (Some 1))
                (setDate LocalTZA (Some e) (Some 1)) = false.
Proof.
  intros Hinv Hmode.
  assert (60 * msPerDay < s - e) as Hspan.
  { unfold isMonthlyRange, diffDays, getTime in Hmode. simpl in Hmode.
    change (1000 * 60 * 60 * 24) with msPerDay in Hmode.
    apply Z.ltb_lt in Hmode. rewrite Z.abs_neq in Hmode by lia.
    unfold msPerDay in *. Z.div_mod_to_equations. lia. }
  rewrite !setDate_first.
  set (A := Day (s + LocalTZA)). set (B := Day (e + LocalTZA)).
  assert (B + 60 ≤ A) as Hdays.
  { unfold A, B, Day, msPerDay in *. Z.div_mod_to_equations. lia. }
  pose proof (day_in_month A) as HA. pose proof (day_in_month B) as HB.
  pose proof (firstOfMonth_succ (monthIndex A)) as HsA.
  pose proof (firstOfMonth_succ (monthIndex B)) as HsB.
  assert (monthIndex B < monthIndex A) as Hmonths.
  { pose proof (monthIndex_mono B A ltac:(lia)) as Hmono.
    destruct (decide (monthIndex B = monthIndex A)) as [Heq|Hne]; [|lia].
    rewrite Heq in HB. lia. }
  assert (firstOfMonth (monthIndex B) + 28 ≤ firstOfMonth (monthIndex A)) as Hfirst.
  { assert (firstOfMonth (monthIndex B + 1) ≤ firstOfMonth (monthIndex A))
      by (apply firstOfMonth_le_iff; lia). lia. }
  pose proof (TimeWithinDay_range (s + LocalTZA)) as Hts.
  pose proof (TimeWithinDay_range (e + LocalTZA)) as Hte.
  unfold TimeClip.
  destruct (Z.abs _ <=? _); [|done].
  destruct (Z.abs _ <=? _); [|by cbn; rewrite ?andb_false_r].
  unfold loopCondition, Date_le, getMonth, getFullYear, Number_eq, LocalTime.
  cbn [fmap option_fmap option_map andb].
  replace (firstOfMonth (monthIndex A) * msPerDay + TimeWithinDay (s + LocalTZA)
           - LocalTZA + LocalTZA)
    with (MakeDate (firstOfMonth (monthIndex A)) (TimeWithinDay (s + LocalTZA)))
    by (unfold MakeDate; lia).
  replace (firstOfMonth (monthIndex B) * msPerDay + TimeWithinDay (e + LocalTZA)
           - LocalTZA + LocalTZA)
    with (MakeDate (firstOfMonth (monthIndex B)) (TimeWithinDay (e + LocalTZA)))
    by (unfold MakeDate; lia).
  rewrite !Day_MakeDate by done.
  rewrite !YearFromDay_firstOfMonth, !MonthFromDay_firstOfMonth.
  apply orb_false_iff. split.
  - apply Z.leb_gt. unfold msPerDay in *. lia.
  - apply andb_false_iff.
    destruct (Z.eqb_spec (monthIndex A mod 12) (monthIndex B mod 12)) as [Hm|]; [|by left].
    destruct (Z.eqb_spec (monthIndex A / 12) (monthIndex B / 12)) as [Hy|]; [|by right].
    exfalso. Z.div_mod_to_equations. lia.
Qed.

Lemma fillBuckets_stop (LocalTZA : Z) (toLocaleDateString : Z → LabelOptions → string)
    (fuel : nat) (isMonthly : bool) (endTarget current : Date) (loops : Z)
    (dataMap : DataMap) :
  loopCondition LocalTZA isMonthly current endTarget = false →
  fillBuckets LocalTZA toLocaleDateString (S fuel) isMonthly endTarget current loops dataMap
  = Returns dataMap.
Proof. intros Hstop. cbn [fillBuckets]. by rewrite Hstop. Qed.

(** X20: when the host cannot read the start date or the end date, or reads
    the end as a time before the start, the timeline has no bucket at all,
    whatever the events are. *)
Theorem X20_unreadable_or_inverted_range_gives_no_bucket
  (Date_parse : string → Date) (LocalTZA : Z)
  (toLocaleDateString : Z → LabelOptions → string)
  (prs : list GitHubPR.t) (commits : list GitHubCommit.t) (startDate endDate : string) :
  match Date_parse startDate, Date_parse endDate with
  | Some s, Some e => e < s
  | _, _ => True
  end →
  chartData Date_parse LocalTZA toLocaleDateString prs commits startDate endDate
  = Returns [].
Proof.
  intros Hrange.
  destruct (chartData_closed Date_parse LocalTZA toLocaleDateString prs commits
              startDate endDate) as (dataMap & Hloop & _ & _ & _ & Hrun).
  rewrite Hrun. clear Hrun.
  assert (dataMap = []) as ->; [|done].
  rewrite fillBuckets_stop in Hloop; [congruence|]. clear Hloop.
  destruct (Date_parse startDate) as [s|], (Date_parse endDate) as [e|].
  - destruct (isMonthlyRange (Some s) (Some e)) eqn:Hmode.
    + by apply inverted_monthly.
    + unfold loopCondition, Date_le. cbn [andb orb]. rewrite orb_false_r.
      by apply Z.leb_gt.
  - reflexivity.
  - reflexivity.
  - reflexivity.
Qed.

(** X20 for a start date that the host cannot read. *)
Lemma X20_unreadable_start_witness :
  chartData isoParse 0 plainLabel [examplePRAt "2024-01-02T10:00:00Z"] []
    "yesterday" "2024-01-03"
  = Returns [].
Proof.
  apply (X20_unreadable_or_inverted_range_gives_no_bucket isoParse 0 plainLabel
           [examplePRAt "2024-01-02T10:00:00Z"] [] "yesterday" "2024-01-03").
  vm_compute. exact I.
Defined.

(** ** Logging out *)

